(** * OpenProject timesheet export: a shallow embedding of
      [export_open_project.py] and the properties of its
      data-acquisition and normalisation pipeline.

    Python values are modelled as follows.
    - [str] is [string]; every [ascii] stands for one code point below 256.
    - parsed JSON ([r.json()]) is the inductive type [json]; a JSON object is
      an association list in insertion order with distinct keys.
    - [float] is an IEEE-754 binary64 number, [spec_float] with precision 53
      and maximal exponent 1024.
    - a raised exception is the [Raise] case of [result].
    - the [requests.Session] object is the record [session]; the remote
      server is a function from URLs to responses. *)

From Stdlib Require Import ZArith List Bool Lia Ascii String.
From Stdlib Require Import Floats.SpecFloat.
From stdpp Require Import gmap strings.
Import ListNotations.


Local Open Scope Z_scope.

Set Warnings "-register-all".

(** ** Exceptions and results *)

Inductive exn : Type :=
| ValueError
| TypeError
| AttributeError
| OverflowError
| SystemExit
| RequestException
| HTTPError
| JSONDecodeError.

Inductive result (A : Type) : Type :=
| Ok (a : A)
| Raise (e : exn).

Arguments Ok {A} a.
Arguments Raise {A} e.

Definition rbind {A B : Type} (r : result A) (k : A -> result B) : result B :=
  match r with
  | Ok a => k a
  | Raise e => Raise e
  end.

Notation "x <- e1 ;; e2" := (rbind e1 (fun x => e2))
  (at level 100, e1 at next level, right associativity).

Definition is_ok {A : Type} (r : result A) : bool :=
  match r with Ok _ => true | Raise _ => false end.

(** ** Characters and strings *)

(** [str.isspace] on code points below 256. *)
Definition is_space (c : ascii) : bool :=
  let n := N_of_ascii c in
  (((9 <=? n) && (n <=? 13)) || ((28 <=? n) && (n <=? 32))
   || (n =? 133) || (n =? 160))%N.

(** The class [\d] of [re] on code points below 256. *)
Definition is_digit (c : ascii) : bool :=
  let n := N_of_ascii c in ((48 <=? n) && (n <=? 57))%N.

Definition is_char (c : ascii) : ascii -> bool := Ascii.eqb c.

Definition is_empty (s : string) : bool :=
  match s with EmptyString => true | String _ _ => false end.

(** [s.lstrip(chars)], [s.rstrip(chars)] and [s.strip(chars)], the set of
    characters given as a predicate. *)
Fixpoint lstrip (p : ascii -> bool) (s : string) : string :=
  match s with
  | EmptyString => EmptyString
  | String c s' => if p c then lstrip p s' else s
  end.

Fixpoint rstrip (p : ascii -> bool) (s : string) : string :=
  match s with
  | EmptyString => EmptyString
  | String c s' =>
      let r := rstrip p s' in
      if is_empty r && p c then EmptyString else String c r
  end.

Definition strip (p : ascii -> bool) (s : string) : string :=
  rstrip p (lstrip p s).

(** [s.split(sep)] for a one-character separator: never an empty list. *)
Fixpoint split_on (sep : ascii) (s : string) : list string :=
  match s with
  | EmptyString => [EmptyString]
  | String c s' =>
      let r := split_on sep s' in
      if Ascii.eqb c sep then EmptyString :: r
      else match r with
           | h :: t => String c h :: t
           | [] => [String c EmptyString]
           end
  end.

(** [s.split()]: the maximal runs of non-whitespace characters. [cur] is the
    run being read. *)
Fixpoint split_ws_from (cur : string) (s : string) : list string :=
  match s with
  | EmptyString => if is_empty cur then [] else [cur]
  | String c s' =>
      if is_space c then
        (if is_empty cur then split_ws_from EmptyString s'
         else cur :: split_ws_from EmptyString s')
      else split_ws_from (cur +:+ String c EmptyString) s'
  end.

Definition split_ws (s : string) : list string := split_ws_from EmptyString s.

(** [sep.join(parts)]. *)
Fixpoint join (sep : string) (parts : list string) : string :=
  match parts with
  | [] => EmptyString
  | [p] => p
  | p :: rest => p +:+ sep +:+ join sep rest
  end.

(** [l[-1]] on a list of strings; [IndexError] cannot occur on the result of
    [split_on], for the empty list the model gives the empty string. *)
Definition last_item (l : list string) : string := List.last l EmptyString.

Definition starts_with (c : ascii) (s : string) : bool :=
  match s with String a _ => Ascii.eqb a c | EmptyString => false end.

Fixpoint ends_with (c : ascii) (s : string) : bool :=
  match s with
  | EmptyString => false
  | String a EmptyString => Ascii.eqb a c
  | String _ s' => ends_with c s'
  end.

(** ** JSON values as Python objects *)

Inductive json : Type :=
| JNull
| JBool (b : bool)
| JInt (n : Z)
| JFloat (f : spec_float)
| JStr (s : string)
| JArr (l : list json)
| JObj (kvs : list (string * json)).

(** Truth value of a Python object ([bool(v)]). *)
Definition py_truthy (v : json) : bool :=
  match v with
  | JNull => false
  | JBool b => b
  | JInt n => negb (n =? 0)
  | JFloat (S754_zero _) => false
  | JFloat _ => true
  | JStr s => negb (is_empty s)
  | JArr [] => false
  | JArr (_ :: _) => true
  | JObj [] => false
  | JObj (_ :: _) => true
  end.

(** [a or b]. *)
Definition py_or (a b : json) : json := if py_truthy a then a else b.

Fixpoint assoc (k : string) (kvs : list (string * json)) : option json :=
  match kvs with
  | [] => None
  | (k', v) :: rest => if String.eqb k k' then Some v else assoc k rest
  end.

(** [d.get(k, dflt)]: only a dict has the method. *)
Definition py_get (d : json) (k : string) (dflt : json) : result json :=
  match d with
  | JObj kvs => Ok (default dflt (assoc k kvs))
  | _ => Raise AttributeError
  end.

(** [k in d] for a dict [d]. *)
Definition py_has_key (kvs : list (string * json)) (k : string) : bool :=
  match assoc k kvs with Some _ => true | None => false end.

Fixpoint chars_of (s : string) : list json :=
  match s with
  | EmptyString => []
  | String c s' => JStr (String c EmptyString) :: chars_of s'
  end.

(** The items a [for] loop over [v] visits: a list gives its items, a string
    its characters, a dict its keys; other JSON values are not iterable. *)
Definition py_iter (v : json) : result (list json) :=
  match v with
  | JArr l => Ok l
  | JStr s => Ok (chars_of s)
  | JObj kvs => Ok (map (fun kv => JStr (fst kv)) kvs)
  | _ => Raise TypeError
  end.

(** ** Floating point: binary64 *)

Definition prec : Z := 53.
Definition emax : Z := 1024.

Definition fzero : spec_float := S754_zero false.

Definition fadd : spec_float -> spec_float -> spec_float := SFadd prec emax.

Definition finite_or_overflow (f : spec_float) : result spec_float :=
  match f with
  | S754_infinity _ => Raise OverflowError
  | _ => Ok f
  end.

(** [float(n)] for an [int], as in [n + 0.5]: the nearest double, ties to
    even; an [int] beyond the range of doubles raises [OverflowError]. *)
Definition float_of_int (n : Z) : result spec_float :=
  finite_or_overflow (binary_normalize prec emax n 0 false).

(** [a / b] on two [int]s with [b] positive: the quotient correctly rounded
    to the nearest double; a quotient beyond the range of doubles raises
    [OverflowError]. *)
Definition int_true_div (a : Z) (b : positive) : result spec_float :=
  match a with
  | Z0 => Ok fzero
  | _ =>
      let '(q, e, l) := SFdiv_core_binary prec emax (Z.abs a) 0 (Zpos b) 0 in
      finite_or_overflow (binary_round_aux prec emax (a <? 0) q e l)
  end.

(** Nearest integer to [p / 2^k], ties to even; [p] is non-negative. *)
Definition round_half_even_shift (p : Z) (k : Z) : Z :=
  let d := 2 ^ k in
  let q := p / d in
  let r := p mod d in
  match Z.compare (2 * r) d with
  | Lt => q
  | Gt => q + 1
  | Eq => if Z.even q then q else q + 1
  end.

(** [round(x, ndigits)] on a float, [ndigits] from 0 to 323: the exact value
    of [x] is rounded to [ndigits] decimals, ties to even, and the decimal
    result is converted to the nearest double. Infinities and NaN round to
    themselves. *)
Definition py_round (x : spec_float) (ndigits : Z) : result spec_float :=
  match x with
  | S754_finite s m e =>
      let scale := 10 ^ ndigits in
      let n :=
        if 0 <=? e then Zpos m * 2 ^ e * scale
        else round_half_even_shift (Zpos m * scale) (- e) in
      match n with
      | Z0 => Ok (S754_zero s)
      | _ => match int_true_div (if s then - n else n) (Z.to_pos scale) with
             | Ok f => Ok f
             | Raise e => Raise e
             end
      end
  | _ => Ok x
  end.

(** The double written as the decimal literal [m]e-[k], as in [5.5]. *)
Definition decimal (m : Z) (k : Z) : spec_float :=
  match int_true_div m (Z.to_pos (10 ^ k)) with
  | Ok f => f
  | Raise _ => S754_nan
  end.

(** ** A backtracking matcher for the regular expressions of [re] that the
       program uses *)

Inductive regex : Type :=
| RStart
| REnd
| RChar (c : ascii)
| RDigits
| RSeq (r1 r2 : regex)
| ROpt (r : regex)
| RGroup (name : string) (r : regex).

Definition captures : Type := list (string * string).

Definition newline : ascii := ascii_of_N 10.

(** [$] without [re.MULTILINE]: at the end of the string, or just before a
    newline that ends it. *)
Definition at_end (s : string) : bool :=
  match s with
  | EmptyString => true
  | String c EmptyString => Ascii.eqb c newline
  | _ => false
  end.

(** [\d+], greedy: the longest run first, then shorter ones. *)
Fixpoint match_digits {A : Type} (pos : nat) (s : string)
    (k : nat -> string -> option A) : option A :=
  match s with
  | String c s' =>
      if is_digit c then
        match match_digits (S pos) s' k with
        | Some r => Some r
        | None => k (S pos) s'
        end
      else None
  | EmptyString => None
  end.

(** [rmatch r whole pos s caps k]: match [r] at offset [pos] of [whole],
    where [s] is what is left of it, then continue with [k]; the first
    success in the order a backtracking engine tries wins. *)
Fixpoint rmatch (r : regex) (whole : string) (pos : nat) (s : string)
    (caps : captures) (k : nat -> string -> captures -> option captures)
    : option captures :=
  match r with
  | RStart => if Nat.eqb pos 0 then k pos s caps else None
  | REnd => if at_end s then k pos s caps else None
  | RChar c =>
      match s with
      | String a s' => if Ascii.eqb a c then k (S pos) s' caps else None
      | EmptyString => None
      end
  | RDigits => match_digits pos s (fun p t => k p t caps)
  | RSeq r1 r2 =>
      rmatch r1 whole pos s caps (fun p t cs => rmatch r2 whole p t cs k)
  | ROpt r1 =>
      match rmatch r1 whole pos s caps k with
      | Some cs => Some cs
      | None => k pos s caps
      end
  | RGroup name r1 =>
      rmatch r1 whole pos s caps
        (fun p t cs => k p t ((name, substring pos (p - pos) whole) :: cs))
  end.

(** [pattern.match(s)]: [None] when there is no match at offset 0. *)
Definition re_match (r : regex) (s : string) : option captures :=
  rmatch r s 0 s [] (fun _ _ cs => Some cs).

(** [m.group(name)]: [None] for a group that took no part in the match. *)
Fixpoint group (name : string) (caps : captures) : option string :=
  match caps with
  | [] => None
  | (n, v) :: rest => if String.eqb n name then Some v else group name rest
  end.

Fixpoint rseq (rs : list regex) : regex :=
  match rs with
  | [] => ROpt RStart
  | [r] => r
  | r :: rest => RSeq r (rseq rest)
  end.

(** [(?:\d+X)?] and [(?:(?P<name>\d+)X)?]. *)
Definition opt_field (unit : ascii) : regex :=
  ROpt (RSeq RDigits (RChar unit)).

Definition opt_named_field (name : string) (unit : ascii) : regex :=
  ROpt (RSeq (RGroup name RDigits) (RChar unit)).

Definition ISO_DURATION_RE : regex :=
  rseq [ RStart; RChar "P";
         opt_field "Y"; opt_field "M"; opt_field "D";
         ROpt (rseq [ RChar "T";
                      opt_named_field "h" "H";
                      opt_named_field "m" "M";
                      opt_named_field "s" "S" ]);
         REnd ].

(** ** The program *)

Section Program.

Set Default Proof Using "Type".

(** [sys.get_int_max_str_digits()]: the longest digit string [int] converts;
    0 when the interpreter has no such limit. *)
Variable max_str_digits : nat.

(** Whitespace that [int] strips, on code points below 256. *)
Definition is_int_space (c : ascii) : bool :=
  let n := N_of_ascii c in
  (((9 <=? n) && (n <=? 13)) || (n =? 32) || (n =? 133) || (n =? 160))%N.

Definition digit_value (c : ascii) : Z := Z.of_N (N_of_ascii c) - 48.

(** The digits of a decimal literal, single underscores allowed between
    digits: the value read so far, the number of digits, and whether the
    previous character was a digit. *)
Fixpoint read_digits (acc : Z) (ndigits : nat) (after_digit : bool)
    (s : string) : option (Z * nat) :=
  match s with
  | EmptyString => if after_digit then Some (acc, ndigits) else None
  | String c s' =>
      if is_digit c then
        read_digits (10 * acc + digit_value c) (S ndigits) true s'
      else if Ascii.eqb c "_" && after_digit then
        read_digits acc ndigits false s'
      else None
  end.

Definition too_many_digits (ndigits : nat) : bool :=
  (640 <? ndigits)%nat && (0 <? max_str_digits)%nat
  && (max_str_digits <? ndigits)%nat.

(** [int(s)] on a string, base 10. *)
Definition py_int (s : string) : result Z :=
  let t := strip is_int_space s in
  let '(negative, body) :=
    match t with
    | String "+" rest => (false, rest)
    | String "-" rest => (true, rest)
    | _ => (false, t)
    end in
  match read_digits 0 0 false body with
  | Some (v, n) =>
      if too_many_digits n then Raise ValueError
      else Ok (if negative then - v else v)
  | None => Raise ValueError
  end.

(** [int(m.group(name) or 0)]. *)
Definition int_group (caps : captures) (name : string) : result Z :=
  match group name caps with
  | Some (String c rest) => py_int (String c rest)
  | _ => Ok 0
  end.

(** [iso_duration_to_hours(s)] for a string [s]. *)
Definition iso_duration_to_hours (s : string) : result spec_float :=
  if is_empty s then Ok fzero
  else
    match re_match ISO_DURATION_RE s with
    | None => Ok fzero
    | Some m =>
        h <- int_group m "h" ;;
        mnts <- int_group m "m" ;;
        sec <- int_group m "s" ;;
        q_m <- int_true_div mnts 60 ;;
        f_h <- float_of_int h ;;
        q_s <- int_true_div sec 3600 ;;
        py_round (fadd (fadd f_h q_m) q_s) 2
    end.

(** The same call on whatever [te.get("hours")] gives: any false value
    returns [0.0] at once, and [re] rejects a true value that is no string. *)
Definition iso_duration_to_hours_obj (v : json) : result spec_float :=
  if py_truthy v then
    match v with
    | JStr s => iso_duration_to_hours s
    | _ => Raise TypeError
    end
  else Ok fzero.

(** *** Calendar dates *)

Record date : Type := { year : Z; month : Z; day : Z }.

Definition MINYEAR : Z := 1.
Definition MAXYEAR : Z := 9999.

(** [calendar.isleap]. *)
Definition isleap (y : Z) : bool :=
  (y mod 4 =? 0) && (negb (y mod 100 =? 0) || (y mod 400 =? 0)).

(** [calendar.mdays]. *)
Definition mdays : list Z := [0; 31; 28; 31; 30; 31; 30; 31; 31; 30; 31; 30; 31].

Definition days_in_month (y m : Z) : Z :=
  nth (Z.to_nat m) mdays 0 + (if (m =? 2) && isleap y then 1 else 0).

(** [calendar.monthrange(year, month)[1]]. *)
Definition monthrange_ndays (y m : Z) : result Z :=
  if (1 <=? m) && (m <=? 12) then Ok (days_in_month y m)
  else Raise ValueError.

(** The values a C [int] holds: [datetime.date] reads its three arguments
    into C integers before it looks at their ranges. *)
Definition fits_c_int (z : Z) : bool :=
  (-2147483648 <=? z) && (z <=? 2147483647).

(** [datetime.date(year, month, day)]. *)
Definition make_date (y m d : Z) : result date :=
  if negb (fits_c_int y && fits_c_int m && fits_c_int d) then
    Raise OverflowError
  else if negb ((MINYEAR <=? y) && (y <=? MAXYEAR)) then Raise ValueError
  else if negb ((1 <=? m) && (m <=? 12)) then Raise ValueError
  else if negb ((1 <=? d) && (d <=? days_in_month y m)) then Raise ValueError
  else Ok {| year := y; month := m; day := d |}.

(** [month_bounds(ym)]. Unpacking [map(int, ym.split("-"))] into two names
    raises [ValueError] unless there are exactly two parts. [monthrange] is
    reached only after [date(year, month, 1)] has accepted the month. *)
Definition month_bounds (ym : string) : result (date * date) :=
  match split_on "-" ym with
  | [a; b] =>
      y <- py_int a ;;
      m <- py_int b ;;
      first <- make_date y m 1 ;;
      ndays <- monthrange_ndays y m ;;
      last <- make_date y m ndays ;;
      Ok (first, last)
  | _ => Raise ValueError
  end.

(** *** Library functions taken as parameters

    - [urljoin base url] is [urllib.parse.urljoin] on two strings; it raises
      [ValueError] on what [urlparse] rejects.
    - [urlparse_path href] is [urllib.parse.urlparse(href).path].
    - [py_str v] is [str(v)] for a JSON value that is not a string.
    - [prepare_url list_url first last user page_size] is the URL that
      [requests] prepares from [list_url] and the query parameters
      [filters], [pageSize] and [sortBy] built in [main]. *)
Variable urljoin : string -> string -> result string.
Variable urlparse_path : string -> result string.
Variable py_str : json -> string.
Variable prepare_url : string -> date -> date -> string -> Z -> result string.

(** *** Entity references *)

(** [parse_entity_id(href)] for a string [href]: every exception is caught
    and turned into the empty string. *)
Definition parse_entity_id (href : string) : string :=
  match
    (path <- urlparse_path href ;;
     Ok (last_item (split_on "/" (strip (is_char "/") path))))
  with
  | Ok id => id
  | Raise _ => ""
  end.

(** The same call on whatever [entity.get("href", "")] gives: on a value
    that is no string [urlparse] or [strip] raises, which is caught. *)
Definition parse_entity_id_obj (v : json) : string :=
  match v with
  | JStr href => parse_entity_id href
  | _ => ""
  end.

(** *** The session and the server *)

(** A response: its status code and its body parsed as JSON, [None] when the
    body is not JSON. *)
Record response : Type := { status_code : Z; body : option json }.

(** The server, as [session.get] sees it: [None] when [requests] raises
    instead of returning a response. *)
Definition server : Type := string -> option response.

(** The session object: the attribute [base_url], the attribute
    [_custom_opt_cache] ([None] until it is first set), and the URLs
    requested through [session.get], oldest first. *)
Record session : Type := {
  base_url : string;
  custom_opt_cache : option (gmap string json);
  requests_sent : list string
}.

Definition new_session (base : string) : session :=
  {| base_url := base; custom_opt_cache := None; requests_sent := [] |}.

Definition with_cache (s : session) (c : gmap string json) : session :=
  {| base_url := base_url s;
     custom_opt_cache := Some c;
     requests_sent := requests_sent s |}.

Definition with_request (s : session) (url : string) : session :=
  {| base_url := base_url s;
     custom_opt_cache := custom_opt_cache s;
     requests_sent := requests_sent s ++ [url] |}.

(** [r.raise_for_status()]. *)
Definition raise_for_status (r : response) : result unit :=
  if (400 <=? status_code r) && (status_code r <? 600) then Raise HTTPError
  else Ok tt.

(** [r.json()]. *)
Definition response_json (r : response) : result json :=
  match body r with
  | Some j => Ok j
  | None => Raise JSONDecodeError
  end.

(** [r = session.get(url); r.raise_for_status(); r.json()]. *)
Definition fetch_json (srv : server) (s : session) (url : string)
    : result json * session :=
  let s' := with_request s url in
  match srv url with
  | None => (Raise RequestException, s')
  | Some r => (_ <- raise_for_status r ;; response_json r, s')
  end.

(** [resolve_custom_option_value(session, href)] for a string [href]. *)
Definition resolve_custom_option_value (srv : server) (s : session)
    (href : string) : result json * session :=
  if is_empty href then (Ok (JStr ""), s)
  else
    let cache := default ∅ (custom_opt_cache s) in
    let s1 := with_cache s cache in
    match cache !! href with
    | Some v => (Ok v, s1)
    | None =>
        match urljoin (base_url s1) href with
        | Raise e => (Raise e, s1)
        | Ok url =>
            let '(r, s2) := fetch_json srv s1 url in
            match (data <- r ;; py_get data "value" (JStr "")) with
            | Raise e => (Raise e, s2)
            | Ok val => (Ok val, with_cache s2 (<[href := val]> cache))
            end
        end
    end.

(** The same call on a true value [v] that need not be a string. A list or
    a dict cannot be looked up in the cache; another value is not in it, and
    [urljoin] rejects it, or with an empty base hands it through to
    [session.get], which finds no URL in it. *)
Definition resolve_custom_option_value_obj (srv : server) (s : session)
    (v : json) : result json * session :=
  match v with
  | JStr href => resolve_custom_option_value srv s href
  | JArr _ | JObj _ =>
      (Raise TypeError, with_cache s (default ∅ (custom_opt_cache s)))
  | _ =>
      (Raise (if is_empty (base_url s) then RequestException else TypeError),
       with_cache s (default ∅ (custom_opt_cache s)))
  end.

(** *** The paginated collection, a generator *)

(** Where the generator of [get_collection] is suspended: about to test
    [while url]; inside the [for] loop over the elements of a page, the items
    not yet yielded and the page's [data]; or finished. *)
Inductive generator : Type :=
| AtLoop (url : option string)
| InPage (pending : list json) (data : json)
| Finished.

Inductive event : Type :=
| Tau
| Yield (el : json)
| Return
| Raised (e : exn).

(** [data.get("_embedded", {}).get("elements", [])], as the items the loop
    visits. *)
Definition page_elements (data : json) : result (list json) :=
  emb <- py_get data "_embedded" (JObj []) ;;
  els <- py_get emb "elements" (JArr []) ;;
  py_iter els.

(** The last two lines of the loop body: the next value of [url]. *)
Definition next_url (base : string) (data : json) : result (option string) :=
  links <- py_get data "_links" (JObj []) ;;
  nb <- py_get links "nextByOffset" JNull ;;
  next_link <- py_get (py_or nb (JObj [])) "href" JNull ;;
  if py_truthy next_link then
    match next_link with
    | JStr href => url <- urljoin base href ;; Ok (Some url)
    | _ => Raise (if is_empty base then RequestException else TypeError)
    end
  else Ok None.

(** One step of the generator. *)
Definition gen_step (srv : server) (g : generator) (s : session)
    : event * generator * session :=
  match g with
  | Finished => (Return, Finished, s)
  | AtLoop None => (Return, Finished, s)
  | AtLoop (Some url) =>
      if is_empty url then (Return, Finished, s)
      else
        let '(r, s') := fetch_json srv s url in
        match (data <- r ;; els <- page_elements data ;; Ok (els, data)) with
        | Raise e => (Raised e, Finished, s')
        | Ok (els, data) => (Tau, InPage els data, s')
        end
  | InPage (el :: rest) data => (Yield el, InPage rest data, s)
  | InPage [] data =>
      match next_url (base_url s) data with
      | Raise e => (Raised e, Finished, s)
      | Ok url => (Tau, AtLoop url, s)
      end
  end.

(** [get_collection(session, url)]: the generator before its first step. *)
Definition get_collection (url : string) : generator := AtLoop (Some url).

(** How a run of the generator, or of the program, ends: normally, with an
    exception, or not within the number of steps given. *)
Inductive ending : Type :=
| Completed
| Aborted (e : exn)
| Unfinished.

(** [list(get_collection(session, url))] with the exception, if any, kept:
    the elements yielded, in order, and how the iteration ended. *)
Fixpoint collect (fuel : nat) (srv : server) (g : generator) (s : session)
    : list json * ending * session :=
  match fuel with
  | O => ([], Unfinished, s)
  | S fuel' =>
      match gen_step srv g s with
      | (Tau, g', s') => collect fuel' srv g' s'
      | (Yield el, g', s') =>
          let '(els, fin, s'') := collect fuel' srv g' s' in
          (el :: els, fin, s'')
      | (Return, _, s') => ([], Completed, s')
      | (Raised e, _, s') => ([], Aborted e, s')
      end
  end.

(** *** One time entry to one row: the body of the loop in [main] *)

Record row : Type := {
  Date : json;
  working_hours : spec_float;
  Location : json;
  Description : string
}.

(** [(te.get("comment") or {}).get("raw") or ""], then
    [" ".join(comment.split())]; a true value without [split] raises. *)
Definition entry_comment (te : json) : result string :=
  c <- py_get te "comment" JNull ;;
  raw <- py_get (py_or c (JObj [])) "raw" JNull ;;
  match py_or raw (JStr "") with
  | JStr text => Ok (join " " (split_ws text))
  | _ => Raise AttributeError
  end.

(** [links.get(name) or {}]. *)
Definition link_of (links : json) (name : string) : result json :=
  l <- py_get links name JNull ;;
  Ok (py_or l (JObj [])).

Definition default_location : json := JStr "remote".

(** The location of an entry, from [location = "remote"] to the end of the
    [if cf_key:] statement. [te] is the entry, a dict, [links] is
    [te.get("_links", {})] and [location_cf] is [args.location_cf]. *)
Definition entry_location (srv : server) (s : session) (location_cf : string)
    (te : list (string * json)) (links : json) : result json * session :=
  let cf_key := strip is_space location_cf in
  if is_empty cf_key then (Ok default_location, s)
  else if py_has_key te cf_key then
    (Ok (py_or (default JNull (assoc cf_key te)) default_location), s)
  else
    match (l <- link_of links cf_key ;; py_get l "href" (JStr "")) with
    | Raise e => (Raise e, s)
    | Ok cf_link =>
        if py_truthy cf_link then
          let '(r, s') := resolve_custom_option_value_obj srv s cf_link in
          (v <- r ;; Ok (py_or v default_location), s')
        else (Ok default_location, s)
    end.

(** What a replacement field of an f-string puts in for [v]. *)
Definition format_value (v : json) : string :=
  match v with
  | JStr text => text
  | _ => py_str v
  end.

(** [f"{assignment_num}_{activity_name}_{comment}".strip("_")]. *)
Definition compose_description (assignment_num activity_name comment : string)
    : string :=
  strip (is_char "_")
        (assignment_num +:+ "_" +:+ activity_name +:+ "_" +:+ comment).

(** The fields read before the location. *)
Definition entry_fields (te : json)
    : result (json * spec_float * string * json * string * json) :=
  spent_on <- py_get te "spentOn" JNull ;;
  hours_raw <- py_get te "hours" JNull ;;
  hours <- iso_duration_to_hours_obj hours_raw ;;
  comment <- entry_comment te ;;
  links <- py_get te "_links" (JObj []) ;;
  entity <- link_of links "entity" ;;
  activity <- link_of links "activity" ;;
  entity_href <- py_get entity "href" (JStr "") ;;
  title <- py_get activity "title" JNull ;;
  Ok (spent_on, hours, comment, links,
      parse_entity_id_obj entity_href, py_or title (JStr "")).

(** The body of the loop for the entry [te]: the row appended to [rows]. *)
Definition process_entry (srv : server) (s : session) (location_cf : string)
    (te : json) : result row * session :=
  match te with
  | JObj kvs =>
      match entry_fields te with
      | Raise e => (Raise e, s)
      | Ok (spent_on, hours, comment, links, assignment_num, activity_name) =>
          let '(loc, s') := entry_location srv s location_cf kvs links in
          (location <- loc ;;
           Ok {| Date := spent_on;
                 working_hours := hours;
                 Location := location;
                 Description :=
                   compose_description assignment_num
                     (format_value activity_name) comment |},
           s')
      end
  | _ => (Raise AttributeError, s)
  end.

(** *** [main], up to the list [rows] *)

(** The loop [for te in get_collection(session, query_url)]. *)
Fixpoint main_loop (fuel : nat) (srv : server) (location_cf : string)
    (g : generator) (s : session) (rows : list row)
    : ending * list row * session :=
  match fuel with
  | O => (Unfinished, rows, s)
  | S fuel' =>
      match gen_step srv g s with
      | (Tau, g', s') => main_loop fuel' srv location_cf g' s' rows
      | (Yield te, g', s') =>
          match process_entry srv s' location_cf te with
          | (Ok r, s'') =>
              main_loop fuel' srv location_cf g' s'' (rows ++ [r])
          | (Raise e, s'') => (Aborted e, rows, s'')
          end
      | (Return, _, s') => (Completed, rows, s')
      | (Raised e, _, s') => (Aborted e, rows, s')
      end
  end.

(** The parsed command line. *)
Record arguments : Type := {
  arg_base_url : option string;
  arg_api_key : option string;
  arg_month : string;
  arg_user : string;
  arg_location_cf : string;
  arg_page_size : Z
}.

Definition missing (a : option string) : bool :=
  match a with
  | Some v => is_empty v
  | None => true
  end.

(** [main()] from the parsed arguments to the end of the loop: how it ended,
    the rows collected, and the URLs requested. *)
Definition main (fuel : nat) (srv : server) (args : arguments)
    : ending * list row * list string :=
  if missing (arg_base_url args) || missing (arg_api_key args) then
    (Aborted SystemExit, [], [])
  else
    match month_bounds (arg_month args) with
    | Raise e => (Aborted e, [], [])
    | Ok (first, last) =>
        let s :=
          new_session (rstrip (is_char "/") (default "" (arg_base_url args))) in
        match prepare_url (base_url s +:+ "/api/v3/time_entries") first last
                (arg_user args) (arg_page_size args) with
        | Raise e => (Aborted e, [], [])
        | Ok query_url =>
            let '(fin, rows, s') :=
              main_loop fuel srv (arg_location_cf args)
                (get_collection query_url) s [] in
            (fin, rows, requests_sent s')
        end
    end.

(** *** The worksheet: the formatting at the end of [main]

    Of an [openpyxl] worksheet the model keeps what [main] assigns: for each
    cell the attributes [font], [fill], [alignment] and [border] ([None]
    while [main] has not assigned one), the widths of the columns and the
    heights of the rows. *)

Record Font : Type := {
  font_bold : bool;
  font_color : string;
  font_size : Z
}.

Record PatternFill : Type := {
  start_color : string;
  end_color : string;
  fill_type : string
}.

(** [wrap_text] is [None] where the call does not give it. *)
Record Alignment : Type := {
  horizontal : string;
  vertical : string;
  wrap_text : option bool
}.

Record Side : Type := { side_style : string; side_color : string }.

Record Border : Type := {
  border_left : Side;
  border_right : Side;
  border_top : Side;
  border_bottom : Side
}.

Record cell : Type := {
  cell_font : option Font;
  cell_fill : option PatternFill;
  cell_alignment : option Alignment;
  cell_border : option Border
}.

Record worksheet : Type := {
  cells : gmap (Z * Z) cell;
  column_width : gmap string Z;
  row_height : gmap Z Z
}.

Definition blank_cell : cell :=
  {| cell_font := None; cell_fill := None;
     cell_alignment := None; cell_border := None |}.

(** [ws.cell(row=r, column=c)]: the cell there, a new one if there is none. *)
Definition ws_cell (ws : worksheet) (r c : Z) : cell :=
  default blank_cell (cells ws !! (r, c)).

Definition set_cell (ws : worksheet) (r c : Z) (x : cell) : worksheet :=
  {| cells := <[(r, c) := x]> (cells ws);
     column_width := column_width ws;
     row_height := row_height ws |}.

Definition set_width (ws : worksheet) (col : string) (w : Z) : worksheet :=
  {| cells := cells ws;
     column_width := <[col := w]> (column_width ws);
     row_height := row_height ws |}.

Definition set_height (ws : worksheet) (r : Z) (h : Z) : worksheet :=
  {| cells := cells ws;
     column_width := column_width ws;
     row_height := <[r := h]> (row_height ws) |}.

Definition header_font : Font :=
  {| font_bold := true; font_color := "FFFFFF"; font_size := 11 |}.

Definition header_fill : PatternFill :=
  {| start_color := "4472C4"; end_color := "4472C4"; fill_type := "solid" |}.

Definition header_alignment : Alignment :=
  {| horizontal := "center"; vertical := "center"; wrap_text := Some true |}.

Definition thin_black : Side := {| side_style := "thin"; side_color := "000000" |}.

Definition border_style : Border :=
  {| border_left := thin_black; border_right := thin_black;
     border_top := thin_black; border_bottom := thin_black |}.

(** The columns of the data frame. *)
Definition columns : list string :=
  [ "Date"; "working hours"; "Location";
    "Assignment number_Activity_Work content" ].

(** [enumerate(l, start)] and [range(start, stop)]. *)
Fixpoint enumerate {A : Type} (l : list A) (start : Z) : list (Z * A) :=
  match l with
  | [] => []
  | x :: l' => (start, x) :: enumerate l' (start + 1)
  end.

Definition range (start stop : Z) : list Z :=
  map (fun i => start + Z.of_nat i) (seq 0 (Z.to_nat (stop - start))).

(** An assignment to an attribute of [ws.cell(row=r, column=c)]. *)
Definition assign (ws : worksheet) (r c : Z) (f : cell -> cell) : worksheet :=
  set_cell ws r c (f (ws_cell ws r c)).

Definition with_font (v : Font) (x : cell) : cell :=
  {| cell_font := Some v; cell_fill := cell_fill x;
     cell_alignment := cell_alignment x; cell_border := cell_border x |}.

Definition with_fill (v : PatternFill) (x : cell) : cell :=
  {| cell_font := cell_font x; cell_fill := Some v;
     cell_alignment := cell_alignment x; cell_border := cell_border x |}.

Definition with_alignment (v : Alignment) (x : cell) : cell :=
  {| cell_font := cell_font x; cell_fill := cell_fill x;
     cell_alignment := Some v; cell_border := cell_border x |}.

Definition with_border (v : Border) (x : cell) : cell :=
  {| cell_font := cell_font x; cell_fill := cell_fill x;
     cell_alignment := cell_alignment x; cell_border := Some v |}.

(** The body of the loop over the header cells. *)
Definition format_header_cell (ws : worksheet) (col : Z * string) : worksheet :=
  let col_num := fst col in
  let ws := assign ws 1 col_num (with_font header_font) in
  let ws := assign ws 1 col_num (with_fill header_fill) in
  let ws := assign ws 1 col_num (with_alignment header_alignment) in
  assign ws 1 col_num (with_border border_style).

(** [cell = ws.cell(row=r, column=c); cell.alignment = a;
     cell.border = border_style]. *)
Definition format_data_cell (ws : worksheet) (r c : Z) (a : Alignment)
    : worksheet :=
  let ws := assign ws r c (with_alignment a) in
  assign ws r c (with_border border_style).

Definition centered : Alignment :=
  {| horizontal := "center"; vertical := "center"; wrap_text := None |}.

Definition left_top_wrapped : Alignment :=
  {| horizontal := "left"; vertical := "top"; wrap_text := Some true |}.

(** The body of the loop over the data rows. *)
Definition format_data_row (ws : worksheet) (row_num : Z) : worksheet :=
  let ws := format_data_cell ws row_num 1 centered in
  let ws := format_data_cell ws row_num 2 centered in
  let ws := format_data_cell ws row_num 3 centered in
  format_data_cell ws row_num 4 left_top_wrapped.

(** The formatting of the sheet that holds the header and [len_df] rows,
    from the loop over the header cells to the height of the header row. *)
Definition format_sheet (len_df : Z) (ws : worksheet) : worksheet :=
  let ws := fold_left format_header_cell (enumerate columns 1) ws in
  let ws := fold_left format_data_row (range 2 (len_df + 2)) ws in
  let ws := set_width ws "A" 12 in
  let ws := set_width ws "B" 14 in
  let ws := set_width ws "C" 10 in
  let ws := set_width ws "D" 80 in
  set_height ws 1 30.

(** ** What the specification says, in its own words *)

(** The description as the specification words it: the three components
    joined with the separator, without the separators that an empty leading
    or trailing component leaves at the ends. *)
Definition description_by_spec (assignment_id activity_name comment : string)
    : string :=
  match is_empty assignment_id, is_empty activity_name, is_empty comment with
  | false, _, false =>
      assignment_id +:+ "_" +:+ activity_name +:+ "_" +:+ comment
  | true, false, false => activity_name +:+ "_" +:+ comment
  | true, true, false => comment
  | false, false, true => assignment_id +:+ "_" +:+ activity_name
  | false, true, true => assignment_id
  | true, false, true => activity_name
  | true, true, true => ""
  end.

(** A value that is empty or null. *)
Definition empty_or_null (v : json) : bool :=
  match v with
  | JNull | JStr EmptyString | JArr [] | JObj [] => true
  | _ => false
  end.

(** The length of a month by the calendar rule: a year is a leap year when
    it is divisible by 4 and not by 100, or divisible by 400. *)
Definition leap_year (y : Z) : Prop :=
  (4 | y) /\ (~ (100 | y) \/ (400 | y)).

Definition month_length (y m d : Z) : Prop :=
  (In m [1; 3; 5; 7; 8; 10; 12] /\ d = 31)
  \/ (In m [4; 6; 9; 11] /\ d = 30)
  \/ (m = 2 /\ leap_year y /\ d = 29)
  \/ (m = 2 /\ ~ leap_year y /\ d = 28).

(** The string "YYYY-MM" for a year and a month. *)
Definition digit_char (n : Z) : ascii := ascii_of_N (Z.to_N (48 + n mod 10)).

Definition yyyy_mm (y m : Z) : string :=
  String (digit_char (y / 1000)) (String (digit_char (y / 100))
    (String (digit_char (y / 10)) (String (digit_char y)
      (String "-" (String (digit_char (m / 10))
        (String (digit_char m) EmptyString)))))).

(** A path that [urlparse] leaves as it is: letters, digits and the
    characters [/ _ . - ~] only, and no [//] in front. *)
Definition is_path_char (c : ascii) : bool :=
  let n := N_of_ascii c in
  (((48 <=? n) && (n <=? 57)) || ((65 <=? n) && (n <=? 90))
   || ((97 <=? n) && (n <=? 122))
   || (n =? 47) || (n =? 95) || (n =? 46) || (n =? 45) || (n =? 126))%N.

Fixpoint all_chars (p : ascii -> bool) (s : string) : bool :=
  match s with
  | EmptyString => true
  | String c s' => p c && all_chars p s'
  end.

Definition plain_path (s : string) : bool :=
  all_chars is_path_char s
  && match s with
     | String "/" (String "/" _) => false
     | _ => true
     end.

(** The pages of a HAL collection. [holds_elements data els]: the page
    [data] holds the list [els] under [_embedded.elements]. *)
Inductive holds_elements : json -> list json -> Prop :=
| holds_elements_intro (kvs emb : list (string * json)) (els : list json) :
    assoc "_embedded" kvs = Some (JObj emb) ->
    assoc "elements" emb = Some (JArr els) ->
    holds_elements (JObj kvs) els.

(** [next_link_is data next]: the next-page link of the page [data] is
    [next]; it is absent when [_links], [nextByOffset] or its [href] is
    missing or null. *)
Inductive next_link_is : json -> option string -> Prop :=
| next_link_no_links (kvs : list (string * json)) :
    assoc "_links" kvs = None ->
    next_link_is (JObj kvs) None
| next_link_missing (kvs links : list (string * json)) :
    assoc "_links" kvs = Some (JObj links) ->
    assoc "nextByOffset" links = None \/ assoc "nextByOffset" links = Some JNull ->
    next_link_is (JObj kvs) None
| next_link_no_href (kvs links nb : list (string * json)) :
    assoc "_links" kvs = Some (JObj links) ->
    assoc "nextByOffset" links = Some (JObj nb) ->
    assoc "href" nb = None \/ assoc "href" nb = Some JNull ->
    next_link_is (JObj kvs) None
| next_link_present (kvs links nb : list (string * json)) (href : string) :
    assoc "_links" kvs = Some (JObj links) ->
    assoc "nextByOffset" links = Some (JObj nb) ->
    assoc "href" nb = Some (JStr href) ->
    href <> "" ->
    next_link_is (JObj kvs) (Some href).

(** [serves_page srv url els next]: the request for [url] succeeds and
    returns a page with the elements [els] and the next-page link [next]. *)
Inductive serves_page (srv : server) (url : string)
    : list json -> option string -> Prop :=
| serves_page_intro (r : response) (data : json) (els : list json)
    (next : option string) :
    url <> "" ->
    srv url = Some r ->
    raise_for_status r = Ok tt ->
    body r = Some data ->
    holds_elements data els ->
    next_link_is data next ->
    serves_page srv url els next.

(** [serves srv base url pages]: starting at [url] the server [srv] serves
    the finite collection whose pages hold the element lists [pages]; each
    page but the last links to the next one, relative to [base]. *)
Inductive serves (srv : server) (base : string)
    : string -> list (list json) -> Prop :=
| serves_last (url : string) (els : list json) :
    serves_page srv url els None ->
    serves srv base url [els]
| serves_next (url href url' : string) (els : list json)
    (rest : list (list json)) :
    serves_page srv url els (Some href) ->
    urljoin base href = Ok url' ->
    serves srv base url' rest ->
    serves srv base url (els :: rest).

Definition is_object (v : json) : bool :=
  match v with JObj _ => true | _ => false end.

Definition is_iterable (v : json) : bool :=
  match v with JArr _ | JStr _ | JObj _ => true | _ => false end.

(** A page as the specification describes it: an object that holds a list
    of elements in its nested embedded-elements location. A response whose
    payload is no such page, because an expected field is missing or is of
    another type, is what the specification calls malformed. *)
Definition well_formed_page (data : json) : bool :=
  match data with
  | JObj kvs =>
      match assoc "_embedded" kvs with
      | Some (JObj emb) =>
          match assoc "elements" emb with
          | Some (JArr _) => true
          | _ => false
          end
      | _ => false
      end
  | _ => false
  end.

Definition malformed_by_spec (data : json) : Prop :=
  well_formed_page data = false.

(** [not_a_page data e]: the payloads that the code cannot read as a page,
    each with the exception [e] it ends in: [data] is not an object, its
    [_embedded] is there and is not an object, or its [elements] is there
    and is not something to iterate over. These are fewer than the malformed
    payloads: a field that is missing, and [elements] that is a string or an
    object, are read without an exception. *)
Inductive not_a_page : json -> exn -> Prop :=
| not_a_page_top (data : json) :
    is_object data = false ->
    not_a_page data AttributeError
| not_a_page_embedded (kvs : list (string * json)) (emb : json) :
    assoc "_embedded" kvs = Some emb ->
    is_object emb = false ->
    not_a_page (JObj kvs) AttributeError
| not_a_page_elements (kvs emb : list (string * json)) (els : json) :
    assoc "_embedded" kvs = Some (JObj emb) ->
    assoc "elements" emb = Some els ->
    is_iterable els = false ->
    not_a_page (JObj kvs) TypeError.

(** [request_fails srv url e]: the request for the page at [url] fails with
    the exception [e]: no response, an error status, a body that is not
    JSON, or JSON that the code cannot read as a page. *)
Inductive request_fails (srv : server) (url : string) : exn -> Prop :=
| fails_no_response :
    srv url = None ->
    request_fails srv url RequestException
| fails_status (r : response) :
    srv url = Some r ->
    400 <= status_code r < 600 ->
    request_fails srv url HTTPError
| fails_not_json (r : response) :
    srv url = Some r ->
    raise_for_status r = Ok tt ->
    body r = None ->
    request_fails srv url JSONDecodeError
| fails_not_a_page (r : response) (data : json) (e : exn) :
    srv url = Some r ->
    raise_for_status r = Ok tt ->
    body r = Some data ->
    not_a_page data e ->
    request_fails srv url e.

(** [fails_after srv base url pages e]: starting at [url] the server serves
    the pages [pages], and the request for the page after them fails
    with [e]. *)
Inductive fails_after (srv : server) (base : string)
    : string -> list (list json) -> exn -> Prop :=
| fails_first (url : string) (e : exn) :
    url <> "" ->
    request_fails srv url e ->
    fails_after srv base url [] e
| fails_later (url href url' : string) (els : list json)
    (rest : list (list json)) (e : exn) :
    serves_page srv url els (Some href) ->
    urljoin base href = Ok url' ->
    fails_after srv base url' rest e ->
    fails_after srv base url (els :: rest) e.

(** The exceptions that the specification calls [FetchError]. *)
Definition FetchError (e : exn) : Prop :=
  In e [RequestException; HTTPError; JSONDecodeError; AttributeError; TypeError].

(** The exceptions that the specification calls [InvalidMonthError]: what
    [int] and [datetime.date] raise on a month they do not accept. *)
Definition InvalidMonthError (e : exn) : Prop :=
  In e [ValueError; OverflowError].

(** ** Notions used to state the properties *)

(** *** Strings *)

(** A component that neither begins nor ends with an underscore. *)
Definition clean (s : string) : Prop :=
  starts_with "_" s = false /\ ends_with "_" s = false.

Definition not_char (c : ascii) (a : ascii) : bool := negb (Ascii.eqb a c).

(** The number that a string of digits denotes, read after [acc]. *)
Fixpoint digits_number (acc : Z) (s : string) : Z :=
  match s with
  | EmptyString => acc
  | String c s' => digits_number (10 * acc + digit_value c) s'
  end.

(** *** The session *)

(** The cache of a session, empty while the attribute is not set. *)
Definition cache_of (s : session) : gmap string json :=
  default ∅ (custom_opt_cache s).

(** The calls of the resolver in a run, one after the other, each with the
    server as it is at that time. *)
Definition resolve_all (calls : list (server * string)) (s : session)
    : session :=
  fold_left (fun st call =>
               snd (resolve_custom_option_value (fst call) st (snd call)))
            calls s.

(** [keeps_entries s s']: every entry of the cache of [s] is in the cache of
    [s'], with the same value. *)
Definition keeps_entries (s s' : session) : Prop :=
  forall (k : string) (v : json),
    cache_of s !! k = Some v -> cache_of s' !! k = Some v.

(** The session after the requests for [urls], in that order. *)
Definition after_requests (s : session) (urls : list string) : session :=
  {| base_url := base_url s;
     custom_opt_cache := custom_opt_cache s;
     requests_sent := requests_sent s ++ urls |}.

(** *** The location *)

(** A value, or the default when the value is false. *)
Definition or_remote (v : json) : json :=
  if py_truthy v then v else default_location.

(** What the specification's wording gives for a direct field: the value, or
    the default when the value is empty or null. *)
Definition direct_location_by_spec (v : json) : json :=
  if empty_or_null v then default_location else v.

(** *** Months *)

(** [parses_as_year_month ym y m]: the string [ym] reads as the year [y] and
    the month [m], two integers around one dash. *)
Definition parses_as_year_month (ym : string) (y m : Z) : Prop :=
  exists a b : string,
    split_on "-" ym = [a; b] /\ py_int a = Ok y /\ py_int b = Ok m.

(** *** Durations: the regular expression as a parser *)

(** The longest run of digits in front of a string, and what follows. *)
Fixpoint span_digits (s : string) : string * string :=
  match s with
  | String c s' =>
      if is_digit c then
        let '(ds, rest) := span_digits s' in (String c ds, rest)
      else (EmptyString, s)
  | EmptyString => (EmptyString, EmptyString)
  end.

(** An optional field: digits and a unit letter, the digits captured under
    [name] if there is one. *)
Definition field_re (name : option string) (unit : ascii) : regex :=
  ROpt (RSeq match name with
             | Some n => RGroup n RDigits
             | None => RDigits
             end
             (RChar unit)).

Definition add_capture (name : option string) (v : string) (caps : captures)
    : captures :=
  match name with
  | Some n => (n, v) :: caps
  | None => caps
  end.

(** What an optional field takes from the front of a string: the digits of
    the field, if digits and the unit letter are there, and the rest. *)
Definition take_field (unit : ascii) (s : string) : option string * string :=
  match span_digits s with
  | (String c ds, String c' rest) =>
      if Ascii.eqb c' unit then (Some (String c ds), rest) else (None, s)
  | _ => (None, s)
  end.

(** [rejects unit k]: the continuation [k] fails on every string that
    begins with digits and the unit letter. *)
Definition rejects (unit : ascii)
    (k : nat -> string -> captures -> option captures) : Prop :=
  forall (pos : nat) (s : string) (caps : captures) (c : ascii)
         (ds rest : string),
    span_digits s = (String c ds, String unit rest) -> k pos s caps = None.

(** [suffix_at whole pos s]: [s] is what is left of [whole] at offset
    [pos]. *)
Definition suffix_at (whole : string) (pos : nat) (s : string) : Prop :=
  exists pre : string, whole = pre +:+ s /\ String.length pre = pos.

Definition add_opt (name : string) (v : option string) (caps : captures)
    : captures :=
  match v with
  | Some ds => (name, ds) :: caps
  | None => caps
  end.

(** The time part of a duration: the letter T and up to three fields. *)
Definition time_re : regex :=
  RSeq (RChar "T")
    (RSeq (field_re (Some "h") "H")
       (RSeq (field_re (Some "m") "M") (field_re (Some "s") "S"))).

Definition parse_time (s : string) : option captures :=
  match s with
  | String t s5 =>
      if Ascii.eqb t "T" then
        let '(h, s6) := take_field "H" s5 in
        let '(mi, s7) := take_field "M" s6 in
        let '(se, s8) := take_field "S" s7 in
        if at_end s8 then Some (add_opt "s" se (add_opt "m" mi (add_opt "h" h [])))
        else None
      else None
  | EmptyString => None
  end.

(** A parser for durations that never backtracks. *)
Definition parse_duration (s : string) : option captures :=
  match s with
  | String c s1 =>
      if Ascii.eqb c "P" then
        let '(_, s2) := take_field "Y" s1 in
        let '(_, s3) := take_field "M" s2 in
        let '(_, s4) := take_field "D" s3 in
        match parse_time s4 with
        | Some caps => Some caps
        | None => if at_end s4 then Some [] else None
        end
      else None
  | EmptyString => None
  end.

Definition accept : nat -> string -> captures -> option captures :=
  fun _ _ cs => Some cs.

(** *** Durations: the grammar *)

(** The duration grammar. A field is a number, one or more digits, and its
    unit letter, or nothing. A duration is the letter P, the optional fields
    of years, months and days, and an optional time part: the letter T and
    the optional fields of hours, minutes and seconds. [$] lets one newline
    follow. *)
Definition number_ok (o : option string) : Prop :=
  match o with
  | Some ds => ds <> "" /\ all_chars is_digit ds = true
  | None => True
  end.

Definition duration_field (o : option string) (unit : ascii) : string :=
  match o with
  | Some ds => ds +:+ String unit ""
  | None => ""
  end.

Definition end_text (nl : bool) : string :=
  if nl then String newline "" else "".

Definition time_text (t : option (option string * option string * option string))
    : string :=
  match t with
  | Some (h, mi, se) =>
      "T" +:+ duration_field h "H" +:+ duration_field mi "M"
      +:+ duration_field se "S"
  | None => ""
  end.

Definition duration_text (y mo d : option string)
    (t : option (option string * option string * option string)) (nl : bool)
    : string :=
  "P" +:+ duration_field y "Y" +:+ duration_field mo "M"
  +:+ duration_field d "D" +:+ time_text t +:+ end_text nl.

(** [conforms s h mi se]: the string [s] is a duration of the grammar whose
    hour, minute and second fields are [h], [mi] and [se]. *)
Definition conforms (s : string) (h mi se : option string) : Prop :=
  exists (y mo d : option string)
         (t : option (option string * option string * option string))
         (nl : bool),
    s = duration_text y mo d t nl
    /\ number_ok y /\ number_ok mo /\ number_ok d
    /\ number_ok h /\ number_ok mi /\ number_ok se
    /\ match t with
       | Some fields => fields = (h, mi, se)
       | None => (h, mi, se) = (None, None, None)
       end.

(** The grammar as the specification words it: nothing follows the
    duration. *)
Definition conforms_by_spec (s : string) (h mi se : option string) : Prop :=
  exists (y mo d : option string)
         (t : option (option string * option string * option string)),
    s = duration_text y mo d t false
    /\ number_ok y /\ number_ok mo /\ number_ok d
    /\ number_ok h /\ number_ok mi /\ number_ok se
    /\ match t with
       | Some fields => fields = (h, mi, se)
       | None => (h, mi, se) = (None, None, None)
       end.

Definition time_captures (h mi se : option string) : captures :=
  add_opt "s" se (add_opt "m" mi (add_opt "h" h [])).

(** The number in a field, 0 for a field that is absent; the number of its
    digits; and [int(m.group(name) or 0)] for it. *)
Definition field_number (o : option string) : Z :=
  match o with
  | Some ds => digits_number 0 ds
  | None => 0
  end.

Definition field_digits (o : option string) : nat :=
  match o with
  | Some ds => String.length ds
  | None => O
  end.

Definition int_field (o : option string) : result Z :=
  match o with
  | Some ds => py_int ds
  | None => Ok 0
  end.

(** [round(h + mnts / 60 + sec / 3600, 2)]. *)
Definition hours_of (h mnts sec : Z) : result spec_float :=
  q_m <- int_true_div mnts 60 ;;
  f_h <- float_of_int h ;;
  q_s <- int_true_div sec 3600 ;;
  py_round (fadd (fadd f_h q_m) q_s) 2.

(** *** Doubles *)

(** [magnitude_le f b]: the float [f] is finite and below [2^b] in absolute
    value. *)
Definition magnitude_le (f : spec_float) (b : Z) : Prop :=
  match f with
  | S754_zero _ => True
  | S754_finite _ m e => Zdigits2 (Zpos m) + e <= b
  | _ => False
  end.

Definition fexp64 (e : Z) : Z := fexp prec emax e.

(** *** Words and blanks *)

Definition not_space (c : ascii) : bool := negb (is_space c).

(** A word: a non-empty string without whitespace. *)
Definition is_word (w : string) : Prop :=
  w <> "" /\ all_chars not_space w = true.

(** No two characters [c] stand next to each other. *)
Fixpoint no_adjacent (c : ascii) (s : string) : bool :=
  match s with
  | String a ((String b _) as s') =>
      negb (Ascii.eqb a c && Ascii.eqb b c) && no_adjacent c s'
  | _ => true
  end.

(** Whitespace occurs as the blank only. *)
Definition blank_or_not_space (c : ascii) : bool :=
  not_space c || Ascii.eqb c " ".
(** *** Entries *)

Definition is_string (v : json) : bool :=
  match v with JStr _ => true | _ => false end.

(** [te.get("hours")] for a dict [te]. *)
Definition hours_of_entry (kvs : list (string * json)) : json :=
  default JNull (assoc "hours" kvs).
(** *** The run *)

(** [processed srv cf s tes rows s']: from the session [s] the loop body
    turns the entries [tes], one after the other, into the rows [rows], and
    leaves the session [s']. *)
Inductive processed (srv : server) (cf : string)
    : session -> list json -> list row -> session -> Prop :=
| processed_nil (s : session) : processed srv cf s [] [] s
| processed_cons (s s1 s2 : session) (te : json) (r : row)
    (tes : list json) (rows : list row) :
    process_entry srv s cf te = (Ok r, s1) ->
    processed srv cf s1 tes rows s2 ->
    processed srv cf s (te :: tes) (r :: rows) s2.

(** [exports srv cf url s pages rows s']: starting at [url] with the session
    [s] the server serves the pages [pages], and the entries of each page
    are processed once the page is fetched and before the next one is. *)
Inductive exports (srv : server) (cf : string)
    : string -> session -> list (list json) -> list row -> session -> Prop :=
| exports_last (url : string) (s s' : session) (els : list json)
    (rows : list row) :
    serves_page srv url els None ->
    processed srv cf (with_request s url) els rows s' ->
    exports srv cf url s [els] rows s'
| exports_next (url href url' : string) (s s1 s2 : session) (els : list json)
    (rest : list (list json)) (rows rows' : list row) :
    serves_page srv url els (Some href) ->
    processed srv cf (with_request s url) els rows s1 ->
    urljoin (base_url s) href = Ok url' ->
    exports srv cf url' s1 rest rows' s2 ->
    exports srv cf url s (els :: rest) (rows ++ rows') s2.

(** [option_fetch_fails srv url e]: the request for the option at [url]
    fails with the exception [e]: no response, an error status, a body that
    is not JSON, or JSON that is not an object. *)
Inductive option_fetch_fails (srv : server) (url : string) : exn -> Prop :=
| option_no_response :
    srv url = None ->
    option_fetch_fails srv url RequestException
| option_error_status (r : response) :
    srv url = Some r ->
    400 <= status_code r < 600 ->
    option_fetch_fails srv url HTTPError
| option_not_json (r : response) :
    srv url = Some r ->
    raise_for_status r = Ok tt ->
    body r = None ->
    option_fetch_fails srv url JSONDecodeError
| option_not_object (r : response) (data : json) :
    srv url = Some r ->
    raise_for_status r = Ok tt ->
    body r = Some data ->
    is_object data = false ->
    option_fetch_fails srv url AttributeError.
(** *** The sheet *)

(** A header cell, and a data cell of column [c] made of the cell [x]. *)
Definition header_cell : cell :=
  {| cell_font := Some header_font;
     cell_fill := Some header_fill;
     cell_alignment := Some header_alignment;
     cell_border := Some border_style |}.

Definition data_cell (x : cell) (c : Z) : cell :=
  {| cell_font := cell_font x;
     cell_fill := cell_fill x;
     cell_alignment := Some (if c =? 4 then left_top_wrapped else centered);
     cell_border := Some border_style |}.

Definition in_columns (c : Z) : bool := (1 <=? c) && (c <=? 4).

(** ** Example data *)

(** The entry of the end-to-end scenario. *)
Definition scenario_entry : json :=
  JObj [ ("spentOn", JStr "2024-03-05");
         ("hours", JStr "PT8H");
         ("comment", JObj [("raw", JStr "  Fixed   bug  ")]);
         ("_links",
          JObj [ ("entity", JObj [("href", JStr "/api/v3/work_packages/7")]);
                 ("activity", JObj [("title", JStr "Development")]) ]) ].

Definition scenario_row : row :=
  {| Date := JStr "2024-03-05";
     working_hours := decimal 80 1;
     Location := JStr "remote";
     Description := "7_Development_Fixed bug" |}.

(** An entry whose comment ends with an underscore. *)
Definition underscore_entry : json :=
  JObj [ ("spentOn", JStr "2024-03-05");
         ("hours", JStr "PT8H");
         ("comment", JObj [("raw", JStr "done_")]);
         ("_links",
          JObj [ ("entity", JObj [("href", JStr "/api/v3/work_packages/7")]);
                 ("activity", JObj [("title", JStr "Development")]) ]) ].

(** An entry with an integer custom field that holds 0. *)
Definition zero_field_entry : list (string * json) :=
  [ ("spentOn", JStr "2024-03-05"); ("hours", JStr "PT8H");
    ("customField7", JInt 0) ].

(** Stand-ins for the library functions, to run the program on examples:
    [urlparse] on plain paths, [urljoin] of a base without a path and a
    reference that starts with a slash. *)
Definition plain_urlparse_path (href : string) : result string :=
  if plain_path href then Ok href else Raise ValueError.

Definition concat_urljoin (base url : string) : result string :=
  Ok (base +:+ url).

Definition opaque_py_str (_ : json) : string := "<object>".

Definition plain_prepare_url (list_url : string) (_ _ : date) (_ : string)
    (_ : Z) : result string :=
  Ok list_url.

(** A mock collection of three pages with 2, 2 and 1 elements. *)
Definition mock_page (els : list json) (next : option string) : response :=
  {| status_code := 200;
     body :=
       Some (JObj [ ("_embedded", JObj [("elements", JArr els)]);
                    ("_links",
                     JObj match next with
                          | Some href => [("nextByOffset", JObj [("href", JStr href)])]
                          | None => []
                          end) ]) |}.

Definition mock_server : server :=
  fun url =>
    if String.eqb url "https://op.example/api/v3/time_entries" then
      Some (mock_page [JInt 1; JInt 2] (Some "/api/v3/time_entries?offset=2"))
    else if String.eqb url "https://op.example/api/v3/time_entries?offset=2" then
      Some (mock_page [JInt 3; JInt 4] (Some "/api/v3/time_entries?offset=3"))
    else if String.eqb url "https://op.example/api/v3/time_entries?offset=3" then
      Some (mock_page [JInt 5] None)
    else None.

(** The same collection with the third page out of service. *)
Definition failing_server : server :=
  fun url =>
    if String.eqb url "https://op.example/api/v3/time_entries?offset=3" then
      Some {| status_code := 503; body := None |}
    else mock_server url.

(** Two servers whose only page is malformed and yet read: one without
    [_embedded], one whose [elements] is a string. *)
Definition no_embedded_page : json := JObj [("total", JInt 2)].

Definition no_embedded_server : server :=
  fun url =>
    if String.eqb url "https://op.example/api/v3/time_entries" then
      Some {| status_code := 200; body := Some no_embedded_page |}
    else None.

Definition string_elements_page : json :=
  JObj [("_embedded", JObj [("elements", JStr "ab")])].

Definition string_elements_server : server :=
  fun url =>
    if String.eqb url "https://op.example/api/v3/time_entries" then
      Some {| status_code := 200; body := Some string_elements_page |}
    else None.

(** A server with one custom option. *)
Definition option_server : server :=
  fun url =>
    if String.eqb url "https://op.example/api/v3/custom_options/5" then
      Some {| status_code := 200;
              body := Some (JObj [("value", JStr "office")]) |}
    else None.

Definition example_base : string := "https://op.example".

Definition example_url : string := "https://op.example/api/v3/time_entries".

Definition example_session : session := new_session example_base.

Fixpoint replicate_char (n : nat) (c : ascii) : string :=
  match n with
  | O => EmptyString
  | S n' => String c (replicate_char n' c)
  end.

(** The duration of 10^309 hours. *)
Definition huge_duration : string := "PT1" +:+ replicate_char 309 "0" +:+ "H".

(** Five hours, and a newline after them. *)
Definition newline_duration : string := "PT5H" +:+ String newline "".

(** An entry whose location is a link to the custom option 5, and a server
    with one page of two such entries and that option. *)
Definition office_entry (day : string) : json :=
  JObj [ ("spentOn", JStr day);
         ("hours", JStr "PT8H");
         ("_links",
          JObj [ ("customField7",
                  JObj [("href", JStr "/api/v3/custom_options/5")]) ]) ].

Definition office_row (day : string) : row :=
  {| Date := JStr day;
     working_hours := decimal 80 1;
     Location := JStr "office";
     Description := "" |}.

Definition office_server : server :=
  fun url =>
    if String.eqb url "https://op.example/api/v3/time_entries" then
      Some (mock_page [office_entry "2024-03-05"; office_entry "2024-03-06"]
              None)
    else option_server url.

(** A server whose only page links to itself. *)
Definition looping_server : server :=
  fun url =>
    if String.eqb url "https://op.example/api/v3/time_entries" then
      Some (mock_page [JInt 1] (Some "/api/v3/time_entries"))
    else None.

(** A page with two elements whose [_links] is a string. *)
Definition bad_links_page : list (string * json) :=
  [ ("_embedded", JObj [("elements", JArr [JInt 1; JInt 2])]);
    ("_links", JStr "none") ].

Definition bad_links_server : server :=
  fun url =>
    if String.eqb url "https://op.example/api/v3/time_entries" then
      Some {| status_code := 200; body := Some (JObj bad_links_page) |}
    else None.
(** A page whose next-page link has an empty [href]. *)
Definition empty_href_page : list (string * json) :=
  [ ("_embedded", JObj [("elements", JArr [JInt 1; JInt 2])]);
    ("_links", JObj [("nextByOffset", JObj [("href", JStr "")])]) ].

Definition empty_href_server : server :=
  fun url =>
    if String.eqb url "https://op.example/api/v3/time_entries" then
      Some {| status_code := 200; body := Some (JObj empty_href_page) |}
    else None.

(** ** Properties *)

(** *** Strings *)

#[local] Arguments String.append !_ _ : simpl nomatch.

Lemma is_empty_true (s : string) : is_empty s = true -> s = "".
Proof. destruct s; [reflexivity | discriminate]. Qed.

Lemma is_empty_false (s : string) : is_empty s = false -> s <> "".
Proof. destruct s; [discriminate | discriminate]. Qed.

Lemma append_empty_r (s : string) : s +:+ "" = s.
Proof. induction s as [|a s IH]; [reflexivity | simpl; now rewrite IH]. Qed.

Lemma append_assoc (s t u : string) : (s +:+ t) +:+ u = s +:+ (t +:+ u).
Proof. induction s as [|a s IH]; [reflexivity | simpl; now rewrite IH]. Qed.

Lemma lstrip_not_led (c : ascii) (s : string) :
  starts_with c (lstrip (is_char c) s) = false.
Proof.
  induction s as [|a s IH]; simpl; [reflexivity|].
  unfold is_char at 1. destruct (Ascii.eqb c a) eqn:E; [exact IH|].
  simpl. rewrite Ascii.eqb_sym. exact E.
Qed.

Lemma rstrip_not_ended (c : ascii) (s : string) :
  ends_with c (rstrip (is_char c) s) = false.
Proof.
  induction s as [|a s IH]; simpl; [reflexivity|].
  destruct (rstrip (is_char c) s) as [|b r] eqn:R; simpl.
  - unfold is_char. destruct (Ascii.eqb c a) eqn:E; simpl; [reflexivity|].
    rewrite Ascii.eqb_sym. exact E.
  - simpl in IH. exact IH.
Qed.

Lemma rstrip_keeps_head (p : ascii -> bool) (c : ascii) (s : string) :
  starts_with c s = false -> starts_with c (rstrip p s) = false.
Proof.
  destruct s as [|a s]; simpl; [reflexivity|].
  intros H.
  destruct (is_empty (rstrip p s) && p a); simpl; [reflexivity | exact H].
Qed.

Lemma strip_clean (c : ascii) (s : string) :
  starts_with c (strip (is_char c) s) = false
  /\ ends_with c (strip (is_char c) s) = false.
Proof.
  unfold strip. split.
  - apply rstrip_keeps_head, lstrip_not_led.
  - apply rstrip_not_ended.
Qed.

(** A string whose first character is not stripped is left alone on the
    left; one whose last character is not stripped, on the right. *)
Lemma lstrip_fixed (c : ascii) (s : string) :
  starts_with c s = false -> lstrip (is_char c) s = s.
Proof.
  destruct s as [|a s]; simpl; [reflexivity|].
  unfold is_char. rewrite Ascii.eqb_sym. now intros ->.
Qed.

Lemma rstrip_fixed (c : ascii) (s : string) :
  s <> "" -> ends_with c s = false -> rstrip (is_char c) s = s.
Proof.
  induction s as [|a s IH]; [congruence|].
  intros _ H. destruct s as [|b s].
  - simpl in *. unfold is_char. rewrite Ascii.eqb_sym, H. reflexivity.
  - change (ends_with c (String a (String b s))) with (ends_with c (String b s)) in H.
    change (rstrip (is_char c) (String a (String b s)))
      with (let r := rstrip (is_char c) (String b s) in
            if is_empty r && is_char c a then EmptyString else String a r).
    rewrite IH by (congruence || assumption). reflexivity.
Qed.

Lemma ends_with_app (c : ascii) (s t : string) :
  t <> "" -> ends_with c (s +:+ t) = ends_with c t.
Proof.
  intros Ht. induction s as [|a s IH]; [reflexivity|].
  simpl. destruct (s +:+ t) eqn:E.
  - destruct s, t; simpl in E; congruence.
  - exact IH.
Qed.

Lemma app_not_empty_r (s t : string) : t <> "" -> s +:+ t <> "".
Proof. destruct s, t; simpl; congruence. Qed.

Lemma starts_with_app (c : ascii) (s t : string) :
  s <> "" -> starts_with c (s +:+ t) = starts_with c s.
Proof. destruct s; [congruence | reflexivity]. Qed.

Lemma rstrip_all (c : ascii) (s : string) :
  all_chars (Ascii.eqb c) s = true -> rstrip (is_char c) s = "".
Proof.
  induction s as [|a s IH]; simpl; [reflexivity|].
  intros [Ha Hs]%andb_prop. rewrite (IH Hs). simpl. unfold is_char.
  now rewrite Ha.
Qed.

(** Stripping on the right leaves a part that does not end in the stripped
    character alone, and removes what follows it. *)
Lemma rstrip_app_fixed (c : ascii) (s t : string) :
  s <> "" -> ends_with c s = false ->
  all_chars (Ascii.eqb c) t = true ->
  rstrip (is_char c) (s +:+ t) = s.
Proof.
  intros Hs He Ht. induction s as [|a s IH]; [congruence|].
  destruct s as [|b s].
  - simpl. rewrite (rstrip_all _ _ Ht). simpl in *.
    unfold is_char. rewrite Ascii.eqb_sym, He. reflexivity.
  - change ((String a (String b s)) +:+ t) with (String a (String b s +:+ t)).
    change (rstrip (is_char c) (String a (String b s +:+ t)))
      with (let r := rstrip (is_char c) (String b s +:+ t) in
            if is_empty r && is_char c a then EmptyString else String a r).
    rewrite IH by (congruence || exact He). reflexivity.
Qed.

Lemma all_chars_app (p : ascii -> bool) (s t : string) :
  all_chars p (s +:+ t) = all_chars p s && all_chars p t.
Proof.
  induction s as [|a s IH]; simpl; [reflexivity|].
  now rewrite IH, andb_assoc.
Qed.

Lemma rstrip_app_all (c : ascii) (s t : string) :
  all_chars (Ascii.eqb c) t = true ->
  rstrip (is_char c) (s +:+ t) = rstrip (is_char c) s.
Proof.
  intros Ht. induction s as [|a s IH]; simpl.
  - now apply rstrip_all.
  - now rewrite IH.
Qed.

Lemma lstrip_app_all (c : ascii) (s t : string) :
  all_chars (Ascii.eqb c) s = true ->
  lstrip (is_char c) (s +:+ t) = lstrip (is_char c) t.
Proof.
  induction s as [|a s IH]; simpl; [reflexivity|].
  intros [Ha Hs]%andb_prop. unfold is_char at 1. rewrite Ha. now apply IH.
Qed.

Lemma lstrip_app (c : ascii) (s t : string) :
  lstrip (is_char c) (s +:+ t) = lstrip (is_char c) s +:+ t
  \/ (all_chars (Ascii.eqb c) s = true /\ lstrip (is_char c) s = "").
Proof.
  induction s as [|a s IH]; simpl; [now right|].
  change (is_char c a) with (Ascii.eqb c a).
  destruct (Ascii.eqb c a); [exact IH | now left].
Qed.

(** Underscores around a string do not change what [strip] leaves of it. *)
Lemma strip_padded (c : ascii) (pre s post : string) :
  all_chars (Ascii.eqb c) pre = true ->
  all_chars (Ascii.eqb c) post = true ->
  strip (is_char c) (pre +:+ s +:+ post) = strip (is_char c) s.
Proof.
  intros Hpre Hpost. unfold strip. rewrite (lstrip_app_all _ _ _ Hpre).
  destruct (lstrip_app c s post) as [-> | [Hall E]].
  - now apply rstrip_app_all.
  - rewrite (lstrip_app_all _ _ _ Hall), E.
    assert (lstrip (is_char c) post = "") as ->; [|reflexivity].
    clear -Hpost. induction post as [|x t IH]; simpl; [reflexivity|].
    simpl in Hpost. apply andb_prop in Hpost as [Hx Ht].
    unfold is_char at 1. rewrite Hx. now apply IH.
Qed.

Lemma strip_fixed (c : ascii) (s : string) :
  starts_with c s = false -> ends_with c s = false ->
  strip (is_char c) s = s.
Proof.
  intros Hs He. unfold strip. rewrite (lstrip_fixed _ _ Hs).
  destruct s as [|a s]; [reflexivity|]. now apply rstrip_fixed.
Qed.

(** *** The composed description *)

(** The joined string is what the specification's wording gives, between
    separators that empty components left at its ends. *)
Lemma joined_is_padded_spec (a b c : string) :
  exists pre post : string,
    all_chars (Ascii.eqb "_") pre = true
    /\ all_chars (Ascii.eqb "_") post = true
    /\ a +:+ "_" +:+ b +:+ "_" +:+ c
       = pre +:+ description_by_spec a b c +:+ post.
Proof.
  unfold description_by_spec.
  destruct a as [|a0 a], b as [|b0 b], c as [|c0 c]; simpl is_empty; cbv iota.
  - exists "", "__". now repeat split.
  - exists "__", "". repeat split. simpl. now rewrite append_empty_r.
  - exists "_", "_". now repeat split.
  - exists "_", "". repeat split. simpl. now rewrite !append_assoc, append_empty_r.
  - exists "", "__". now repeat split.
  - exists "", "". repeat split. simpl. now rewrite !append_assoc, append_empty_r.
  - exists "", "_". repeat split. simpl. now rewrite !append_assoc.
  - exists "", "". repeat split. simpl. now rewrite !append_assoc, append_empty_r.
Qed.

Lemma compose_description_strips_spec (a b c : string) :
  compose_description a b c = strip (is_char "_") (description_by_spec a b c).
Proof.
  unfold compose_description.
  destruct (joined_is_padded_spec a b c) as (pre & post & Hpre & Hpost & ->).
  now apply strip_padded.
Qed.

Lemma clean_empty : clean "".
Proof. now split. Qed.

Lemma clean_join (s t : string) :
  s <> "" -> t <> "" -> clean s -> clean t -> clean (s +:+ "_" +:+ t).
Proof.
  intros Hs Ht [Hs1 _] [_ Ht2]. split.
  - now rewrite starts_with_app.
  - rewrite <- append_assoc, ends_with_app; assumption.
Qed.

Lemma clean_join_empty (s t : string) :
  s <> "" -> t <> "" -> clean s -> clean t -> clean (s +:+ "_" +:+ "" +:+ "_" +:+ t).
Proof.
  intros Hs Ht [Hs1 _] [_ Ht2]. split.
  - now rewrite starts_with_app.
  - change (s +:+ "_" +:+ "" +:+ "_" +:+ t) with (s +:+ "__" +:+ t).
    rewrite <- append_assoc, ends_with_app; assumption.
Qed.

Lemma description_by_spec_clean (a b c : string) :
  clean a -> clean b -> clean c -> clean (description_by_spec a b c).
Proof.
  intros Ha Hb Hc. unfold description_by_spec.
  destruct (is_empty a) eqn:Ea, (is_empty b) eqn:Eb, (is_empty c) eqn:Ec;
    try assumption; try apply clean_empty;
    repeat match goal with
           | H : is_empty _ = false |- _ => apply is_empty_false in H
           | H : is_empty _ = true |- _ => apply is_empty_true in H; subst
           end.
  - now apply clean_join.
  - now apply clean_join_empty.
  - now apply clean_join.
  - apply clean_join; try assumption.
    + now apply app_not_empty_r.
    + now apply clean_join.
Qed.

Lemma process_entry_ok (srv : server) (s s' : session) (cf : string)
    (te : json) (r : row) :
  process_entry srv s cf te = (Ok r, s') ->
  exists kvs spent hours comment links a act,
    te = JObj kvs
    /\ entry_fields te = Ok (spent, hours, comment, links, a, act)
    /\ entry_location srv s cf kvs links = (Ok (Location r), s')
    /\ Date r = spent
    /\ working_hours r = hours
    /\ Description r = compose_description a (format_value act) comment.
Proof.
  unfold process_entry. destruct te as [| | | | | |kvs]; try discriminate.
  destruct (entry_fields (JObj kvs))
    as [[[[[[spent hours] comment] links] a] act]|e] eqn:Hf; [|discriminate].
  destruct (entry_location srv s cf kvs links) as [[loc|e] s1] eqn:Hl; simpl;
    [|discriminate].
  intros [= <- <-]. exists kvs, spent, hours, comment, links, a, act.
  now repeat split.
Qed.

(** C10: the composed description never begins and never ends with the
    separator ['_']: [strip] removes every underscore at either end of the
    joined string, whether an empty component left it there or it belongs to
    the text of a component, such as a comment that begins or ends with
    underscores. This holds for the description of every row the program
    produces. *)
Theorem description_has_no_outer_separator :
  (forall a b c : string,
     starts_with "_" (compose_description a b c) = false
     /\ ends_with "_" (compose_description a b c) = false)
  /\ (forall a b c : string,
        compose_description ("_" +:+ a) b c = compose_description a b c
        /\ compose_description a b (c +:+ "_") = compose_description a b c)
  /\ (forall (srv : server) (s s' : session) (cf : string) (te : json) (r : row),
        process_entry srv s cf te = (Ok r, s') ->
        starts_with "_" (Description r) = false
        /\ ends_with "_" (Description r) = false).
Proof.
  split; [|split].
  - intros a b c. apply strip_clean.
  - intros a b c. unfold compose_description. split.
    + replace (("_" +:+ a) +:+ "_" +:+ b +:+ "_" +:+ c)
        with ("_" +:+ (a +:+ "_" +:+ b +:+ "_" +:+ c) +:+ "")
        by (simpl; now rewrite append_empty_r).
      now rewrite strip_padded.
    + replace (a +:+ "_" +:+ b +:+ "_" +:+ c +:+ "_")
        with ("" +:+ (a +:+ "_" +:+ b +:+ "_" +:+ c) +:+ "_")
        by (repeat (progress (simpl; rewrite ?append_assoc)); reflexivity).
      now rewrite strip_padded.
  - intros srv s s' cf te r H.
    destruct (process_entry_ok _ _ _ _ _ _ H)
      as (kvs & spent & hours & comment & links & a & act & _ & _ & _ & _ & _ & ->).
    apply strip_clean.
Qed.

(** C3, as amended: the composed description is assignment_id, activity_name
    and the whitespace-collapsed comment joined with ['_'] and stripped of
    every underscore at either end. That removes the separators that empty
    leading or trailing components leave, and with them any underscore with
    which the text of a component begins or ends the joined string; when no
    component begins or ends with an underscore, exactly the separators of
    empty leading or trailing components go. An empty middle component
    leaves two adjacent separators. The entry of the end-to-end scenario
    gives "7_Development_Fixed bug". *)
Theorem description_composed :
  (forall a b c : string,
     compose_description a b c
     = strip (is_char "_") (a +:+ "_" +:+ b +:+ "_" +:+ c)
     /\ compose_description a b c
        = strip (is_char "_") (description_by_spec a b c))
  /\ (forall a b c : string,
        clean a -> clean b -> clean c ->
        compose_description a b c = description_by_spec a b c)
  /\ (forall a c : string,
        a <> "" -> c <> "" -> clean a -> clean c ->
        compose_description a "" c = a +:+ "__" +:+ c)
  /\ (forall (srv : server) (s s' : session) (cf : string) (te : json) (r : row),
        process_entry srv s cf te = (Ok r, s') ->
        exists (spent : json) (hours : spec_float) (comment : string)
               (links : json) (assignment_id : string) (activity_name : json),
          entry_fields te
          = Ok (spent, hours, comment, links, assignment_id, activity_name)
          /\ Description r
             = compose_description assignment_id (format_value activity_name)
                 comment)
  /\ (urlparse_path "/api/v3/work_packages/7" = Ok "/api/v3/work_packages/7" ->
      forall (srv : server) (s : session),
        process_entry srv s "" scenario_entry = (Ok scenario_row, s)).
Proof.
  split; [|split; [|split; [|split]]].
  - intros a b c. split; [reflexivity | apply compose_description_strips_spec].
  - intros a b c Ha Hb Hc. rewrite compose_description_strips_spec.
    destruct (description_by_spec_clean a b c Ha Hb Hc) as [H1 H2].
    now apply strip_fixed.
  - intros a c Ha Hc Ca Cc. rewrite compose_description_strips_spec.
    destruct (description_by_spec_clean a "" c Ca clean_empty Cc) as [H1 H2].
    rewrite strip_fixed by assumption.
    unfold description_by_spec. destruct a, c; try congruence. reflexivity.
  - intros srv s s' cf te r H.
    destruct (process_entry_ok _ _ _ _ _ _ H)
      as (kvs & spent & hours & comment & links & a & act & _ & Hf & _ & _ & _ & Hd).
    now exists spent, hours, comment, links, a, act.
  - intros Hurl srv s. vm_compute. rewrite Hurl.
    vm_compute. reflexivity.
Qed.

(** *** Splitting and the trailing path segment *)

Lemma split_on_not_nil (c : ascii) (s : string) : split_on c s <> [].
Proof.
  destruct s as [|a s]; simpl; [discriminate|].
  destruct (Ascii.eqb a c); [discriminate|].
  destruct (split_on c s); discriminate.
Qed.

(** Joining the parts with the separator gives the string back. *)
Lemma join_split_on (c : ascii) (s : string) :
  join (String c "") (split_on c s) = s.
Proof.
  induction s as [|a s IH]; [reflexivity|].
  simpl split_on. pose proof (split_on_not_nil c s) as Hne.
  destruct (Ascii.eqb a c) eqn:E.
  - apply Ascii.eqb_eq in E. subst a.
    destruct (split_on c s) as [|h t]; [congruence|].
    change (join (String c "") ("" :: h :: t))
      with ("" +:+ String c "" +:+ join (String c "") (h :: t)).
    now rewrite IH.
  - destruct (split_on c s) as [|h t]; [congruence|].
    destruct t as [|h' t].
    + simpl in *. now rewrite IH.
    + change (join (String c "") (String a h :: h' :: t))
        with (String a (h +:+ String c "" +:+ join (String c "") (h' :: t))).
      f_equal. exact IH.
Qed.

(** No part contains the separator. *)
Lemma split_on_parts (c : ascii) (s : string) :
  Forall (fun part => all_chars (not_char c) part = true) (split_on c s).
Proof.
  induction s as [|a s IH]; simpl.
  - now repeat constructor.
  - destruct (Ascii.eqb a c) eqn:E.
    + constructor; [reflexivity | exact IH].
    + destruct (split_on c s) as [|h t]; inversion IH; subst.
      * repeat constructor. simpl. unfold not_char. now rewrite E.
      * constructor; [|assumption]. simpl. unfold not_char at 1. now rewrite E.
Qed.

Lemma join_ends_with_last (sep : string) (l : list string) :
  l <> [] ->
  join sep l = last_item l
  \/ exists pre : string, join sep l = pre +:+ sep +:+ last_item l.
Proof.
  induction l as [|p l IH]; [congruence|]. intros _.
  destruct l as [|q l]; [now left|]. right.
  change (join sep (p :: q :: l)) with (p +:+ sep +:+ join sep (q :: l)).
  change (last_item (p :: q :: l)) with (last_item (q :: l)).
  destruct IH as [-> | [pre ->]]; [congruence | |].
  - now exists p.
  - exists (p +:+ sep +:+ pre). now rewrite !append_assoc.
Qed.

Lemma last_item_in (l : list string) : l <> [] -> In (last_item l) l.
Proof.
  induction l as [|p l IH]; [congruence|]. intros _.
  destruct l as [|q l]; [now left|]. right. apply IH. discriminate.
Qed.

(** The last part of a split is free of the separator and ends the string,
    alone or right after a separator. *)
Lemma last_segment_spec (c : ascii) (s : string) :
  let seg := last_item (split_on c s) in
  all_chars (not_char c) seg = true
  /\ (s = seg \/ exists pre : string, s = pre +:+ String c "" +:+ seg).
Proof.
  intros seg. split.
  - pose proof (split_on_parts c s) as H. rewrite List.Forall_forall in H.
    apply H, last_item_in, split_on_not_nil.
  - destruct (join_ends_with_last (String c "") _ (split_on_not_nil c s))
      as [H | [pre H]]; rewrite join_split_on in H;
      [left | right; exists pre]; exact H.
Qed.

(** C9: for every href string [parse_entity_id] returns a string and never
    raises. When [urlparse] gives a path, the result is the trailing segment
    of that path without its outer slashes: it holds no slash, and the
    stripped path is that segment or ends with a slash and that segment.
    The result is empty when the path is empty, and when [urlparse] raises.
    "/api/v3/work_packages/42" gives "42" and "" gives "". *)
Theorem parse_entity_id_trailing_segment :
  (forall href : string, exists id : string, parse_entity_id href = id)
  /\ (forall href path : string,
        urlparse_path href = Ok path ->
        all_chars (not_char "/") (parse_entity_id href) = true
        /\ (strip (is_char "/") path = parse_entity_id href
            \/ exists pre : string,
                 strip (is_char "/") path
                 = pre +:+ "/" +:+ parse_entity_id href))
  /\ (forall href : string,
        urlparse_path href = Ok "" -> parse_entity_id href = "")
  /\ (forall (href : string) (e : exn),
        urlparse_path href = Raise e -> parse_entity_id href = "")
  /\ ((forall p : string, plain_path p = true -> urlparse_path p = Ok p) ->
      parse_entity_id "/api/v3/work_packages/42" = "42"
      /\ parse_entity_id "" = "").
Proof.
  split; [|split; [|split; [|split]]].
  - intros href. now exists (parse_entity_id href).
  - intros href path H. unfold parse_entity_id. rewrite H. simpl rbind.
    apply last_segment_spec.
  - intros href H. unfold parse_entity_id. now rewrite H.
  - intros href e H. unfold parse_entity_id. now rewrite H.
  - intros Hplain. unfold parse_entity_id.
    rewrite !Hplain by reflexivity. split; reflexivity.
Qed.

(** *** The option cache *)

Lemma keeps_entries_refl (s : session) : keeps_entries s s.
Proof. now intros k v. Qed.

Lemma keeps_entries_trans (s1 s2 s3 : session) :
  keeps_entries s1 s2 -> keeps_entries s2 s3 -> keeps_entries s1 s3.
Proof. intros H12 H23 k v H. now apply H23, H12. Qed.

Lemma with_cache_same (s : session) (c : gmap string json) :
  custom_opt_cache s = Some c -> with_cache s c = s.
Proof. destruct s as [b o l]. simpl. now intros ->. Qed.

Lemma keeps_entries_with_cache (s : session) :
  keeps_entries s (with_cache s (cache_of s)).
Proof. now intros k v. Qed.

Lemma fetch_json_session (srv : server) (s : session) (url : string) :
  snd (fetch_json srv s url) = with_request s url.
Proof. unfold fetch_json. now destruct (srv url). Qed.

Lemma keeps_entries_fetch (srv : server) (s : session) (url : string) :
  keeps_entries s (snd (fetch_json srv s url)).
Proof. rewrite fetch_json_session. now intros k v. Qed.

Lemma resolve_hit (srv : server) (s : session) (href : string) (v : json) :
  href <> "" -> cache_of s !! href = Some v ->
  resolve_custom_option_value srv s href = (Ok v, s).
Proof.
  intros Hne Hhit. unfold resolve_custom_option_value.
  destruct href as [|a href]; [congruence|]. simpl is_empty. cbv iota.
  unfold cache_of in Hhit. rewrite Hhit.
  destruct (custom_opt_cache s) as [c|] eqn:Hc.
  - simpl. now rewrite with_cache_same.
  - simpl in Hhit. now rewrite lookup_empty in Hhit.
Qed.

Lemma resolve_keeps_entries (srv : server) (s : session) (href : string) :
  keeps_entries s (snd (resolve_custom_option_value srv s href)).
Proof.
  unfold resolve_custom_option_value.
  destruct (is_empty href); [apply keeps_entries_refl|].
  fold (cache_of s).
  destruct (cache_of s !! href) as [w|] eqn:Hh;
    [apply keeps_entries_with_cache|].
  destruct (urljoin _ href) as [url|e]; [|apply keeps_entries_with_cache].
  pose proof (fetch_json_session srv (with_cache s (cache_of s)) url) as Hs2.
  destruct (fetch_json srv (with_cache s (cache_of s)) url) as [r s2].
  simpl in Hs2. subst s2.
  destruct (data <- r ;; py_get data "value" (JStr "")) as [val|e]; simpl.
  - intros k v Hk. unfold cache_of. simpl.
    rewrite lookup_insert_ne; [exact Hk|]. intros ->. congruence.
  - now intros k v.
Qed.

Lemma resolve_obj_keeps_entries (srv : server) (s : session) (v : json) :
  keeps_entries s (snd (resolve_custom_option_value_obj srv s v)).
Proof.
  destruct v; simpl; try apply keeps_entries_with_cache.
  apply resolve_keeps_entries.
Qed.

Lemma resolve_all_keeps_entries (calls : list (server * string)) (s : session) :
  keeps_entries s (resolve_all calls s).
Proof.
  revert s. induction calls as [|[srv h] calls IH]; intros s.
  - apply keeps_entries_refl.
  - simpl. eapply keeps_entries_trans; [|apply IH].
    apply resolve_keeps_entries.
Qed.

Lemma gen_step_keeps_entries (srv : server) (g : generator) (s : session) :
  keeps_entries s (snd (gen_step srv g s)).
Proof.
  destruct g as [[url|]|[|el rest] data|]; simpl; try apply keeps_entries_refl.
  - destruct (is_empty url); [apply keeps_entries_refl|].
    pose proof (keeps_entries_fetch srv s url) as H.
    destruct (fetch_json srv s url) as [r s1]. simpl in H.
    destruct (data <- r ;; els <- page_elements data ;; Ok (els, data))
      as [[els data]|e]; exact H.
  - destruct (next_url (base_url s) data); apply keeps_entries_refl.
Qed.

Lemma entry_location_keeps_entries (srv : server) (s : session) (cf : string)
    (te : list (string * json)) (links : json) :
  keeps_entries s (snd (entry_location srv s cf te links)).
Proof.
  unfold entry_location.
  destruct (is_empty _); [apply keeps_entries_refl|].
  destruct (py_has_key _ _); [apply keeps_entries_refl|].
  destruct (l <- link_of links _ ;; py_get l "href" (JStr "")) as [cf_link|e];
    [|apply keeps_entries_refl].
  destruct (py_truthy cf_link); [|apply keeps_entries_refl].
  pose proof (resolve_obj_keeps_entries srv s cf_link) as H.
  now destruct (resolve_custom_option_value_obj srv s cf_link).
Qed.

Lemma process_entry_keeps_entries (srv : server) (s : session) (cf : string)
    (te : json) :
  keeps_entries s (snd (process_entry srv s cf te)).
Proof.
  unfold process_entry. destruct te; try apply keeps_entries_refl.
  destruct (entry_fields _) as [[[[[[spent hours] comment] links] a] act]|e];
    [|apply keeps_entries_refl].
  pose proof (entry_location_keeps_entries srv s cf kvs links) as H.
  now destruct (entry_location srv s cf kvs links).
Qed.

Lemma main_loop_keeps_entries (fuel : nat) (srv : server) (cf : string)
    (g : generator) (s : session) (rows : list row) :
  keeps_entries s (snd (main_loop fuel srv cf g s rows)).
Proof.
  revert g s rows. induction fuel as [|fuel IH]; intros g s rows.
  - apply keeps_entries_refl.
  - simpl. pose proof (gen_step_keeps_entries srv g s) as Hstep.
    destruct (gen_step srv g s) as [[ev g1] s1]. simpl in Hstep.
    destruct ev as [|te| |e]; try exact Hstep.
    + eapply keeps_entries_trans; [exact Hstep | apply IH].
    + pose proof (process_entry_keeps_entries srv s1 cf te) as Hp.
      destruct (process_entry srv s1 cf te) as [[r|e] s2]; simpl in Hp.
      * eapply keeps_entries_trans; [exact Hstep|].
        eapply keeps_entries_trans; [exact Hp | apply IH].
      * eapply keeps_entries_trans; [exact Hstep | exact Hp].
Qed.

(** C2: option resolution. For a non-empty href that is not in the cache,
    a call whose fetch succeeds sends exactly one request, stores the value
    fetched under the href, and returns it. A call with a non-empty href that
    is in the cache sends no request, returns the cached value and leaves the
    session as it is; so does every later call with the href of a first
    successful call, whatever calls lie between and whatever the server does
    by then. No call, and no step of the run, changes or removes an entry of
    the cache. For the empty href the resolver returns the empty string with
    no request and no change to the session. *)
Theorem option_resolution_cached :
  (forall (srv : server) (s : session) (href url : string) (r : response)
          (data : list (string * json)),
     href <> "" ->
     cache_of s !! href = None ->
     urljoin (base_url s) href = Ok url ->
     srv url = Some r ->
     raise_for_status r = Ok tt ->
     body r = Some (JObj data) ->
     let val := default (JStr "") (assoc "value" data) in
     resolve_custom_option_value srv s href
     = (Ok val,
        {| base_url := base_url s;
           custom_opt_cache := Some (<[href := val]> (cache_of s));
           requests_sent := requests_sent s ++ [url] |})
     /\ forall (calls : list (server * string)) (srv' : server),
          let s' := resolve_all calls (snd (resolve_custom_option_value srv s href)) in
          resolve_custom_option_value srv' s' href = (Ok val, s'))
  /\ (forall (srv : server) (s : session) (href : string) (v : json),
        href <> "" ->
        cache_of s !! href = Some v ->
        resolve_custom_option_value srv s href = (Ok v, s))
  /\ (forall (srv : server) (s : session) (href : string),
        keeps_entries s (snd (resolve_custom_option_value srv s href)))
  /\ (forall (fuel : nat) (srv : server) (cf : string) (g : generator)
             (s : session) (rows : list row),
        keeps_entries s (snd (main_loop fuel srv cf g s rows)))
  /\ (forall (srv : server) (s : session),
        resolve_custom_option_value srv s "" = (Ok (JStr ""), s)).
Proof.
  split; [|split; [|split; [|split]]].
  - intros srv s href url r data Hne Hmiss Hjoin Hsrv Hstatus Hbody val.
    assert (Hfirst : resolve_custom_option_value srv s href
                     = (Ok val,
                        {| base_url := base_url s;
                           custom_opt_cache := Some (<[href := val]> (cache_of s));
                           requests_sent := requests_sent s ++ [url] |})).
    { unfold resolve_custom_option_value.
      destruct href as [|a href]; [congruence|]. simpl is_empty. cbv iota.
      fold (cache_of s). rewrite Hmiss. simpl base_url. rewrite Hjoin.
      unfold fetch_json. rewrite Hsrv, Hstatus. unfold response_json.
      rewrite Hbody. reflexivity. }
    split; [exact Hfirst|].
    intros calls srv' s'. apply resolve_hit; [exact Hne|].
    apply (resolve_all_keeps_entries calls). rewrite Hfirst.
    unfold cache_of. simpl. apply lookup_insert_eq.
  - intros srv s href v. apply resolve_hit.
  - intros srv s href. apply resolve_keeps_entries.
  - intros. apply main_loop_keeps_entries.
  - reflexivity.
Qed.

(** *** The paginated collection *)

Lemma holds_elements_page (data : json) (els : list json) :
  holds_elements data els -> page_elements data = Ok els.
Proof.
  intros [kvs emb els' Hemb Hels]. unfold page_elements. simpl.
  rewrite Hemb. simpl. now rewrite Hels.
Qed.

Lemma py_get_or_empty (kvs : list (string * json)) (k : string) (d : json) :
  py_get (py_or (JObj kvs) (JObj [])) k d = Ok (default d (assoc k kvs)).
Proof. now destruct kvs. Qed.

Lemma next_link_absent (base : string) (data : json) :
  next_link_is data None -> next_url base data = Ok None.
Proof.
  intros H. inversion H as [kvs Hl | kvs links Hl Hnb | kvs links nb Hl Hnb Hh |];
    subst; unfold next_url; cbn [py_get]; rewrite Hl; cbn [default from_option id rbind py_get].
  - reflexivity.
  - now destruct Hnb as [-> | ->].
  - rewrite Hnb. cbn [default from_option id rbind]. rewrite py_get_or_empty.
    now destruct Hh as [-> | ->].
Qed.

Lemma next_link_followed (base : string) (data : json) (href : string) :
  next_link_is data (Some href) ->
  next_url base data = (url <- urljoin base href ;; Ok (Some url)).
Proof.
  intros H. inversion H as [| | |kvs links nb href' Hl Hnb Hh Hne]; subst.
  unfold next_url. cbn [py_get]. rewrite Hl. cbn [default from_option id rbind py_get].
  rewrite Hnb. cbn [default from_option id rbind]. rewrite py_get_or_empty, Hh.
  cbn [default from_option id rbind]. now destruct href.
Qed.

Lemma gen_step_serves_page (srv : server) (s : session) (url : string)
    (els : list json) (next : option string) :
  serves_page srv url els next ->
  exists data : json,
    next_link_is data next
    /\ gen_step srv (AtLoop (Some url)) s
       = (Tau, InPage els data, with_request s url).
Proof.
  intros [r data els' next' Hne Hsrv Hstatus Hbody Hels Hnext].
  exists data. split; [exact Hnext|]. simpl.
  destruct url as [|a url]; [congruence|]. simpl is_empty. cbv iota.
  unfold fetch_json. rewrite Hsrv, Hstatus. unfold response_json.
  rewrite Hbody. simpl. now rewrite (holds_elements_page _ _ Hels).
Qed.

Lemma collect_S (fuel : nat) (srv : server) (g : generator) (s : session) :
  collect (S fuel) srv g s
  = match gen_step srv g s with
    | (Tau, g', s') => collect fuel srv g' s'
    | (Yield el, g', s') =>
        let '(els, fin, s'') := collect fuel srv g' s' in (el :: els, fin, s'')
    | (Return, _, s') => ([], Completed, s')
    | (Raised e, _, s') => ([], Aborted e, s')
    end.
Proof. reflexivity. Qed.

(** Inside a page the pending elements are yielded one by one, in order. *)
Lemma collect_pending (srv : server) (n : nat) (els : list json) (data : json)
    (s : session) :
  collect (length els + n) srv (InPage els data) s
  = let '(ys, fin, s') := collect n srv (InPage [] data) s in
    (els ++ ys, fin, s').
Proof.
  induction els as [|el els IH]; simpl.
  - now destruct (collect n srv (InPage [] data) s) as [[ys fin] s'].
  - rewrite IH. now destruct (collect n srv (InPage [] data) s) as [[ys fin] s'].
Qed.

Lemma after_requests_cons (s : session) (url : string) (urls : list string) :
  after_requests (with_request s url) urls = after_requests s (url :: urls).
Proof. unfold after_requests, with_request. simpl. now rewrite <- app_assoc. Qed.

Lemma collect_serves (srv : server) (base url : string)
    (pages : list (list json)) :
  serves srv base url pages ->
  forall (s : session) (fuel : nat),
    base_url s = base ->
    (length (concat pages) + 2 * length pages < fuel)%nat ->
    exists urls : list string,
      length urls = length pages
      /\ collect fuel srv (get_collection url) s
         = (concat pages, Completed, after_requests s urls).
Proof.
  unfold get_collection.
  induction 1 as [url els Hpage | url href url' els rest Hpage Hjoin Hrest IH];
    intros s fuel Hbase Hfuel.
  - destruct (gen_step_serves_page srv s url els None Hpage) as (data & Hnext & Hstep).
    exists [url]. split; [reflexivity|].
    simpl in Hfuel. rewrite app_nil_r in *.
    destruct fuel as [|fuel]; [lia|]. rewrite collect_S, Hstep.
    replace fuel with (length els + (fuel - length els))%nat by lia.
    rewrite collect_pending.
    destruct (fuel - length els)%nat as [|n] eqn:En; [lia|].
    rewrite collect_S. cbn [gen_step]. rewrite (next_link_absent _ _ Hnext).
    destruct n as [|n]; [lia|]. simpl. now rewrite app_nil_r.
  - destruct (gen_step_serves_page srv s url els (Some href) Hpage)
      as (data & Hnext & Hstep).
    simpl in Hfuel. rewrite length_app in Hfuel.
    destruct fuel as [|fuel]; [lia|]. rewrite collect_S, Hstep.
    replace fuel with (length els + (fuel - length els))%nat by lia.
    rewrite collect_pending.
    destruct (fuel - length els)%nat as [|n] eqn:En; [lia|].
    rewrite collect_S. cbn [gen_step].
    rewrite (next_link_followed _ _ _ Hnext).
    cbn [base_url with_request]. rewrite Hbase, Hjoin. cbn [rbind].
    destruct (IH (with_request s url) n) as (urls & Hlen & ->);
      [exact Hbase | lia |].
    exists (url :: urls). split; [simpl; now rewrite Hlen|].
    now rewrite after_requests_cons.
Qed.

(** C1: for every finite paginated collection, with fuel for all its steps,
    the generator yields exactly the concatenation of the element lists of
    the pages, in page order and within a page in the order of its list,
    and returns after the page without a next-page link: one request per
    page, none after the last. A collection of three pages with 2, 2 and 1
    elements yields exactly these 5 elements in that order. *)
Theorem get_collection_yields_pages_in_order :
  (forall (srv : server) (s : session) (url : string)
          (pages : list (list json)) (fuel : nat),
     serves srv (base_url s) url pages ->
     (length (concat pages) + 2 * length pages < fuel)%nat ->
     exists urls : list string,
       length urls = length pages
       /\ collect fuel srv (get_collection url) s
          = (concat pages, Completed, after_requests s urls))
  /\ (forall (srv : server) (s : session) (url : string)
             (e1 e2 e3 e4 e5 : json),
        serves srv (base_url s) url [[e1; e2]; [e3; e4]; [e5]] ->
        exists s' : session,
          collect 12 srv (get_collection url) s
          = ([e1; e2; e3; e4; e5], Completed, s')
          /\ length (requests_sent s') = (length (requests_sent s) + 3)%nat).
Proof.
  split.
  - intros srv s url pages fuel Hserves Hfuel.
    now apply (collect_serves srv (base_url s) url pages).
  - intros srv s url e1 e2 e3 e4 e5 Hserves.
    destruct (collect_serves srv _ url _ Hserves s 12 eq_refl) as (urls & Hlen & H);
      [simpl; lia|].
    exists (after_requests s urls). split; [exact H|].
    simpl. rewrite length_app, Hlen. reflexivity.
Qed.

Lemma not_a_page_raises (data : json) (e : exn) :
  not_a_page data e -> page_elements data = Raise e.
Proof.
  intros [d Hd | kvs emb Hemb Hobj | kvs emb els Hemb Hels Hit];
    unfold page_elements.
  - now destruct d.
  - cbn [py_get]. rewrite Hemb. cbn [default from_option id rbind].
    now destruct emb.
  - cbn [py_get]. rewrite Hemb. cbn [default from_option id rbind py_get].
    rewrite Hels. cbn [default from_option id rbind].
    now destruct els.
Qed.

Lemma not_a_page_fetch_error (data : json) (e : exn) :
  not_a_page data e -> FetchError e.
Proof.
  intros []; unfold FetchError; simpl;
    repeat (first [left; reflexivity | right]).
Qed.

Lemma request_fails_fetch_error (srv : server) (url : string) (e : exn) :
  request_fails srv url e -> FetchError e.
Proof.
  intros [| | |r data e' _ _ _ H];
    try solve [unfold FetchError; simpl;
               repeat (first [left; reflexivity | right])].
  now apply (not_a_page_fetch_error data).
Qed.

Lemma gen_step_request_fails (srv : server) (s : session) (url : string)
    (e : exn) :
  url <> "" ->
  request_fails srv url e ->
  gen_step srv (AtLoop (Some url)) s = (Raised e, Finished, with_request s url).
Proof.
  intros Hne Hfail. cbn [gen_step].
  destruct url as [|a url]; [congruence|]. cbn [is_empty].
  unfold fetch_json.
  destruct Hfail as [Hsrv | r Hsrv Hst | r Hsrv Hst Hbody | r data e' Hsrv Hst Hbody Hpage];
    rewrite Hsrv.
  - reflexivity.
  - unfold raise_for_status.
    assert ((400 <=? status_code r) && (status_code r <? 600) = true) as ->
      by lia.
    reflexivity.
  - rewrite Hst. unfold response_json. now rewrite Hbody.
  - rewrite Hst. unfold response_json. rewrite Hbody. cbn [rbind].
    now rewrite (not_a_page_raises _ _ Hpage).
Qed.

Lemma collect_fails_after (srv : server) (base url : string)
    (pages : list (list json)) (e : exn) :
  fails_after srv base url pages e ->
  forall (s : session) (fuel : nat),
    base_url s = base ->
    (length (concat pages) + 2 * length pages < fuel)%nat ->
    exists urls : list string,
      length urls = S (length pages)
      /\ collect fuel srv (get_collection url) s
         = (concat pages, Aborted e, after_requests s urls).
Proof.
  unfold get_collection.
  induction 1 as [url e Hne Hfail | url href url' els rest e Hpage Hjoin Hrest IH];
    intros s fuel Hbase Hfuel.
  - exists [url]. split; [reflexivity|].
    destruct fuel as [|fuel]; [simpl in Hfuel; lia|].
    now rewrite collect_S, (gen_step_request_fails _ _ _ _ Hne Hfail).
  - destruct (gen_step_serves_page srv s url els (Some href) Hpage)
      as (data & Hnext & Hstep).
    simpl in Hfuel. rewrite length_app in Hfuel.
    destruct fuel as [|fuel]; [lia|]. rewrite collect_S, Hstep.
    replace fuel with (length els + (fuel - length els))%nat by lia.
    rewrite collect_pending.
    destruct (fuel - length els)%nat as [|n] eqn:En; [lia|].
    rewrite collect_S. cbn [gen_step].
    rewrite (next_link_followed _ _ _ Hnext).
    cbn [base_url with_request]. rewrite Hbase, Hjoin. cbn [rbind].
    destruct (IH (with_request s url) n) as (urls & Hlen & ->);
      [exact Hbase | lia |].
    exists (url :: urls). split; [simpl; now rewrite Hlen|].
    now rewrite after_requests_cons.
Qed.

(** The payloads on which reading the elements raises are exactly those of
    [not_a_page]. *)
Lemma page_elements_raises (data : json) (e : exn) :
  page_elements data = Raise e -> not_a_page data e.
Proof.
  unfold page_elements.
  destruct data as [| | | | | |kvs];
    try (intros [= <-]; now apply not_a_page_top).
  cbn [py_get].
  destruct (assoc "_embedded" kvs) as [emb|] eqn:Hemb;
    cbn [default from_option id rbind]; [|discriminate].
  destruct emb as [| | | | | |ekvs];
    try (intros [= <-]; now apply (not_a_page_embedded kvs _ Hemb)).
  cbn [py_get].
  destruct (assoc "elements" ekvs) as [els|] eqn:Hels;
    cbn [default from_option id rbind]; [|discriminate].
  destruct els; try discriminate;
    (intros [= <-]; now apply (not_a_page_elements kvs ekvs _ Hemb Hels)).
Qed.

(** The payloads that are malformed and read all the same, and what the loop
    over the elements visits in each. *)
Lemma page_elements_tolerant :
  (forall kvs : list (string * json),
     assoc "_embedded" kvs = None -> page_elements (JObj kvs) = Ok [])
  /\ (forall kvs emb : list (string * json),
        assoc "_embedded" kvs = Some (JObj emb) ->
        assoc "elements" emb = None ->
        page_elements (JObj kvs) = Ok [])
  /\ (forall (kvs emb : list (string * json)) (text : string),
        assoc "_embedded" kvs = Some (JObj emb) ->
        assoc "elements" emb = Some (JStr text) ->
        page_elements (JObj kvs) = Ok (chars_of text))
  /\ (forall kvs emb fields : list (string * json),
        assoc "_embedded" kvs = Some (JObj emb) ->
        assoc "elements" emb = Some (JObj fields) ->
        page_elements (JObj kvs) = Ok (map (fun kv => JStr (fst kv)) fields)).
Proof.
  unfold page_elements. cbn [py_get]. repeat split.
  - now intros kvs ->.
  - intros kvs emb -> H. cbn [default from_option id rbind py_get].
    now rewrite H.
  - intros kvs emb text -> H. cbn [default from_option id rbind py_get].
    now rewrite H.
  - intros kvs emb fields -> H. cbn [default from_option id rbind py_get].
    now rewrite H.
Qed.

Lemma gen_step_page (srv : server) (s : session) (url : string)
    (r : response) (data : json) (els : list json) :
  url <> "" ->
  srv url = Some r ->
  raise_for_status r = Ok tt ->
  body r = Some data ->
  page_elements data = Ok els ->
  gen_step srv (AtLoop (Some url)) s = (Tau, InPage els data, with_request s url).
Proof.
  intros Hne Hsrv Hstatus Hbody Hels. simpl.
  destruct url as [|a url]; [congruence|]. simpl is_empty. cbv iota.
  unfold fetch_json. rewrite Hsrv, Hstatus. unfold response_json.
  rewrite Hbody. simpl. now rewrite Hels.
Qed.

(** C6, as amended: when the request for some page of a collection fails,
    through no response, an error status, a body that is not JSON, or a
    payload that the code cannot read (a body that is not an object, an
    [_embedded] that is not an object, [elements] that cannot be iterated),
    the generator yields all elements of the pages before it, in order, and
    only then raises the exception of the failure, one of those the
    specification calls [FetchError]. What was yielded stays yielded. Each
    page before the failure was requested once and the failing page once:
    there is no retry, and the generator is finished. The payloads named are
    exactly those on which reading the elements raises. A payload that only
    lacks [_embedded] or [elements], or whose [elements] is a string or an
    object, is no failure: a missing field counts as an empty list, a string
    gives its characters and an object its keys, and the generator goes on
    to yield them without raising. *)
Theorem get_collection_fails_after_earlier_pages :
  (forall (srv : server) (s : session) (url : string)
          (pages : list (list json)) (e : exn) (fuel : nat),
     fails_after srv (base_url s) url pages e ->
     (length (concat pages) + 2 * length pages < fuel)%nat ->
     FetchError e
     /\ exists urls : list string,
          length urls = S (length pages)
          /\ collect fuel srv (get_collection url) s
             = (concat pages, Aborted e, after_requests s urls))
  /\ (forall (srv : server) (s : session) (url : string) (e : exn),
        url <> "" ->
        request_fails srv url e ->
        gen_step srv (get_collection url) s
        = (Raised e, Finished, with_request s url)
        /\ forall (srv' : server) (s' : session),
             gen_step srv' Finished s' = (Return, Finished, s'))
  /\ (forall (data : json) (e : exn),
        page_elements data = Raise e <-> not_a_page data e)
  /\ (forall (srv : server) (s : session) (url : string) (r : response)
             (kvs : list (string * json)),
        url <> "" ->
        srv url = Some r ->
        raise_for_status r = Ok tt ->
        body r = Some (JObj kvs) ->
        malformed_by_spec (JObj kvs) ->
        (forall e : exn, ~ not_a_page (JObj kvs) e) ->
        exists els : list json,
          gen_step srv (get_collection url) s
          = (Tau, InPage els (JObj kvs), with_request s url)
          /\ (els = []
              \/ exists (emb : list (string * json)) (v : json),
                   assoc "_embedded" kvs = Some (JObj emb)
                   /\ assoc "elements" emb = Some v
                   /\ ((exists text : string,
                          v = JStr text /\ els = chars_of text)
                       \/ exists fields : list (string * json),
                            v = JObj fields
                            /\ els = map (fun kv => JStr (fst kv)) fields))).
Proof.
  split; [|split; [|split]].
  - intros srv s url pages e fuel Hfails Hfuel. split.
    + clear Hfuel. induction Hfails as [url e _ Hfail | ]; [|assumption].
      now apply (request_fails_fetch_error srv url).
    + now apply (collect_fails_after srv (base_url s) url pages e).
  - intros srv s url e Hne Hfail. split; [|reflexivity].
    now apply gen_step_request_fails.
  - intros data e. split; [apply page_elements_raises | apply not_a_page_raises].
  - intros srv s url r kvs Hne Hsrv Hstatus Hbody Hmal Hread.
    destruct page_elements_tolerant as (Hnone & Hempty & Htext & Hfields).
    unfold malformed_by_spec, well_formed_page in Hmal.
    assert (Hgo : forall els : list json,
               page_elements (JObj kvs) = Ok els ->
               gen_step srv (get_collection url) s
               = (Tau, InPage els (JObj kvs), with_request s url))
      by (intros els; now apply (gen_step_page srv s url r)).
    destruct (assoc "_embedded" kvs) as [emb|] eqn:Hemb.
    + destruct emb as [| | | | | |ekvs];
        try (exfalso; apply (Hread AttributeError);
             now apply (not_a_page_embedded kvs _ Hemb)).
      destruct (assoc "elements" ekvs) as [v|] eqn:Hels.
      * destruct v as [| | | |text|l|fields];
          try (exfalso; apply (Hread TypeError);
               now apply (not_a_page_elements kvs ekvs _ Hemb Hels));
          try discriminate.
        -- exists (chars_of text). split; [now apply Hgo, (Htext kvs ekvs)|].
           right. exists ekvs, (JStr text).
           repeat split; try assumption. left. now exists text.
        -- exists (map (fun kv => JStr (fst kv)) fields).
           split; [now apply Hgo, (Hfields kvs ekvs)|].
           right. exists ekvs, (JObj fields).
           repeat split; try assumption. right. now exists fields.
      * exists []. split; [now apply Hgo, (Hempty kvs ekvs) | now left].
    + exists []. split; [now apply Hgo, Hnone | now left].
Qed.

(** *** The location of an entry *)

Lemma py_has_key_assoc (te : list (string * json)) (k : string) :
  py_has_key te k = match assoc k te with Some _ => true | None => false end.
Proof. reflexivity. Qed.

(** C4, as amended: the location of an entry is computed by a three-tier
    fallback, in this order. With no custom-field key configured (the key is
    empty once whitespace is stripped) the location is "remote". Otherwise,
    if the key names a field present on the entry, the location is that
    field's value, or "remote" when the value is false in Python's sense:
    null, false, zero, or an empty string, list or object. Otherwise the key
    is taken as a relation name: a link with a non-empty href is resolved via
    option resolution, and the location is the resolved value, or "remote"
    when that value is false in the same sense; an absent or null link and
    an absent, null or empty href give "remote". The location of the row is
    the location so computed, and with no key configured it is "remote" for
    every entry. *)
Theorem location_three_tier_fallback :
  (forall (srv : server) (s : session) (cf : string)
          (te : list (string * json)) (links : json),
     strip is_space cf = "" ->
     entry_location srv s cf te links = (Ok (JStr "remote"), s))
  /\ (forall (srv : server) (s : session) (cf : string)
             (te : list (string * json)) (links v : json),
        strip is_space cf <> "" ->
        assoc (strip is_space cf) te = Some v ->
        entry_location srv s cf te links = (Ok (or_remote v), s))
  /\ (forall (srv : server) (s : session) (cf href : string)
             (te links link : list (string * json)),
        strip is_space cf <> "" ->
        assoc (strip is_space cf) te = None ->
        assoc (strip is_space cf) links = Some (JObj link) ->
        assoc "href" link = Some (JStr href) ->
        href <> "" ->
        entry_location srv s cf te (JObj links)
        = (v <- fst (resolve_custom_option_value srv s href) ;; Ok (or_remote v),
           snd (resolve_custom_option_value srv s href)))
  /\ (forall (srv : server) (s : session) (cf : string)
             (te links : list (string * json)),
        strip is_space cf <> "" ->
        assoc (strip is_space cf) te = None ->
        (assoc (strip is_space cf) links = None
         \/ assoc (strip is_space cf) links = Some JNull
         \/ exists link : list (string * json),
              assoc (strip is_space cf) links = Some (JObj link)
              /\ (assoc "href" link = None
                  \/ assoc "href" link = Some JNull
                  \/ assoc "href" link = Some (JStr ""))) ->
        entry_location srv s cf te (JObj links) = (Ok (JStr "remote"), s))
  /\ (forall (srv : server) (s s' : session) (cf : string) (te : json) (r : row),
        process_entry srv s cf te = (Ok r, s') ->
        exists (kvs : list (string * json)) (links : json),
          te = JObj kvs
          /\ py_get te "_links" (JObj []) = Ok links
          /\ entry_location srv s cf kvs links = (Ok (Location r), s'))
  /\ (forall (srv : server) (s s' : session) (te : json) (r : row),
        process_entry srv s "" te = (Ok r, s') ->
        Location r = JStr "remote").
Proof.
  split; [|split; [|split; [|split; [|split]]]].
  - intros srv s cf te links Hkey. unfold entry_location. now rewrite Hkey.
  - intros srv s cf te links v Hkey Hv. unfold entry_location.
    destruct (strip is_space cf) as [|a key] eqn:E; [congruence|].
    cbn [is_empty]. rewrite py_has_key_assoc, Hv. reflexivity.
  - intros srv s cf href te links link Hkey Hte Hlink Hhref Hne.
    unfold entry_location.
    destruct (strip is_space cf) as [|a key] eqn:E; [congruence|].
    cbn [is_empty]. rewrite py_has_key_assoc, Hte.
    unfold link_of. cbn [py_get]. rewrite Hlink.
    cbn [default from_option id rbind]. rewrite py_get_or_empty, Hhref.
    cbn [default from_option id].
    destruct href as [|b href]; [congruence|].
    cbn [py_truthy is_empty negb resolve_custom_option_value_obj].
    now destruct (resolve_custom_option_value srv s (String b href)) as [[v|e] s1].
  - intros srv s cf te links Hkey Hte Hlink.
    unfold entry_location.
    destruct (strip is_space cf) as [|a key] eqn:E; [congruence|].
    cbn [is_empty]. rewrite py_has_key_assoc, Hte.
    unfold link_of. cbn [py_get].
    destruct Hlink as [-> | [-> | (link & -> & Hhref)]]; try reflexivity.
    cbn [default from_option id rbind]. rewrite py_get_or_empty.
    now destruct Hhref as [-> | [-> | ->]].
  - intros srv s s' cf te r H.
    destruct (process_entry_ok _ _ _ _ _ _ H)
      as (kvs & spent & hours & comment & links & a & act & -> & Hf & Hl & _).
    exists kvs, links. repeat split; [|exact Hl].
    unfold entry_fields in Hf.
    repeat match type of Hf with
           | rbind ?x _ = _ => destruct x eqn:?; cbn [rbind] in Hf; [|discriminate]
           end.
    congruence.
  - intros srv s s' te r H.
    destruct (process_entry_ok _ _ _ _ _ _ H)
      as (kvs & spent & hours & comment & links & a & act & -> & _ & Hl & _).
    unfold entry_location in Hl. simpl in Hl. now injection Hl as <- _.
Qed.

(** *** Decimal numbers and [int] *)

Lemma read_digits_all (s : string) (acc : Z) (n : nat) (b : bool) :
  all_chars is_digit s = true ->
  s <> "" \/ b = true ->
  read_digits acc n b s = Some (digits_number acc s, (n + String.length s)%nat).
Proof.
  revert acc n b. induction s as [|c s IH]; intros acc n b Hall Hne.
  - destruct Hne as [Hne | ->]; [congruence|]. simpl. now rewrite Nat.add_0_r.
  - simpl in Hall. apply andb_prop in Hall as [Hc Hs]. simpl. rewrite Hc.
    rewrite IH by (assumption || now right). do 2 f_equal. lia.
Qed.

Lemma digit_properties (c : ascii) :
  is_digit c = true ->
  is_int_space c = false
  /\ Ascii.eqb c "-" = false /\ Ascii.eqb c "+" = false
  /\ 0 <= digit_value c <= 9.
Proof.
  destruct c as [[] [] [] [] [] [] [] []]; vm_compute; intros H;
    try discriminate H; repeat split; discriminate.
Qed.

Lemma lstrip_none (p : ascii -> bool) (s : string) :
  all_chars (fun c => negb (p c)) s = true -> lstrip p s = s.
Proof.
  destruct s as [|c s]; simpl; [reflexivity|].
  intros [Hc _]%andb_prop. now destruct (p c).
Qed.

Lemma rstrip_none (p : ascii -> bool) (s : string) :
  all_chars (fun c => negb (p c)) s = true -> rstrip p s = s.
Proof.
  induction s as [|c s IH]; simpl; [reflexivity|].
  intros [Hc Hs]%andb_prop. rewrite (IH Hs).
  destruct (p c); [discriminate|]. now rewrite andb_false_r.
Qed.

Lemma all_chars_impl (p q : ascii -> bool) (s : string) :
  (forall c, p c = true -> q c = true) ->
  all_chars p s = true -> all_chars q s = true.
Proof.
  intros Hpq. induction s as [|c s IH]; simpl; [reflexivity|].
  intros [Hc Hs]%andb_prop. now rewrite (Hpq _ Hc), IH.
Qed.

(** [int] of a non-empty string of at most 640 digits is the number the
    digits denote. *)
Lemma py_int_digits (s : string) :
  all_chars is_digit s = true ->
  s <> "" ->
  (String.length s <= 640)%nat ->
  py_int s = Ok (digits_number 0 s).
Proof.
  intros Hall Hne Hlen. unfold py_int, strip.
  assert (Hns : all_chars (fun c => negb (is_int_space c)) s = true).
  { apply (all_chars_impl is_digit); [|exact Hall].
    intros c Hc. now destruct (digit_properties c Hc) as [-> _]. }
  rewrite (lstrip_none _ _ Hns), (rstrip_none _ _ Hns).
  destruct s as [|c s]; [congruence|].
  assert (Hc : is_digit c = true) by (simpl in Hall; now apply andb_prop in Hall).
  destruct (digit_properties c Hc) as (_ & Hm & Hp & _).
  assert (Hbody : (let '(negative, body) :=
                     match String c s with
                     | String "+" rest => (false, rest)
                     | String "-" rest => (true, rest)
                     | _ => (false, String c s)
                     end in
                   match read_digits 0 0 false body with
                   | Some (v, n) =>
                       if too_many_digits n then Raise ValueError
                       else Ok (if negative then - v else v)
                   | None => Raise ValueError
                   end)
                  = match read_digits 0 0 false (String c s) with
                    | Some (v, n) =>
                        if too_many_digits n then Raise ValueError else Ok v
                    | None => Raise ValueError
                    end).
  { clear -Hm Hp. destruct c as [[] [] [] [] [] [] [] []];
      try reflexivity; vm_compute in Hm, Hp; discriminate. }
  rewrite Hbody, read_digits_all by (assumption || now left).
  unfold too_many_digits.
  assert ((640 <? 0 + String.length (String c s))%nat = false) as ->
    by (apply Nat.ltb_ge; lia).
  reflexivity.
Qed.

(** *** Month bounds *)

Lemma digit_char_digit (n : Z) :
  is_digit (digit_char n) = true /\ digit_value (digit_char n) = n mod 10.
Proof.
  unfold digit_char. pose proof (Z.mod_pos_bound n 10 eq_refl) as Hk.
  remember (n mod 10) as k eqn:Ek. clear Ek.
  assert (H : k = 0 \/ k = 1 \/ k = 2 \/ k = 3 \/ k = 4 \/ k = 5 \/ k = 6
              \/ k = 7 \/ k = 8 \/ k = 9) by lia.
  repeat (destruct H as [-> | H]; [now split|]). now subst k.
Qed.

(** A number below 10000 from its four decimal digits, one below 100 from
    its two. *)
Lemma four_digits (y : Z) :
  0 <= y <= 9999 ->
  10 * (10 * (10 * (10 * 0 + (y / 1000) mod 10) + (y / 100) mod 10)
        + (y / 10) mod 10) + y mod 10 = y.
Proof.
  intros Hy.
  pose proof (Z.div_mod y 10 ltac:(lia)) as H1.
  pose proof (Z.div_mod (y / 10) 10 ltac:(lia)) as H2.
  pose proof (Z.div_mod (y / 10 / 10) 10 ltac:(lia)) as H3.
  rewrite !Z.div_div in * by lia. change (10 * 10) with 100 in *.
  change (100 * 10) with 1000 in *.
  pose proof (Z.mod_pos_bound y 10 ltac:(lia)).
  pose proof (Z.mod_pos_bound (y / 10) 10 ltac:(lia)).
  pose proof (Z.mod_pos_bound (y / 100) 10 ltac:(lia)).
  assert (0 <= y / 1000 < 10)
    by (split; [apply Z.div_pos; lia | apply Z.div_lt_upper_bound; lia]).
  rewrite (Z.mod_small (y / 1000) 10) by assumption.
  lia.
Qed.

Lemma two_digits (m : Z) :
  0 <= m <= 99 -> 10 * (10 * 0 + (m / 10) mod 10) + m mod 10 = m.
Proof.
  intros Hm.
  pose proof (Z.div_mod m 10 ltac:(lia)) as H1.
  assert (0 <= m / 10 < 10)
    by (split; [apply Z.div_pos; lia | apply Z.div_lt_upper_bound; lia]).
  rewrite (Z.mod_small (m / 10) 10) by assumption. lia.
Qed.

Lemma split_on_none (c : ascii) (s : string) :
  all_chars (not_char c) s = true -> split_on c s = [s].
Proof.
  induction s as [|a s IH]; simpl; [reflexivity|].
  intros [Ha Hs]%andb_prop. unfold not_char in Ha.
  apply negb_true_iff in Ha. now rewrite Ha, (IH Hs).
Qed.

Lemma split_on_app (c : ascii) (a b : string) :
  all_chars (not_char c) a = true ->
  split_on c (a +:+ String c b) = a :: split_on c b.
Proof.
  induction a as [|x a IH]; simpl.
  - intros _. now rewrite Ascii.eqb_refl.
  - intros [Hx Ha]%andb_prop. unfold not_char in Hx.
    apply negb_true_iff in Hx. now rewrite Hx, (IH Ha).
Qed.

Lemma digit_not_dash (c : ascii) : is_digit c = true -> not_char "-" c = true.
Proof.
  intros H. unfold not_char.
  now destruct (digit_properties c H) as (_ & -> & _).
Qed.

Lemma isleap_leap_year (y : Z) : isleap y = true <-> leap_year y.
Proof.
  unfold isleap, leap_year.
  rewrite andb_true_iff, orb_true_iff, negb_true_iff, !Z.eqb_eq, Z.eqb_neq.
  rewrite <- !Z.mod_divide by lia. tauto.
Qed.

Lemma days_in_month_length (y m : Z) :
  1 <= m <= 12 -> month_length y m (days_in_month y m).
Proof.
  intros Hm. unfold month_length, days_in_month.
  pose proof (isleap_leap_year y) as Hleap.
  assert (H : m = 1 \/ m = 2 \/ m = 3 \/ m = 4 \/ m = 5 \/ m = 6 \/ m = 7
              \/ m = 8 \/ m = 9 \/ m = 10 \/ m = 11 \/ m = 12) by lia.
  destruct H as [-> | [-> | [-> | [-> | [-> | [-> | [-> | [-> | [-> | [-> | [-> | ->]]]]]]]]]]];
    simpl; try (left; split; [simpl; tauto | reflexivity]);
    try (right; left; split; [simpl; tauto | reflexivity]).
  destruct (isleap y) eqn:E.
  - right; right; left. repeat split; try reflexivity; now apply Hleap.
  - right; right; right. repeat split; try reflexivity.
    intros H. apply Hleap in H. congruence.
Qed.

Lemma days_in_month_range (y m : Z) :
  1 <= m <= 12 -> 28 <= days_in_month y m <= 31.
Proof.
  intros Hm. unfold days_in_month.
  assert (H : m = 1 \/ m = 2 \/ m = 3 \/ m = 4 \/ m = 5 \/ m = 6 \/ m = 7
              \/ m = 8 \/ m = 9 \/ m = 10 \/ m = 11 \/ m = 12) by lia.
  destruct H as [-> | [-> | [-> | [-> | [-> | [-> | [-> | [-> | [-> | [-> | [-> | ->]]]]]]]]]]];
    simpl; try lia.
  destruct (isleap y); lia.
Qed.

(** What [month_bounds] returns once the two parts are read as numbers. *)
Lemma month_bounds_parts (a b : string) (y m : Z) :
  all_chars (not_char "-") a = true ->
  all_chars (not_char "-") b = true ->
  py_int a = Ok y ->
  py_int b = Ok m ->
  1 <= y <= 9999 ->
  1 <= m <= 12 ->
  month_bounds (a +:+ String "-" b)
  = Ok ({| year := y; month := m; day := 1 |},
        {| year := y; month := m; day := days_in_month y m |}).
Proof.
  intros Ha Hb Hy Hm Hyr Hmr. unfold month_bounds.
  rewrite (split_on_app _ _ _ Ha), (split_on_none _ _ Hb), Hy, Hm.
  cbn [rbind]. pose proof (days_in_month_range y m Hmr) as Hd.
  unfold make_date, monthrange_ndays, fits_c_int, MINYEAR, MAXYEAR.
  repeat (repeat match goal with
                 | |- context [?x <=? ?y] =>
                     assert ((x <=? y) = true) as -> by lia
                 end;
          cbn [andb negb rbind]).
  reflexivity.
Qed.

(** C7: for every valid "YYYY-MM" string, a year from 1 to 9999 in four
    digits and a month from 1 to 12 in two, [month_bounds] returns the first
    and the last day of that month; the last day is the length of the month
    by the calendar rule, which knows leap years. "2024-02" gives
    (2024-02-01, 2024-02-29) and "2023-02" gives (2023-02-01, 2023-02-28). *)
Theorem month_bounds_first_and_last_day :
  (forall y m : Z,
     1 <= y <= 9999 ->
     1 <= m <= 12 ->
     month_bounds (yyyy_mm y m)
     = Ok ({| year := y; month := m; day := 1 |},
           {| year := y; month := m; day := days_in_month y m |})
     /\ month_length y m (days_in_month y m))
  /\ month_bounds "2024-02"
     = Ok ({| year := 2024; month := 2; day := 1 |},
           {| year := 2024; month := 2; day := 29 |})
  /\ month_bounds "2023-02"
     = Ok ({| year := 2023; month := 2; day := 1 |},
           {| year := 2023; month := 2; day := 28 |}).
Proof.
  split; [|split; reflexivity].
  intros y m Hy Hm. split; [|now apply days_in_month_length].
  set (ys := String (digit_char (y / 1000)) (String (digit_char (y / 100))
               (String (digit_char (y / 10)) (String (digit_char y) "")))).
  set (ms := String (digit_char (m / 10)) (String (digit_char m) "")).
  change (yyyy_mm y m) with (ys +:+ String "-" ms).
  assert (Hys : all_chars is_digit ys = true).
  { subst ys. simpl.
    now rewrite !(proj1 (digit_char_digit _)). }
  assert (Hms : all_chars is_digit ms = true).
  { subst ms. simpl. now rewrite !(proj1 (digit_char_digit _)). }
  apply month_bounds_parts; try assumption.
  - apply (all_chars_impl is_digit); [apply digit_not_dash | exact Hys].
  - apply (all_chars_impl is_digit); [apply digit_not_dash | exact Hms].
  - rewrite py_int_digits; [|exact Hys|subst ys; discriminate|subst ys; simpl; lia].
    f_equal. subst ys. simpl. rewrite !(proj2 (digit_char_digit _)).
    apply four_digits. lia.
  - rewrite py_int_digits; [|exact Hms|subst ms; discriminate|subst ms; simpl; lia].
    f_equal. subst ms. simpl. rewrite !(proj2 (digit_char_digit _)).
    apply two_digits. lia.
Qed.

Lemma month_bounds_raises_invalid_month (ym : string) (e : exn) :
  month_bounds ym = Raise e -> InvalidMonthError e.
Proof.
  unfold month_bounds, make_date, monthrange_ndays, py_int, InvalidMonthError.
  repeat match goal with
         | |- context [match ?x with _ => _ end] => destruct x
         | |- context [if ?x then _ else _] => destruct x
         | |- _ => progress cbn [rbind]
         end;
    intros E; try discriminate E; injection E as <-; simpl;
    first [left; reflexivity | right; left; reflexivity].
Qed.

(** A string that reads as no month from 1 to 12 makes [month_bounds] raise. *)
Lemma month_bounds_invalid (ym : string) :
  (forall y m : Z, parses_as_year_month ym y m -> ~ 1 <= m <= 12) ->
  exists e : exn, month_bounds ym = Raise e /\ InvalidMonthError e.
Proof.
  intros H.
  destruct (month_bounds ym) as [[first last]|e] eqn:E.
  - exfalso. unfold month_bounds in E.
    destruct (split_on "-" ym) as [|a [|b [|c l]]] eqn:Es; try discriminate.
    destruct (py_int a) as [y|] eqn:Ey; [|discriminate].
    destruct (py_int b) as [m|] eqn:Em; [|discriminate].
    cbn [rbind] in E. apply (H y m); [now exists a, b|].
    unfold make_date in E.
    destruct (negb (fits_c_int y && _ && _)); [discriminate|].
    destruct (negb ((MINYEAR <=? y) && _)); [discriminate|].
    destruct (negb ((1 <=? m) && (m <=? 12))) eqn:Er; [discriminate|].
    apply negb_false_iff in Er. lia.
  - exists e. split; [reflexivity|].
    now apply (month_bounds_raises_invalid_month ym).
Qed.

(** The exception is [ValueError] whenever the two numbers fit a C [int]. *)
Lemma month_bounds_invalid_value_error (ym : string) :
  (forall y m : Z, parses_as_year_month ym y m -> ~ 1 <= m <= 12) ->
  (forall y m : Z,
     parses_as_year_month ym y m ->
     fits_c_int y = true /\ fits_c_int m = true) ->
  month_bounds ym = Raise ValueError.
Proof.
  intros H Hfit. destruct (month_bounds_invalid ym H) as (e & E & _).
  rewrite E. f_equal. unfold month_bounds in E.
  destruct (split_on "-" ym) as [|a [|b [|c l]]] eqn:Es; try congruence.
  destruct (py_int a) as [y|ea] eqn:Ey.
  - destruct (py_int b) as [m|eb] eqn:Em.
    + destruct (Hfit y m) as [Hy Hm]; [now exists a, b|].
      cbn [rbind] in E. unfold make_date at 1 in E. rewrite Hy, Hm in E.
      change (fits_c_int 1) with true in E. cbn [andb negb] in E.
      destruct (negb ((MINYEAR <=? y) && _)); cbn [rbind] in E; [congruence|].
      destruct (negb ((1 <=? m) && (m <=? 12))) eqn:Er; cbn [rbind] in E;
        [congruence|].
      exfalso. apply (H y m); [now exists a, b|].
      apply negb_false_iff in Er. lia.
    + cbn [rbind] in E. unfold py_int in Em.
      repeat match type of Em with
             | context [match ?x with _ => _ end] => destruct x
             | context [if ?x then _ else _] => destruct x
             end; congruence.
  - cbn [rbind] in E. unfold py_int in Ey.
    repeat match type of Ey with
           | context [match ?x with _ => _ end] => destruct x
           | context [if ?x then _ else _] => destruct x
           end; congruence.
Qed.

(** C8: for every input string that does not read as a year and a month, or
    whose month is outside 1 to 12, [month_bounds] raises, and returns no
    fallback value. The exception is what the specification calls
    [InvalidMonthError]: [ValueError], or [OverflowError] when a number is too
    large for [datetime.date] to read. It is fatal: [main] ends with it at
    once, before any request is sent and with no row produced. *)
Theorem month_bounds_rejects_invalid_month :
  (forall ym : string,
     (forall y m : Z, parses_as_year_month ym y m -> ~ 1 <= m <= 12) ->
     exists e : exn, month_bounds ym = Raise e /\ InvalidMonthError e)
  /\ (forall ym : string,
        (forall y m : Z, parses_as_year_month ym y m -> ~ 1 <= m <= 12) ->
        (forall y m : Z,
           parses_as_year_month ym y m ->
           fits_c_int y = true /\ fits_c_int m = true) ->
        month_bounds ym = Raise ValueError)
  /\ (forall (fuel : nat) (srv : server) (args : arguments),
        missing (arg_base_url args) = false ->
        missing (arg_api_key args) = false ->
        (forall y m : Z,
           parses_as_year_month (arg_month args) y m -> ~ 1 <= m <= 12) ->
        exists e : exn,
          InvalidMonthError e
          /\ month_bounds (arg_month args) = Raise e
          /\ main fuel srv args = (Aborted e, [], []))
  /\ month_bounds "2024-13" = Raise ValueError
  /\ month_bounds "2024-00" = Raise ValueError
  /\ month_bounds "2024" = Raise ValueError
  /\ month_bounds "March 2024" = Raise ValueError
  /\ month_bounds "2024-99999999999" = Raise OverflowError.
Proof.
  split; [exact month_bounds_invalid|].
  split; [exact month_bounds_invalid_value_error|].
  split; [|repeat split; reflexivity].
  intros fuel srv args Hbase Hkey H.
  destruct (month_bounds_invalid _ H) as (e & E & He).
  exists e. split; [exact He|]. split; [exact E|].
  unfold main. now rewrite Hbase, Hkey, E.
Qed.

(** *** The regular expression of durations and its grammar *)

Lemma span_digits_app (s : string) :
  fst (span_digits s) +:+ snd (span_digits s) = s
  /\ all_chars is_digit (fst (span_digits s)) = true.
Proof.
  induction s as [|c s [IH1 IH2]]; simpl; [now split|].
  destruct (is_digit c) eqn:E; [|now split].
  destruct (span_digits s) as [ds rest]. simpl in *. rewrite IH1, E. now split.
Qed.

Lemma span_digits_no_digits (s rest : string) :
  span_digits s = ("", rest) -> rest = s.
Proof.
  intros H. pose proof (span_digits_app s) as [E _]. rewrite H in E. now simpl in E.
Qed.

Lemma span_digits_led (s ds rest : string) (c : ascii) :
  span_digits s = (String c ds, rest) ->
  exists s' : string, s = String c s' /\ is_digit c = true.
Proof.
  destruct s as [|a s]; simpl; [discriminate|].
  destruct (is_digit a) eqn:E; [|discriminate].
  destruct (span_digits s) as [ds' rest']. intros [= -> _ _]. now exists s.
Qed.

Lemma span_digits_run (ds rest : string) (u : ascii) :
  all_chars is_digit ds = true ->
  is_digit u = false ->
  span_digits (ds +:+ String u rest) = (ds, String u rest).
Proof.
  intros Hds Hu. induction ds as [|c ds IH]; simpl.
  - now rewrite Hu.
  - simpl in Hds. apply andb_prop in Hds as [Hc Hds]. now rewrite Hc, IH.
Qed.

(** [\d+] followed by something that no digit can begin takes the whole run
    of digits. *)
Lemma match_digits_span {A : Type} (s : string) (pos : nat)
    (k : nat -> string -> option A) :
  (forall (p : nat) (c : ascii) (t : string),
     is_digit c = true -> k p (String c t) = None) ->
  match_digits pos s k
  = match span_digits s with
    | (EmptyString, _) => None
    | (ds, rest) => k (pos + String.length ds)%nat rest
    end.
Proof.
  intros Hk. revert pos. induction s as [|c s IH]; intros pos; simpl; [reflexivity|].
  destruct (is_digit c) eqn:Ec; [|reflexivity].
  rewrite IH. destruct (span_digits s) as [ds rest] eqn:Es.
  destruct ds as [|d ds].
  - apply span_digits_no_digits in Es. subst rest. simpl.
    now rewrite Nat.add_1_r.
  - cbn [String.length].
    replace (pos + S (S (String.length ds)))%nat
      with (S pos + S (String.length ds))%nat by lia.
    destruct (k (S pos + S (String.length ds))%nat rest) eqn:Ek; [reflexivity|].
    destruct (span_digits_led _ _ _ _ Es) as (s' & -> & Hd). now apply Hk.
Qed.

Lemma substring_prefix (ds rest : string) :
  substring 0 (String.length ds) (ds +:+ rest) = ds.
Proof.
  induction ds as [|c ds IH]; simpl.
  - now destruct rest.
  - now rewrite IH.
Qed.

Lemma substring_suffix_at (whole : string) (pos : nat) (ds rest : string) :
  suffix_at whole pos (ds +:+ rest) ->
  substring pos (String.length ds) whole = ds.
Proof.
  intros (pre & -> & <-). induction pre as [|c pre IH]; simpl.
  - apply substring_prefix.
  - exact IH.
Qed.

Lemma suffix_at_app (whole : string) (pos : nat) (a b : string) :
  suffix_at whole pos (a +:+ b) ->
  suffix_at whole (pos + String.length a) b.
Proof.
  intros (pre & -> & <-). exists (pre +:+ a). split.
  - now rewrite append_assoc.
  - clear. induction pre as [|c pre IH]; simpl; [reflexivity | now rewrite IH].
Qed.

Lemma digit_is_not (c u : ascii) :
  is_digit c = true -> is_digit u = false -> Ascii.eqb c u = false.
Proof.
  intros Hc Hu. destruct (Ascii.eqb c u) eqn:E; [|reflexivity].
  apply Ascii.eqb_eq in E. congruence.
Qed.

(** How an optional field matches, whatever follows it. *)
Lemma field_re_cases (name : option string) (u : ascii) (whole : string)
    (pos : nat) (s : string) (caps : captures)
    (k : nat -> string -> captures -> option captures) :
  is_digit u = false ->
  rmatch (field_re name u) whole pos s caps k
  = match span_digits s with
    | (String c ds, String c' rest) =>
        if Ascii.eqb c' u then
          match k (S (pos + S (String.length ds))) rest
                  (add_capture name
                     (substring pos (pos + S (String.length ds) - pos) whole)
                     caps) with
          | Some r => Some r
          | None => k pos s caps
          end
        else k pos s caps
    | _ => k pos s caps
    end.
Proof.
  intros Hu. unfold field_re. cbn [rmatch].
  assert (H : forall cs' : nat -> captures,
            match_digits pos s
              (fun (p : nat) (t : string) =>
                 rmatch (RChar u) whole p t (cs' p) k)
            = match span_digits s with
              | (String c ds, String c' rest) =>
                  if Ascii.eqb c' u then
                    k (S (pos + S (String.length ds))) rest
                      (cs' (pos + S (String.length ds))%nat)
                  else None
              | _ => None
              end).
  { intros cs'. rewrite match_digits_span.
    - destruct (span_digits s) as [[|c ds] [|c' rest]]; reflexivity.
    - intros p c t Hc. cbn [rmatch]. now rewrite (digit_is_not c u). }
  cbn [rmatch] in H.
  destruct name as [n|]; cbn [rmatch add_capture].
  - rewrite (H (fun p => (n, substring pos (p - pos) whole) :: caps)).
    destruct (span_digits s) as [[|c ds] [|c' rest]]; try reflexivity.
    now destruct (Ascii.eqb c' u).
  - rewrite (H (fun _ => caps)).
    destruct (span_digits s) as [[|c ds] [|c' rest]]; try reflexivity.
    now destruct (Ascii.eqb c' u).
Qed.

(** An optional field before a continuation that rejects its unit takes
    what [take_field] takes. *)
Lemma field_re_take (name : option string) (u : ascii) (whole : string)
    (pos : nat) (s : string) (caps : captures)
    (k : nat -> string -> captures -> option captures) :
  is_digit u = false ->
  rejects u k ->
  suffix_at whole pos s ->
  rmatch (field_re name u) whole pos s caps k
  = match take_field u s with
    | (Some ds, rest) =>
        k (pos + (String.length ds + 1))%nat rest (add_capture name ds caps)
    | (None, rest) => k pos rest caps
    end.
Proof.
  intros Hu Hk Hsuf. rewrite field_re_cases by exact Hu. unfold take_field.
  destruct (span_digits s) as [[|c ds] [|c' rest]] eqn:Es; try reflexivity.
  destruct (Ascii.eqb c' u) eqn:Ec; [|reflexivity].
  apply Ascii.eqb_eq in Ec. subst c'.
  pose proof (span_digits_app s) as [Happ _]. rewrite Es in Happ. simpl in Happ.
  assert (Hsub : substring pos (pos + S (String.length ds) - pos) whole
                 = String c ds).
  { replace (pos + S (String.length ds) - pos)%nat
      with (String.length (String c ds)) by (simpl; lia).
    apply (substring_suffix_at whole pos (String c ds) (String u rest)).
    simpl. now rewrite Happ. }
  rewrite Hsub. cbn [String.length].
  replace (pos + (S (String.length ds) + 1))%nat
    with (S (pos + S (String.length ds))) by lia.
  destruct (k (S (pos + S (String.length ds))) rest
              (add_capture name (String c ds) caps)) eqn:Ek; [reflexivity|].
  now apply (Hk pos s caps c ds rest).
Qed.

Lemma rejects_field (name : option string) (u u' : ascii) (whole : string)
    (k : nat -> string -> captures -> option captures) :
  is_digit u' = false ->
  Ascii.eqb u u' = false ->
  rejects u k ->
  rejects u (fun p t cs => rmatch (field_re name u') whole p t cs k).
Proof.
  intros Hu' Hne Hk pos s caps c ds rest Hs.
  rewrite field_re_cases by exact Hu'. rewrite Hs, Hne.
  now apply (Hk pos s caps c ds rest).
Qed.

Lemma at_end_digit_led (s ds rest : string) (c u : ascii) :
  span_digits s = (String c ds, String u rest) -> at_end s = false.
Proof.
  intros Hs. pose proof (span_digits_app s) as [Happ _].
  rewrite Hs in Happ. simpl in Happ. subst s. simpl.
  now destruct ds.
Qed.

Lemma rejects_end (u : ascii) (whole : string)
    (k : nat -> string -> captures -> option captures) :
  rejects u (fun p t cs => rmatch REnd whole p t cs k).
Proof.
  intros pos s caps c ds rest Hs. cbn [rmatch].
  now rewrite (at_end_digit_led _ _ _ _ _ Hs).
Qed.

Lemma rejects_opt_time (u : ascii) (whole : string) (r : regex)
    (k : nat -> string -> captures -> option captures) :
  rejects u (fun p t cs =>
               rmatch (RSeq (ROpt (RSeq (RChar "T") r)) REnd) whole p t cs k).
Proof.
  intros pos s caps c ds rest Hs. cbn [rmatch].
  rewrite (at_end_digit_led _ _ _ _ _ Hs).
  destruct (span_digits_led _ _ _ _ Hs) as (s' & -> & Hc).
  now rewrite (digit_is_not c "T" Hc eq_refl).
Qed.

Lemma ISO_DURATION_RE_fields :
  ISO_DURATION_RE
  = RSeq RStart
      (RSeq (RChar "P")
         (RSeq (field_re None "Y")
            (RSeq (field_re None "M")
               (RSeq (field_re None "D") (RSeq (ROpt time_re) REnd))))).
Proof. reflexivity. Qed.

Lemma rmatch_seq (r1 r2 : regex) (whole : string) (pos : nat) (s : string)
    (caps : captures) (k : nat -> string -> captures -> option captures) :
  rmatch (RSeq r1 r2) whole pos s caps k
  = rmatch r1 whole pos s caps (fun p t cs => rmatch r2 whole p t cs k).
Proof. reflexivity. Qed.

Lemma rmatch_char (c : ascii) (whole : string) (pos : nat) (s : string)
    (caps : captures) (k : nat -> string -> captures -> option captures) :
  rmatch (RChar c) whole pos s caps k
  = match s with
    | String a s' => if Ascii.eqb a c then k (S pos) s' caps else None
    | EmptyString => None
    end.
Proof. reflexivity. Qed.

Lemma rmatch_end (whole : string) (pos : nat) (s : string) (caps : captures)
    (k : nat -> string -> captures -> option captures) :
  rmatch REnd whole pos s caps k = if at_end s then k pos s caps else None.
Proof. reflexivity. Qed.

Lemma rmatch_opt (r : regex) (whole : string) (pos : nat) (s : string)
    (caps : captures) (k : nat -> string -> captures -> option captures) :
  rmatch (ROpt r) whole pos s caps k
  = match rmatch r whole pos s caps k with
    | Some cs => Some cs
    | None => k pos s caps
    end.
Proof. reflexivity. Qed.

Lemma rejects_seq (u : ascii) (r1 r2 : regex) (whole : string)
    (k : nat -> string -> captures -> option captures) :
  rejects u (fun p t cs =>
               rmatch r1 whole p t cs (fun p' t' cs' => rmatch r2 whole p' t' cs' k)) ->
  rejects u (fun p t cs => rmatch (RSeq r1 r2) whole p t cs k).
Proof. intros H. exact H. Qed.

Lemma take_field_spec (u : ascii) (s : string) :
  match take_field u s with
  | (Some ds, rest) =>
      s = ds +:+ String u rest /\ ds <> "" /\ all_chars is_digit ds = true
  | (None, rest) => rest = s
  end.
Proof.
  unfold take_field. pose proof (span_digits_app s) as [Happ Hall].
  destruct (span_digits s) as [[|c ds] [|c' rest]]; try reflexivity.
  destruct (Ascii.eqb c' u) eqn:E; [|reflexivity].
  apply Ascii.eqb_eq in E. subst c'. simpl in *. now repeat split.
Qed.

Lemma suffix_at_take_field (whole : string) (pos : nat) (u : ascii) (s : string) :
  suffix_at whole pos s ->
  match take_field u s with
  | (Some ds, rest) => suffix_at whole (pos + (String.length ds + 1)) rest
  | (None, rest) => suffix_at whole pos rest
  end.
Proof.
  intros H. pose proof (take_field_spec u s) as Hs.
  destruct (take_field u s) as [[ds|] rest].
  - destruct Hs as (-> & _ & _).
    replace (ds +:+ String u rest) with ((ds +:+ String u "") +:+ rest) in H
      by (now rewrite append_assoc).
    apply suffix_at_app in H.
    replace (String.length (ds +:+ String u "")) with (String.length ds + 1)%nat in H;
      [exact H|].
    clear. induction ds as [|c ds IH]; simpl; [reflexivity | now rewrite IH].
  - now subst rest.
Qed.

Lemma time_re_parse (whole : string) (pos : nat) (s : string) :
  suffix_at whole pos s ->
  rmatch time_re whole pos s [] (fun p t cs => rmatch REnd whole p t cs accept)
  = parse_time s.
Proof.
  intros Hsuf. unfold time_re, parse_time. rewrite rmatch_seq, rmatch_char.
  destruct s as [|t s5]; [reflexivity|].
  destruct (Ascii.eqb t "T") eqn:Et; [|reflexivity].
  assert (H5 : suffix_at whole (S pos) s5).
  { destruct Hsuf as (pre & -> & <-). exists (pre +:+ String t ""). split.
    - now rewrite append_assoc.
    - clear. induction pre as [|c pre IH]; simpl; [reflexivity | now rewrite IH]. }
  rewrite rmatch_seq, field_re_take;
    [ | reflexivity
      | apply rejects_seq, rejects_field; [reflexivity | reflexivity |];
        apply rejects_field; [reflexivity | reflexivity | apply rejects_end]
      | exact H5 ].
  pose proof (suffix_at_take_field whole (S pos) "H" s5 H5) as H6.
  destruct (take_field "H" s5) as [h s6].
  assert (E6 : exists p6, suffix_at whole p6 s6
                          /\ (match h with
                              | Some ds => (S pos + (String.length ds + 1))%nat
                              | None => S pos
                              end = p6)) by (destruct h; eauto).
  destruct E6 as (p6 & Hs6 & Ep6).
  replace (match h with
           | Some ds =>
               rmatch (RSeq (field_re (Some "m") "M") (field_re (Some "s") "S"))
                 whole (S pos + (String.length ds + 1)) s6
                 (add_capture (Some "h") ds [])
                 (fun p t cs => rmatch REnd whole p t cs accept)
           | None =>
               rmatch (RSeq (field_re (Some "m") "M") (field_re (Some "s") "S"))
                 whole (S pos) s6 []
                 (fun p t cs => rmatch REnd whole p t cs accept)
           end)
    with (rmatch (RSeq (field_re (Some "m") "M") (field_re (Some "s") "S"))
            whole p6 s6 (add_opt "h" h [])
            (fun p t cs => rmatch REnd whole p t cs accept))
    by (destruct h; now subst p6).
  clear H6 Ep6.
  rewrite rmatch_seq, field_re_take;
    [ | reflexivity
      | apply rejects_field; [reflexivity | reflexivity | apply rejects_end]
      | exact Hs6 ].
  pose proof (suffix_at_take_field whole p6 "M" s6 Hs6) as H7.
  destruct (take_field "M" s6) as [mi s7].
  assert (E7 : exists p7, suffix_at whole p7 s7
                          /\ (match mi with
                              | Some ds => (p6 + (String.length ds + 1))%nat
                              | None => p6
                              end = p7)) by (destruct mi; eauto).
  destruct E7 as (p7 & Hs7 & Ep7).
  replace (match mi with
           | Some ds =>
               rmatch (field_re (Some "s") "S") whole
                 (p6 + (String.length ds + 1)) s7
                 (add_capture (Some "m") ds (add_opt "h" h []))
                 (fun p t cs => rmatch REnd whole p t cs accept)
           | None =>
               rmatch (field_re (Some "s") "S") whole p6 s7 (add_opt "h" h [])
                 (fun p t cs => rmatch REnd whole p t cs accept)
           end)
    with (rmatch (field_re (Some "s") "S") whole p7 s7
            (add_opt "m" mi (add_opt "h" h []))
            (fun p t cs => rmatch REnd whole p t cs accept))
    by (destruct mi; now subst p7).
  clear H7 Ep7.
  rewrite field_re_take; [ | reflexivity | apply rejects_end | exact Hs7 ].
  destruct (take_field "S" s7) as [[se|] s8]; rewrite rmatch_end;
    cbn [add_capture add_opt]; now destruct (at_end s8).
Qed.

Lemma rmatch_start (whole : string) (pos : nat) (s : string) (caps : captures)
    (k : nat -> string -> captures -> option captures) :
  rmatch RStart whole pos s caps k
  = if Nat.eqb pos 0 then k pos s caps else None.
Proof. reflexivity. Qed.

Lemma rejects_date_tail (u : ascii) (whole : string) :
  rejects u (fun p t cs =>
               rmatch (RSeq (ROpt time_re) REnd) whole p t cs accept).
Proof. apply rejects_opt_time. Qed.

Lemma date_tail_parse (whole : string) (pos : nat) (s : string) :
  suffix_at whole pos s ->
  rmatch (RSeq (ROpt time_re) REnd) whole pos s [] accept
  = match parse_time s with
    | Some caps => Some caps
    | None => if at_end s then Some [] else None
    end.
Proof.
  intros Hsuf. rewrite rmatch_seq, rmatch_opt, time_re_parse by exact Hsuf.
  destruct (parse_time s); [reflexivity|]. now rewrite rmatch_end.
Qed.

(** The regular expression matches exactly as the parser parses. *)
Theorem re_match_parse_duration (s : string) :
  re_match ISO_DURATION_RE s = parse_duration s.
Proof.
  unfold re_match, parse_duration. fold accept.
  rewrite ISO_DURATION_RE_fields, rmatch_seq, rmatch_start.
  cbn [Nat.eqb]. rewrite rmatch_seq, rmatch_char.
  destruct s as [|c s1]; [reflexivity|].
  destruct (Ascii.eqb c "P") eqn:Ec; [|reflexivity].
  set (whole := String c s1).
  assert (H1 : suffix_at whole 1 s1) by (now exists (String c "")).
  clearbody whole.
  rewrite rmatch_seq, field_re_take;
    [ | reflexivity
      | apply rejects_seq, rejects_field; [reflexivity | reflexivity |];
        apply rejects_seq, rejects_field; [reflexivity | reflexivity |];
        apply rejects_date_tail
      | exact H1 ].
  pose proof (suffix_at_take_field whole 1 "Y" s1 H1) as H2.
  destruct (take_field "Y" s1) as [y s2].
  assert (E2 : exists p2, suffix_at whole p2 s2
                          /\ (match y with
                              | Some ds => (1 + (String.length ds + 1))%nat
                              | None => 1%nat
                              end = p2)) by (destruct y; eauto).
  destruct E2 as (p2 & Hs2 & Ep2).
  match goal with
  | |- match y with Some ds => rmatch ?r whole _ s2 _ ?k | None => _ end = _ =>
      replace (match y with
               | Some ds =>
                   rmatch r whole (1 + (String.length ds + 1)) s2
                     (add_capture None ds []) k
               | None => rmatch r whole 1 s2 [] k
               end)
        with (rmatch r whole p2 s2 [] k) by (destruct y; now subst p2)
  end.
  clear H2 Ep2.
  rewrite rmatch_seq, field_re_take;
    [ | reflexivity
      | apply rejects_seq, rejects_field; [reflexivity | reflexivity |];
        apply rejects_date_tail
      | exact Hs2 ].
  pose proof (suffix_at_take_field whole p2 "M" s2 Hs2) as H3.
  destruct (take_field "M" s2) as [mo s3].
  assert (E3 : exists p3, suffix_at whole p3 s3
                          /\ (match mo with
                              | Some ds => (p2 + (String.length ds + 1))%nat
                              | None => p2
                              end = p3)) by (destruct mo; eauto).
  destruct E3 as (p3 & Hs3 & Ep3).
  match goal with
  | |- match mo with Some ds => rmatch ?r whole _ s3 _ ?k | None => _ end = _ =>
      replace (match mo with
               | Some ds =>
                   rmatch r whole (p2 + (String.length ds + 1)) s3
                     (add_capture None ds []) k
               | None => rmatch r whole p2 s3 [] k
               end)
        with (rmatch r whole p3 s3 [] k) by (destruct mo; now subst p3)
  end.
  clear H3 Ep3.
  rewrite rmatch_seq, field_re_take;
    [ | reflexivity | apply rejects_date_tail | exact Hs3 ].
  pose proof (suffix_at_take_field whole p3 "D" s3 Hs3) as H4.
  destruct (take_field "D" s3) as [[d|] s4]; cbn [add_capture];
    now rewrite date_tail_parse.
Qed.

Lemma take_field_present (u : ascii) (ds r : string) :
  is_digit u = false ->
  ds <> "" -> all_chars is_digit ds = true ->
  take_field u (ds +:+ String u r) = (Some ds, r).
Proof.
  intros Hu Hne Hds. unfold take_field.
  rewrite (span_digits_run ds r u Hds Hu).
  destruct ds as [|c ds]; [congruence|]. now rewrite Ascii.eqb_refl.
Qed.

Lemma take_field_other (u u' : ascii) (o : option string) (r : string) :
  is_digit u' = false ->
  Ascii.eqb u' u = false ->
  number_ok o ->
  take_field u r = (None, r) ->
  take_field u (duration_field o u' +:+ r) = (None, duration_field o u' +:+ r).
Proof.
  intros Hu' Hne Ho Hr. destruct o as [ds|]; [|exact Hr].
  destruct Ho as [Hds Hall]. unfold duration_field.
  rewrite append_assoc. change (String u' "" +:+ r) with (String u' r).
  unfold take_field. rewrite (span_digits_run ds r u' Hall Hu').
  destruct ds as [|c ds]; [congruence|]. now rewrite Hne.
Qed.

Lemma take_field_not_digit (u c : ascii) (r : string) :
  is_digit c = false -> take_field u (String c r) = (None, String c r).
Proof. intros Hc. unfold take_field. simpl. now rewrite Hc. Qed.

Lemma take_field_end (u : ascii) (nl : bool) :
  take_field u (end_text nl) = (None, end_text nl).
Proof. now destruct nl. Qed.

Lemma take_field_own (u : ascii) (o : option string) (r : string) :
  is_digit u = false ->
  number_ok o ->
  take_field u r = (None, r) ->
  take_field u (duration_field o u +:+ r) = (o, r).
Proof.
  intros Hu Ho Hr. destruct o as [ds|]; [|exact Hr].
  destruct Ho as [Hds Hall]. unfold duration_field.
  rewrite append_assoc. change (String u "" +:+ r) with (String u r).
  now apply take_field_present.
Qed.

Lemma parse_time_text (h mi se : option string) (nl : bool) :
  number_ok h -> number_ok mi -> number_ok se ->
  parse_time (time_text (Some (h, mi, se)) +:+ end_text nl)
  = Some (time_captures h mi se).
Proof.
  intros Hh Hmi Hse. unfold time_text.
  rewrite !append_assoc. change ("T" +:+ ?x) with (String "T" x).
  unfold parse_time. rewrite Ascii.eqb_refl.
  rewrite (take_field_own "H" h); [|reflexivity | exact Hh|].
  2:{ apply take_field_other; [reflexivity | reflexivity | exact Hmi|].
      apply take_field_other; [reflexivity | reflexivity | exact Hse|].
      apply take_field_end. }
  rewrite (take_field_own "M" mi); [|reflexivity | exact Hmi|].
  2:{ apply take_field_other; [reflexivity | reflexivity | exact Hse|].
      apply take_field_end. }
  rewrite (take_field_own "S" se); [|reflexivity | exact Hse | apply take_field_end].
  now destruct nl.
Qed.

Lemma take_field_time (u : ascii)
    (t : option (option string * option string * option string)) (nl : bool) :
  take_field u (time_text t +:+ end_text nl)
  = (None, time_text t +:+ end_text nl).
Proof.
  destruct t as [[[h mi] se]|]; [|apply take_field_end].
  unfold time_text. rewrite !append_assoc. now apply take_field_not_digit.
Qed.

(** Every duration of the grammar parses, to the captures of its time
    fields. *)
Lemma parse_duration_complete (s : string) (h mi se : option string) :
  conforms s h mi se -> parse_duration s = Some (time_captures h mi se).
Proof.
  intros (y & mo & d & t & nl & -> & Hy & Hmo & Hd & Hh & Hmi & Hse & Ht).
  unfold duration_text. change ("P" +:+ ?x) with (String "P" x).
  unfold parse_duration. rewrite Ascii.eqb_refl.
  rewrite (take_field_own "Y" y); [|reflexivity | exact Hy|].
  2:{ apply take_field_other; [reflexivity | reflexivity | exact Hmo|].
      apply take_field_other; [reflexivity | reflexivity | exact Hd|].
      apply take_field_time. }
  rewrite (take_field_own "M" mo); [|reflexivity | exact Hmo|].
  2:{ apply take_field_other; [reflexivity | reflexivity | exact Hd|].
      apply take_field_time. }
  rewrite (take_field_own "D" d); [|reflexivity | exact Hd | apply take_field_time].
  destruct t as [fields|].
  - subst fields. now rewrite parse_time_text.
  - injection Ht as -> -> ->. now destruct nl.
Qed.

Lemma at_end_text (s : string) : at_end s = true -> exists nl, s = end_text nl.
Proof.
  destruct s as [|c [|c' s]]; simpl; try discriminate.
  - now exists false.
  - intros H. apply Ascii.eqb_eq in H. subst c. now exists true.
Qed.

Lemma take_field_text (u : ascii) (s r : string) (o : option string) :
  take_field u s = (o, r) -> s = duration_field o u +:+ r /\ number_ok o.
Proof.
  intros H. pose proof (take_field_spec u s) as Hs. rewrite H in Hs.
  destruct o as [ds|].
  - destruct Hs as (-> & Hne & Hall). split; [|now split].
    unfold duration_field. now rewrite append_assoc.
  - now subst r.
Qed.

(** Everything that parses is a duration of the grammar. *)
Lemma parse_duration_sound (s : string) (caps : captures) :
  parse_duration s = Some caps ->
  exists h mi se : option string,
    conforms s h mi se /\ caps = time_captures h mi se.
Proof.
  unfold parse_duration. destruct s as [|c s1]; [discriminate|].
  destruct (Ascii.eqb c "P") eqn:Ec; [|discriminate].
  apply Ascii.eqb_eq in Ec. subst c.
  destruct (take_field "Y" s1) as [y s2] eqn:E1.
  destruct (take_field "M" s2) as [mo s3] eqn:E2.
  destruct (take_field "D" s3) as [d s4] eqn:E3.
  apply take_field_text in E1 as [-> Hy].
  apply take_field_text in E2 as [-> Hmo].
  apply take_field_text in E3 as [-> Hd].
  destruct (parse_time s4) as [caps'|] eqn:Et.
  - intros [= <-]. unfold parse_time in Et.
    destruct s4 as [|t s5]; [discriminate|].
    destruct (Ascii.eqb t "T") eqn:ET; [|discriminate].
    apply Ascii.eqb_eq in ET. subst t.
    destruct (take_field "H" s5) as [h s6] eqn:E4.
    destruct (take_field "M" s6) as [mi s7] eqn:E5.
    destruct (take_field "S" s7) as [se s8] eqn:E6.
    apply take_field_text in E4 as [-> Hh].
    apply take_field_text in E5 as [-> Hmi].
    apply take_field_text in E6 as [-> Hse].
    destruct (at_end s8) eqn:Eend; [|discriminate].
    injection Et as <-. destruct (at_end_text _ Eend) as [nl ->].
    exists h, mi, se. split; [|reflexivity].
    exists y, mo, d, (Some (h, mi, se)), nl.
    repeat split; try assumption.
    unfold duration_text, time_text. now rewrite !append_assoc.
  - destruct (at_end s4) eqn:Eend; [|discriminate].
    intros [= <-]. destruct (at_end_text _ Eend) as [nl ->].
    exists None, None, None. split; [|reflexivity].
    exists y, mo, d, None, nl. now repeat split.
Qed.

(** *** Binary64: no overflow below 2^1022 *)

Lemma digits2_pos_size (p : positive) : digits2_pos p = Pos.size p.
Proof. induction p; simpl; congruence. Qed.

Lemma Zdigits2_nonneg (m : Z) : 0 <= Zdigits2 m.
Proof. destruct m; simpl; lia. Qed.

Lemma Zdigits2_pos (p : positive) : 1 <= Zdigits2 (Zpos p).
Proof. simpl. lia. Qed.

(** [Zdigits2 m <= k] iff [m < 2^k] for non-negative [m], [k]. *)
Lemma Zdigits2_le_iff (m k : Z) :
  0 <= m -> 0 <= k -> (Zdigits2 m <= k <-> m < 2 ^ k).
Proof.
  intros Hm Hk. destruct m as [|p|p]; [|  |lia].
  - simpl. split; [intros _; apply Z.pow_pos_nonneg; lia | lia].
  - simpl. rewrite digits2_pos_size. split.
    + intros H. pose proof (Pos.size_gt p) as Hgt.
      apply Z.lt_le_trans with (2 ^ Zpos (Pos.size p)).
      * rewrite <- Pos2Z.inj_pow. lia.
      * apply Z.pow_le_mono_r; lia.
    + intros H. pose proof (Pos.size_le p) as Hle.
      destruct (Z_le_gt_dec (Zpos (Pos.size p)) k) as [|Hgt]; [assumption|].
      exfalso.
      assert (2 ^ k <= 2 ^ (Zpos (Pos.size p) - 1)) by (apply Z.pow_le_mono_r; lia).
      assert (2 * 2 ^ (Zpos (Pos.size p) - 1) = 2 ^ Zpos (Pos.size p)).
      { rewrite <- Z.pow_succ_r by lia. f_equal. lia. }
      assert (2 ^ Zpos (Pos.size p) <= 2 * Zpos p).
      { rewrite <- Pos2Z.inj_pow. lia. }
      lia.
Qed.

Lemma shr_1_digits (mrs : shr_record) :
  0 <= shr_m mrs ->
  0 <= shr_m (shr_1 mrs)
  /\ Zdigits2 (shr_m (shr_1 mrs)) = Z.max 0 (Zdigits2 (shr_m mrs) - 1).
Proof.
  destruct mrs as [m r s]. cbn [shr_m]. intros Hm.
  destruct m as [|[p|p|]|p]; cbn [shr_1 shr_m Zdigits2 digits2_pos];
    rewrite ?Pos2Z.inj_succ; lia.
Qed.

Lemma iter_shr_1_digits (p : positive) (mrs : shr_record) :
  0 <= shr_m mrs ->
  0 <= shr_m (SpecFloat.iter_pos shr_1 p mrs)
  /\ Zdigits2 (shr_m (SpecFloat.iter_pos shr_1 p mrs))
     = Z.max 0 (Zdigits2 (shr_m mrs) - Zpos p).
Proof.
  revert mrs. induction p as [p IH|p IH|]; intros mrs Hm; simpl SpecFloat.iter_pos.
  - destruct (shr_1_digits mrs Hm) as [H0 E0].
    destruct (IH _ H0) as [H1 E1]. destruct (IH _ H1) as [H2 E2].
    split; [assumption|]. rewrite E2, E1, E0. lia.
  - destruct (IH _ Hm) as [H1 E1]. destruct (IH _ H1) as [H2 E2].
    split; [assumption|]. rewrite E2, E1. lia.
  - apply shr_1_digits, Hm.
Qed.

Lemma shr_digits (mrs : shr_record) (e n : Z) :
  0 <= shr_m mrs ->
  let '(mrs', e') := shr mrs e n in
  0 <= shr_m mrs'
  /\ e' = e + Z.max 0 n
  /\ Zdigits2 (shr_m mrs') = Z.max 0 (Zdigits2 (shr_m mrs) - Z.max 0 n).
Proof.
  intros Hm. unfold shr. destruct n as [|p|p].
  - pose proof (Zdigits2_nonneg (shr_m mrs)). repeat split; lia.
  - destruct (iter_shr_1_digits p mrs Hm) as [H E].
    split; [assumption | split; [lia | rewrite E; lia]].
  - pose proof (Zdigits2_nonneg (shr_m mrs)). repeat split; lia.
Qed.

Lemma shr_record_of_loc_m (m : Z) (l : location) :
  shr_m (shr_record_of_loc m l) = m.
Proof. now destruct l as [|[]]. Qed.

Lemma Zdigits2_succ (m : Z) : 0 <= m -> Zdigits2 (m + 1) <= Zdigits2 m + 1.
Proof.
  intros Hm. pose proof (Zdigits2_nonneg m) as Hd.
  apply Zdigits2_le_iff; [lia | lia|].
  assert (m < 2 ^ Zdigits2 m) by (apply Zdigits2_le_iff; lia).
  replace (Zdigits2 m + 1) with (Z.succ (Zdigits2 m)) by lia.
  rewrite Z.pow_succ_r by lia.
  assert (0 < 2 ^ Zdigits2 m) by (apply Z.pow_pos_nonneg; lia). lia.
Qed.

Lemma round_nearest_even_digits (m : Z) (l : location) :
  0 <= m ->
  0 <= round_nearest_even m l
  /\ Zdigits2 (round_nearest_even m l) <= Zdigits2 m + 1.
Proof.
  intros Hm. pose proof (Zdigits2_succ m Hm).
  unfold round_nearest_even.
  destruct l as [|[]]; try destruct (Z.even m); split; lia.
Qed.

Lemma fexp64_eq (e : Z) : fexp64 e = Z.max (e - 53) (-1074).
Proof. reflexivity. Qed.

(** Rounding a mantissa that is at least as fine as the format wants does
    not overflow while the number is below [2^1022]. *)
Lemma binary_round_aux_magnitude (sx : bool) (mx ex : Z) (lx : location) (b : Z) :
  0 <= mx ->
  ex <= fexp64 (Zdigits2 mx + ex) ->
  Zdigits2 mx + ex <= b ->
  -1073 <= b <= 1022 ->
  magnitude_le (binary_round_aux prec emax sx mx ex lx) (b + 1).
Proof.
  intros Hmx Hal Hb Hrange. unfold binary_round_aux, shr_fexp.
  fold (fexp64 (Zdigits2 mx + ex)). rewrite fexp64_eq in *.
  pose proof (shr_digits (shr_record_of_loc mx lx) ex
                (Z.max (Zdigits2 mx + ex - 53) (-1074) - ex)) as H1.
  rewrite shr_record_of_loc_m in H1. specialize (H1 Hmx).
  destruct (shr (shr_record_of_loc mx lx) ex _) as [mrs1 e1].
  destruct H1 as (Hm1 & He1 & Hd1).
  destruct (round_nearest_even_digits (shr_m mrs1) (loc_of_shr_record mrs1) Hm1)
    as [Hm2 Hd2].
  set (m2 := round_nearest_even (shr_m mrs1) (loc_of_shr_record mrs1)) in *.
  fold (fexp64 (Zdigits2 m2 + e1)). rewrite fexp64_eq.
  pose proof (shr_digits (shr_record_of_loc m2 loc_Exact) e1
                (Z.max (Zdigits2 m2 + e1 - 53) (-1074) - e1)) as H2.
  rewrite shr_record_of_loc_m in H2. specialize (H2 Hm2).
  destruct (shr (shr_record_of_loc m2 loc_Exact) e1 _) as [mrs2 e2].
  destruct H2 as (Hm3 & He2 & Hd3).
  pose proof (Zdigits2_nonneg mx). pose proof (Zdigits2_nonneg m2).
  pose proof (Zdigits2_nonneg (shr_m mrs1)).
  destruct (shr_m mrs2) as [|p|p] eqn:Em; [exact I | | lia].
  assert (He : e2 <= 971) by lia.
  apply Z.leb_le in He. unfold emax, prec. change (1024 - 53) with 971.
  rewrite He.
  unfold magnitude_le. lia.
Qed.

Lemma digits2_pos_iter_xO (m d : positive) :
  Zpos (digits2_pos (Pos.iter xO m d)) = Zpos (digits2_pos m) + Zpos d.
Proof.
  induction d as [|d IH] using Pos.peano_ind.
  - simpl. lia.
  - rewrite Pos.iter_succ. cbn [digits2_pos]. rewrite Pos2Z.inj_succ, IH. lia.
Qed.

Lemma binary_round_magnitude (s : bool) (m : positive) (e b : Z) :
  Zdigits2 (Zpos m) + e <= b ->
  -1073 <= b <= 1022 ->
  magnitude_le (binary_round prec emax s m e) (b + 1).
Proof.
  intros Hb Hrange. unfold binary_round, shl_align.
  fold (fexp64 (Zpos (digits2_pos m) + e)). rewrite fexp64_eq.
  cbn [Zdigits2] in Hb.
  destruct (Z.max (Zpos (digits2_pos m) + e - 53) (-1074) - e) as [|d|d] eqn:Ed.
  - apply binary_round_aux_magnitude; cbn [Zdigits2]; rewrite ?fexp64_eq; lia.
  - apply binary_round_aux_magnitude; cbn [Zdigits2]; rewrite ?fexp64_eq; lia.
  - pose proof (digits2_pos_iter_xO m d) as Hd.
    apply binary_round_aux_magnitude; cbn [Zdigits2]; rewrite ?fexp64_eq; lia.
Qed.

Lemma binary_normalize_magnitude (m e b : Z) (szero : bool) :
  Zdigits2 m + e <= b ->
  -1073 <= b <= 1022 ->
  magnitude_le (binary_normalize prec emax m e szero) (b + 1).
Proof.
  intros Hb Hrange. destruct m as [|p|p]; [exact I | |];
    now apply binary_round_magnitude.
Qed.

Lemma magnitude_le_mono (f : spec_float) (b b' : Z) :
  b <= b' -> magnitude_le f b -> magnitude_le f b'.
Proof. destruct f; simpl; try tauto. lia. Qed.

Lemma Zdigits2_abs (m : Z) : Zdigits2 (Z.abs m) = Zdigits2 m.
Proof. now destruct m. Qed.

Lemma Zdigits2_mono (a b : Z) : 0 <= a <= b -> Zdigits2 a <= Zdigits2 b.
Proof.
  intros H. pose proof (Zdigits2_nonneg b).
  apply Zdigits2_le_iff; [lia | lia|].
  assert (b < 2 ^ Zdigits2 b) by (apply Zdigits2_le_iff; lia). lia.
Qed.

Lemma Zdigits2_add (a b : Z) :
  Zdigits2 (a + b) <= Z.max (Zdigits2 a) (Zdigits2 b) + 1.
Proof.
  pose proof (Zdigits2_nonneg a). pose proof (Zdigits2_nonneg b).
  rewrite <- (Zdigits2_abs (a + b)).
  apply Zdigits2_le_iff; [lia | lia|].
  assert (Z.abs a < 2 ^ Zdigits2 a)
    by (apply Zdigits2_le_iff; [lia | lia | rewrite Zdigits2_abs; lia]).
  assert (Z.abs b < 2 ^ Zdigits2 b)
    by (apply Zdigits2_le_iff; [lia | lia | rewrite Zdigits2_abs; lia]).
  assert (2 ^ Zdigits2 a <= 2 ^ Z.max (Zdigits2 a) (Zdigits2 b))
    by (apply Z.pow_le_mono_r; lia).
  assert (2 ^ Zdigits2 b <= 2 ^ Z.max (Zdigits2 a) (Zdigits2 b))
    by (apply Z.pow_le_mono_r; lia).
  replace (Z.max (Zdigits2 a) (Zdigits2 b) + 1)
    with (Z.succ (Z.max (Zdigits2 a) (Zdigits2 b))) by lia.
  rewrite Z.pow_succ_r by lia. lia.
Qed.

Lemma Zdigits2_cond_Zopp (s : bool) (m : Z) : Zdigits2 (cond_Zopp s m) = Zdigits2 m.
Proof. destruct s, m; reflexivity. Qed.

Lemma shl_align_digits (m : positive) (e e' : Z) :
  e' <= e ->
  Zdigits2 (Zpos (fst (shl_align m e e'))) + e' = Zdigits2 (Zpos m) + e.
Proof.
  intros H. unfold shl_align. destruct (e' - e) as [|d|d] eqn:Ed; cbn [fst Zdigits2].
  - lia.
  - lia.
  - rewrite digits2_pos_iter_xO. lia.
Qed.

Lemma fadd_magnitude (x y : spec_float) (b : Z) :
  magnitude_le x b -> magnitude_le y b ->
  -1073 <= b <= 1021 ->
  magnitude_le (fadd x y) (b + 2).
Proof.
  intros Hx Hy Hrange. unfold fadd, SFadd.
  destruct x as [sx|sx| |sx mx ex], y as [sy|sy| |sy my ey];
    try contradiction; cbn [magnitude_le] in *.
  - now destruct sx, sy.
  - lia.
  - lia.
  - cbv zeta. replace (b + 2) with ((b + 1) + 1) by lia.
    apply binary_normalize_magnitude; [|lia].
    pose proof (shl_align_digits mx ex (Z.min ex ey) ltac:(lia)) as H1.
    pose proof (shl_align_digits my ey (Z.min ex ey) ltac:(lia)) as H2.
    pose proof (Zdigits2_add
                  (cond_Zopp sx (Zpos (fst (shl_align mx ex (Z.min ex ey)))))
                  (cond_Zopp sy (Zpos (fst (shl_align my ey (Z.min ex ey)))))) as H3.
    rewrite !Zdigits2_cond_Zopp in H3.
    change (IntDef.Z.min ex ey) with (Z.min ex ey). lia.
Qed.

Lemma finite_or_overflow_ok (f : spec_float) (b : Z) :
  magnitude_le f b -> finite_or_overflow f = Ok f.
Proof. now destruct f. Qed.

Lemma float_of_int_ok (n b : Z) :
  Zdigits2 n <= b ->
  0 <= b <= 1022 ->
  exists f : spec_float, float_of_int n = Ok f /\ magnitude_le f (b + 1).
Proof.
  intros Hn Hb. exists (binary_normalize prec emax n 0 false).
  assert (H : magnitude_le (binary_normalize prec emax n 0 false) (b + 1))
    by (apply binary_normalize_magnitude; lia).
  split; [|exact H]. unfold float_of_int. now apply (finite_or_overflow_ok _ (b + 1)).
Qed.

Lemma Zdigits2_lower (m : Z) : 0 < m -> 2 ^ (Zdigits2 m - 1) <= m.
Proof.
  intros Hm. pose proof (Zdigits2_nonneg m).
  destruct (Z_le_gt_dec (2 ^ (Zdigits2 m - 1)) m) as [|Hgt]; [assumption|].
  exfalso. destruct m as [|p|p]; try lia.
  pose proof (Zdigits2_pos p).
  assert (Zdigits2 (Zpos p) <= Zdigits2 (Zpos p) - 1)
    by (apply Zdigits2_le_iff; lia).
  lia.
Qed.

Lemma Zdigits2_upper (m : Z) : 0 <= m -> m < 2 ^ Zdigits2 m.
Proof.
  intros Hm. pose proof (Zdigits2_nonneg m). apply Zdigits2_le_iff; lia.
Qed.

Lemma Zdigits2_ge (m k : Z) : 0 <= m -> 2 ^ (k - 1) <= m -> 1 <= k -> k <= Zdigits2 m.
Proof.
  intros Hm Hk H1. pose proof (Zdigits2_nonneg m).
  destruct (Z_le_gt_dec k (Zdigits2 m)) as [|Hgt]; [assumption|].
  exfalso. pose proof (Zdigits2_upper m Hm).
  assert (2 ^ Zdigits2 m <= 2 ^ (k - 1)) by (apply Z.pow_le_mono_r; lia).
  lia.
Qed.

(** The quotient that the division hands to the rounding. *)
Lemma div_core_int (a b : positive) :
  let '(q, e, l) := SFdiv_core_binary prec emax (Zpos a) 0 (Zpos b) 0 in
  0 <= q
  /\ e <= fexp64 (Zdigits2 q + e)
  /\ Zdigits2 q + e <= Zdigits2 (Zpos a).
Proof.
  unfold SFdiv_core_binary.
  set (d1 := Zdigits2 (Zpos a)). set (d2 := Zdigits2 (Zpos b)).
  fold (fexp64 (d1 + 0 - (d2 + 0))).
  change (IntDef.Z.min (fexp64 (d1 + 0 - (d2 + 0))) (0 - 0))
    with (Z.min (fexp64 (d1 + 0 - (d2 + 0))) 0).
  set (e := Z.min (fexp64 (d1 + 0 - (d2 + 0))) 0).
  assert (He : e <= 0) by (subst e; lia).
  assert (He' : e <= fexp64 (d1 - d2))
    by (subst e; replace (d1 + 0 - (d2 + 0)) with (d1 - d2) by lia; lia).
  set (m' := match 0 - 0 - e with
             | 0 => Zpos a
             | Zpos _ => Z.shiftl (Zpos a) (0 - 0 - e)
             | Zneg _ => 0
             end).
  assert (Hm' : m' = Zpos a * 2 ^ (- e)).
  { subst m'. destruct (0 - 0 - e) as [|p|p] eqn:Es.
    - replace (- e) with 0 by lia. lia.
    - rewrite Z.shiftl_mul_pow2 by lia. f_equal. f_equal. lia.
    - lia. }
  clearbody m'.
  destruct (Z.div_eucl m' (Zpos b)) as [q r] eqn:Ediv.
  assert (Hq : q = m' / Zpos b) by (unfold Z.div; now rewrite Ediv).
  assert (Hpow : 0 < 2 ^ (- e)) by (apply Z.pow_pos_nonneg; lia).
  assert (Hm0 : 0 < m') by (rewrite Hm'; lia).
  assert (Hq0 : 0 <= q) by (rewrite Hq; apply Z.div_pos; lia).
  assert (Hd1 : 1 <= d1) by (subst d1; apply Zdigits2_pos).
  assert (Hd2 : 1 <= d2) by (subst d2; apply Zdigits2_pos).
  assert (Hupper : m' < 2 ^ (d1 - e)).
  { rewrite Hm'. replace (d1 - e) with (d1 + - e) by lia.
    rewrite Z.pow_add_r by lia.
    pose proof (Zdigits2_upper (Zpos a) ltac:(lia)). fold d1 in H. nia. }
  assert (Hlower : 2 ^ (d1 - 1 - e) <= m').
  { rewrite Hm'. replace (d1 - 1 - e) with ((d1 - 1) + - e) by lia.
    rewrite Z.pow_add_r by lia.
    pose proof (Zdigits2_lower (Zpos a) ltac:(lia)). fold d1 in H. nia. }
  split; [exact Hq0|]. split.
  - (* the quotient has at least d1 - e - d2 digits *)
    assert (Hk : d1 - e - d2 <= Zdigits2 q).
    { destruct (Z_le_gt_dec (d1 - e - d2) 0) as [|Hpos];
        [pose proof (Zdigits2_nonneg q); lia|].
      apply Zdigits2_ge; [exact Hq0 | | lia].
      rewrite Hq. apply Z.div_le_lower_bound; [lia|].
      pose proof (Zdigits2_upper (Zpos b) ltac:(lia)) as Hb. fold d2 in Hb.
      assert (2 ^ (d1 - e - d2 - 1) * 2 ^ d2 = 2 ^ (d1 - 1 - e)).
      { rewrite <- Z.pow_add_r by lia. f_equal. lia. }
      assert (0 < 2 ^ (d1 - e - d2 - 1)) by (apply Z.pow_pos_nonneg; lia).
      nia. }
    rewrite fexp64_eq in *. lia.
  - assert (Zdigits2 q <= d1 - e); [|lia].
    apply Zdigits2_le_iff; [exact Hq0 | lia|].
    rewrite Hq. apply Z.le_lt_trans with m'; [|exact Hupper].
    apply Z.div_le_upper_bound; [lia|]. nia.
Qed.

Lemma int_true_div_ok (a : Z) (b : positive) (k : Z) :
  Zdigits2 a <= k ->
  0 <= k <= 1022 ->
  exists f : spec_float, int_true_div a b = Ok f /\ magnitude_le f (k + 1).
Proof.
  intros Ha Hk. unfold int_true_div.
  assert (H : forall (p : positive) (s : bool),
            Zdigits2 (Zpos p) <= k ->
            exists f : spec_float,
              (let '(q, e, l) := SFdiv_core_binary prec emax (Zpos p) 0 (Zpos b) 0 in
               finite_or_overflow (binary_round_aux prec emax s q e l)) = Ok f
              /\ magnitude_le f (k + 1)).
  { intros p s Hp. pose proof (div_core_int p b) as H.
    destruct (SFdiv_core_binary prec emax (Zpos p) 0 (Zpos b) 0) as [[q e] l].
    destruct H as (Hq & Hal & Hd).
    assert (Hm : magnitude_le (binary_round_aux prec emax s q e l) (k + 1))
      by (apply binary_round_aux_magnitude; lia).
    exists (binary_round_aux prec emax s q e l).
    split; [now apply (finite_or_overflow_ok _ (k + 1)) | exact Hm]. }
  destruct a as [|p|p].
  - now exists fzero.
  - change (Z.abs (Zpos p)) with (Zpos p). now apply H.
  - change (Z.abs (Zneg p)) with (Zpos p). now apply H.
Qed.

Lemma Zdigits2_opp (m : Z) : Zdigits2 (- m) = Zdigits2 m.
Proof. now destruct m. Qed.

Lemma round_half_even_shift_bounds (p k : Z) :
  0 <= p -> 0 <= k ->
  p / 2 ^ k <= round_half_even_shift p k <= p / 2 ^ k + 1.
Proof.
  intros Hp Hk. unfold round_half_even_shift.
  destruct (2 * (p mod 2 ^ k) ?= 2 ^ k); [destruct (Z.even _)| |]; lia.
Qed.

(** The number of hundredths that [round] computes is not much longer than
    the float it rounds. *)
Lemma hundredths_digits (m : positive) (e k : Z) :
  Zdigits2 (Zpos m) + e <= k ->
  0 <= k ->
  let n := if 0 <=? e then Zpos m * 2 ^ e * 10 ^ 2
           else round_half_even_shift (Zpos m * 10 ^ 2) (- e) in
  0 <= n /\ Zdigits2 n <= k + 8.
Proof.
  intros Hm Hk. change (10 ^ 2) with 100.
  pose proof (Zdigits2_upper (Zpos m) ltac:(lia)) as Hup.
  pose proof (Zdigits2_pos m) as Hd1.
  set (d := Zdigits2 (Zpos m)) in *.
  destruct (0 <=? e) eqn:Ee.
  - apply Z.leb_le in Ee. cbv zeta.
    assert (0 < 2 ^ e) by (apply Z.pow_pos_nonneg; lia).
    split; [nia|].
    apply Zdigits2_le_iff; [nia | lia|].
    replace (k + 8) with (d + e + (k - d - e + 8)) by lia.
    rewrite (Z.pow_add_r 2 (d + e)), (Z.pow_add_r 2 d e) by lia.
    assert (H8 : 2 ^ 8 <= 2 ^ (k - d - e + 8)) by (apply Z.pow_le_mono_r; lia).
    change (2 ^ 8) with 256 in H8.
    set (y := 2 ^ (k - d - e + 8)) in *.
    assert (Zpos m * 2 ^ e < 2 ^ d * 2 ^ e) by nia.
    set (u := Zpos m * 2 ^ e) in *. set (v := 2 ^ d * 2 ^ e) in *.
    nia.
  - apply Z.leb_gt in Ee. cbv zeta.
    pose proof (round_half_even_shift_bounds (Zpos m * 100) (- e) ltac:(lia) ltac:(lia))
      as [Hlo Hhi].
    set (n := round_half_even_shift (Zpos m * 100) (- e)) in *.
    assert (Hpow : 0 < 2 ^ (- e)) by (apply Z.pow_pos_nonneg; lia).
    assert (Hq0 : 0 <= Zpos m * 100 / 2 ^ (- e)) by (apply Z.div_pos; lia).
    split; [lia|].
    assert (Hq : Zpos m * 100 / 2 ^ (- e) < 2 ^ (k + 7)).
    { apply Z.div_lt_upper_bound; [lia|].
      rewrite <- Z.pow_add_r by lia.
      assert (2 ^ (d + 7) <= 2 ^ (- e + (k + 7))) by (apply Z.pow_le_mono_r; lia).
      rewrite Z.pow_add_r in H by lia. change (2 ^ 7) with 128 in H. lia. }
    apply Zdigits2_le_iff; [lia | lia|].
    replace (k + 8) with (Z.succ (k + 7)) by lia.
    rewrite Z.pow_succ_r by lia.
    assert (0 < 2 ^ (k + 7)) by (apply Z.pow_pos_nonneg; lia). lia.
Qed.

Lemma py_round_ok (x : spec_float) (k : Z) :
  magnitude_le x k ->
  0 <= k <= 1014 ->
  exists f : spec_float, py_round x 2 = Ok f.
Proof.
  intros Hx Hk. destruct x as [s|s| |s m e]; try contradiction;
    [now eexists|].
  cbn [magnitude_le] in Hx. unfold py_round.
  destruct (hundredths_digits m e k Hx ltac:(lia)) as [Hn0 Hnd].
  cbv zeta in *.
  destruct (if 0 <=? e then Zpos m * 2 ^ e * 10 ^ 2
            else round_half_even_shift (Zpos m * 10 ^ 2) (- e)) as [|n|n] eqn:En;
    [now eexists | | lia].
  destruct (int_true_div_ok (if s then - Zpos n else Zpos n) (Z.to_pos (10 ^ 2)) (k + 8))
    as (f & Hf & _); [destruct s; exact Hnd | lia|].
  rewrite Hf. now exists f.
Qed.

(** *** The duration decoder *)

Lemma number_ok_some (ds : string) :
  number_ok (Some ds) -> exists (c : ascii) (r : string), ds = String c r.
Proof. intros [Hne _]. destruct ds as [|c r]; [congruence | now exists c, r]. Qed.

Lemma int_group_time_captures (h mi se : option string) :
  number_ok h -> number_ok mi -> number_ok se ->
  int_group (time_captures h mi se) "h" = int_field h
  /\ int_group (time_captures h mi se) "m" = int_field mi
  /\ int_group (time_captures h mi se) "s" = int_field se.
Proof.
  intros Hh Hmi Hse. unfold int_group, time_captures.
  destruct h as [h|]; [destruct (number_ok_some _ Hh) as (c1 & r1 & ->)|];
    (destruct mi as [mi|]; [destruct (number_ok_some _ Hmi) as (c2 & r2 & ->)|]);
    (destruct se as [se|]; [destruct (number_ok_some _ Hse) as (c3 & r3 & ->)|]);
    repeat split; reflexivity.
Qed.

Lemma digits_number_bound (ds : string) (acc : Z) :
  all_chars is_digit ds = true ->
  0 <= acc ->
  0 <= digits_number acc ds < (acc + 1) * 10 ^ Z.of_nat (String.length ds).
Proof.
  revert acc. induction ds as [|c ds IH]; intros acc Hall Hacc.
  - simpl. lia.
  - simpl in Hall. apply andb_prop in Hall as [Hc Hds].
    destruct (digit_properties c Hc) as (_ & _ & _ & Hv).
    cbn [digits_number String.length]. rewrite Nat2Z.inj_succ, Z.pow_succ_r by lia.
    specialize (IH (10 * acc + digit_value c) Hds ltac:(lia)).
    assert (0 < 10 ^ Z.of_nat (String.length ds)) by (apply Z.pow_pos_nonneg; lia).
    nia.
Qed.

Lemma field_number_small (o : option string) :
  number_ok o ->
  (field_digits o <= 300)%nat ->
  Zdigits2 (field_number o) <= 1000.
Proof.
  intros Ho Hlen. destruct o as [ds|]; [|simpl; lia].
  destruct Ho as [_ Hall]. simpl in *.
  pose proof (digits_number_bound ds 0 Hall ltac:(lia)) as [H0 H1].
  apply Zdigits2_le_iff; [exact H0 | lia|].
  assert (10 ^ Z.of_nat (String.length ds) <= 10 ^ 300)
    by (apply Z.pow_le_mono_r; lia).
  assert (10 ^ 300 < 2 ^ 1000) by (apply Z.ltb_lt; vm_compute; reflexivity).
  lia.
Qed.

Lemma int_field_small (o : option string) :
  number_ok o ->
  (field_digits o <= 300)%nat ->
  int_field o = Ok (field_number o).
Proof.
  intros Ho Hlen. destruct o as [ds|]; [|reflexivity].
  destruct Ho as [Hne Hall]. cbn [field_digits] in Hlen. cbn [int_field field_number].
  apply py_int_digits; [exact Hall | exact Hne | lia].
Qed.

(** Numbers below [2^1000] go through the arithmetic without overflow. *)
Lemma hours_of_ok (h mnts sec : Z) :
  Zdigits2 h <= 1000 -> Zdigits2 mnts <= 1000 -> Zdigits2 sec <= 1000 ->
  exists x : spec_float, hours_of h mnts sec = Ok x.
Proof.
  intros Hh Hm Hs. unfold hours_of.
  destruct (int_true_div_ok mnts 60 1000 Hm ltac:(lia)) as (q_m & -> & Mm).
  destruct (float_of_int_ok h 1000 Hh ltac:(lia)) as (f_h & -> & Mh).
  destruct (int_true_div_ok sec 3600 1000 Hs ltac:(lia)) as (q_s & -> & Ms).
  cbn [rbind].
  change (1000 + 1) with 1001 in Mm, Mh, Ms.
  assert (M1 : magnitude_le (fadd f_h q_m) 1003)
    by (apply (fadd_magnitude f_h q_m 1001); [assumption | assumption | lia]).
  assert (Ms' : magnitude_le q_s 1003)
    by (apply (magnitude_le_mono q_s 1001); [lia | assumption]).
  assert (M2 : magnitude_le (fadd (fadd f_h q_m) q_s) 1005)
    by (apply (fadd_magnitude _ q_s 1003); [assumption | assumption | lia]).
  apply (py_round_ok _ 1005 M2). lia.
Qed.

Lemma conforms_not_empty (s : string) (h mi se : option string) :
  conforms s h mi se -> is_empty s = false.
Proof. now intros (y & mo & d & t & nl & -> & _). Qed.

Lemma conforms_numbers (s : string) (h mi se : option string) :
  conforms s h mi se -> number_ok h /\ number_ok mi /\ number_ok se.
Proof.
  intros (y & mo & d & t & nl & _ & _ & _ & _ & Hh & Hmi & Hse & _).
  repeat split; assumption.
Qed.

(** The strings that the pattern accepts are those of the grammar as the
    specification words it, and those followed by one newline. *)
Lemma ends_with_app_false (c : ascii) (s t : string) :
  ends_with c s = false -> ends_with c t = false ->
  ends_with c (s +:+ t) = false.
Proof.
  intros Hs Ht. destruct t as [|b t].
  - now rewrite append_empty_r.
  - rewrite ends_with_app by discriminate. exact Ht.
Qed.

Lemma duration_field_no_newline (o : option string) (u : ascii) :
  Ascii.eqb u newline = false ->
  ends_with newline (duration_field o u) = false.
Proof.
  intros Hu. destruct o as [ds|]; [|reflexivity].
  unfold duration_field. rewrite ends_with_app by discriminate. exact Hu.
Qed.

Lemma conforms_by_spec_no_newline (s : string) (h mi se : option string) :
  conforms_by_spec s h mi se -> ends_with newline s = false.
Proof.
  intros (y & mo & d & t & -> & _). unfold duration_text, end_text.
  apply ends_with_app_false; [reflexivity|].
  apply ends_with_app_false; [now apply duration_field_no_newline|].
  apply ends_with_app_false; [now apply duration_field_no_newline|].
  apply ends_with_app_false; [now apply duration_field_no_newline|].
  apply ends_with_app_false; [|reflexivity].
  destruct t as [[[h' mi'] se']|]; [|reflexivity]. unfold time_text.
  apply ends_with_app_false; [reflexivity|].
  apply ends_with_app_false; [now apply duration_field_no_newline|].
  apply ends_with_app_false; now apply duration_field_no_newline.
Qed.

Lemma duration_text_newline (y mo d : option string)
    (t : option (option string * option string * option string)) :
  duration_text y mo d t true
  = duration_text y mo d t false +:+ String newline "".
Proof.
  unfold duration_text, end_text. rewrite !append_assoc. reflexivity.
Qed.

Lemma conforms_by_spec_or_newline (s : string) (h mi se : option string) :
  conforms s h mi se
  <-> (conforms_by_spec s h mi se
       \/ exists s0 : string,
            s = s0 +:+ String newline "" /\ conforms_by_spec s0 h mi se).
Proof.
  split.
  - intros (y & mo & d & t & [|] & -> & H).
    + right. exists (duration_text y mo d t false).
      split; [apply duration_text_newline|].
      now exists y, mo, d, t.
    + left. now exists y, mo, d, t.
  - intros [(y & mo & d & t & -> & H) | (s0 & -> & y & mo & d & t & -> & H)].
    + now exists y, mo, d, t, false.
    + exists y, mo, d, t, true. split; [|exact H].
      symmetry. apply duration_text_newline.
Qed.

(** C5, as amended: for every input string the decoder returns 0.0 on empty
    input and on input that is not a duration of the grammar, without
    raising; a duration of the grammar followed by one newline counts as a
    duration, since [$] accepts it. On a duration, with H, M and S the
    numbers in its hour, minute and second fields, 0 for a field that is
    absent, it computes round(float(H) + M/60 + S/3600, 2) in doubles; when
    each of the three fields has at most 300 digits this raises nothing and
    the decoder returns the rounded value. It maps "" to 0.0, "garbage" to
    0.0, "PT5H30M" to 5.5 and "PT45M" to 0.75. *)
Theorem duration_decoded_leniently :
  iso_duration_to_hours "" = Ok fzero
  /\ (forall (s : string) (h mi se : option string),
        conforms s h mi se
        <-> (conforms_by_spec s h mi se
             \/ exists s0 : string,
                  s = s0 +:+ String newline ""
                  /\ conforms_by_spec s0 h mi se))
  /\ (forall s : string,
        (forall h mi se : option string, ~ conforms s h mi se) ->
        iso_duration_to_hours s = Ok fzero)
  /\ (forall (s : string) (h mi se : option string),
        conforms s h mi se ->
        iso_duration_to_hours s
        = (hv <- int_field h ;;
           mv <- int_field mi ;;
           sv <- int_field se ;;
           hours_of hv mv sv))
  /\ (forall (s : string) (h mi se : option string),
        conforms s h mi se ->
        (field_digits h <= 300)%nat ->
        (field_digits mi <= 300)%nat ->
        (field_digits se <= 300)%nat ->
        exists x : spec_float,
          hours_of (field_number h) (field_number mi) (field_number se) = Ok x
          /\ iso_duration_to_hours s = Ok x)
  /\ iso_duration_to_hours "garbage" = Ok fzero
  /\ iso_duration_to_hours "PT5H30M" = Ok (decimal 55 1)
  /\ iso_duration_to_hours "PT45M" = Ok (decimal 75 2).
Proof.
  assert (Hconf : forall (s : string) (h mi se : option string),
            conforms s h mi se ->
            iso_duration_to_hours s
            = (hv <- int_field h ;;
               mv <- int_field mi ;;
               sv <- int_field se ;;
               hours_of hv mv sv)).
  { intros s h mi se Hc. unfold iso_duration_to_hours.
    rewrite (conforms_not_empty _ _ _ _ Hc), re_match_parse_duration,
      (parse_duration_complete _ _ _ _ Hc).
    destruct (conforms_numbers _ _ _ _ Hc) as (Hh & Hmi & Hse).
    destruct (int_group_time_captures h mi se Hh Hmi Hse) as (-> & -> & ->).
    reflexivity. }
  split; [reflexivity|]. split; [exact conforms_by_spec_or_newline|].
  split; [|split; [exact Hconf|split]].
  - intros s Hnot. unfold iso_duration_to_hours.
    destruct (is_empty s); [reflexivity|].
    rewrite re_match_parse_duration.
    destruct (parse_duration s) as [caps|] eqn:E; [|reflexivity].
    destruct (parse_duration_sound _ _ E) as (h & mi & se & Hc & _).
    now destruct (Hnot h mi se).
  - intros s h mi se Hc Lh Lmi Lse. rewrite (Hconf _ _ _ _ Hc).
    destruct (conforms_numbers _ _ _ _ Hc) as (Hh & Hmi & Hse).
    rewrite !int_field_small by assumption. cbn [rbind].
    destruct (hours_of_ok (field_number h) (field_number mi) (field_number se))
      as [x Hx]; try (apply field_number_small; assumption).
    now exists x.
  - repeat split; vm_compute; reflexivity.
Qed.

(** No duration of the grammar as the specification words it ends with a
    newline. *)
Lemma newline_duration_not_by_spec (h mi se : option string) :
  ~ conforms_by_spec newline_duration h mi se.
Proof.
  intros H. apply conforms_by_spec_no_newline in H. discriminate H.
Qed.

(** ** Further properties of the program *)

(** *** Month bounds: what is accepted *)

(** X1: [month_bounds] returns a pair exactly on a string that reads as a
    year from 1 to 9999 and a month from 1 to 12; the pair is then the first
    day of that month and its last day, which is the 28th to the 31st. On
    every other string it raises [ValueError] or [OverflowError]. *)
Theorem month_bounds_accepts_exactly :
  (forall (ym : string) (first last : date),
     month_bounds ym = Ok (first, last)
     <-> exists y m : Z,
           parses_as_year_month ym y m
           /\ 1 <= y <= 9999 /\ 1 <= m <= 12
           /\ first = {| year := y; month := m; day := 1 |}
           /\ last = {| year := y; month := m; day := days_in_month y m |})
  /\ (forall (ym : string) (first last : date),
        month_bounds ym = Ok (first, last) ->
        year first = year last /\ month first = month last
        /\ day first = 1 /\ 28 <= day last <= 31)
  /\ (forall (ym : string) (e : exn),
        month_bounds ym = Raise e -> e = ValueError \/ e = OverflowError).
Proof.
  assert (Hiff : forall (ym : string) (first last : date),
     month_bounds ym = Ok (first, last)
     <-> exists y m : Z,
           parses_as_year_month ym y m
           /\ 1 <= y <= 9999 /\ 1 <= m <= 12
           /\ first = {| year := y; month := m; day := 1 |}
           /\ last = {| year := y; month := m; day := days_in_month y m |}).
  { intros ym first last. split.
    - unfold month_bounds.
      destruct (split_on "-" ym) as [|a [|b [|c l]]] eqn:Es; try discriminate.
      destruct (py_int a) as [y|] eqn:Ey; [|discriminate].
      destruct (py_int b) as [m|] eqn:Em; [|discriminate].
      cbn [rbind]. unfold make_date at 1.
      destruct (negb (fits_c_int y && _ && _)); [discriminate|].
      destruct (negb ((MINYEAR <=? y) && _)) eqn:Ry; [discriminate|].
      destruct (negb ((1 <=? m) && (m <=? 12))) eqn:Rm; [discriminate|].
      destruct (negb ((1 <=? 1) && _)); [discriminate|].
      apply negb_false_iff in Ry, Rm.
      cbn [rbind]. unfold monthrange_ndays, make_date. rewrite Ry, Rm.
      cbn [rbind negb].
      destruct (negb (fits_c_int y && _ && _)); [discriminate|].
      destruct (negb ((1 <=? days_in_month y m) && _)); [discriminate|].
      cbn [rbind]. intros [= <- <-]. exists y, m.
      unfold MINYEAR, MAXYEAR in Ry.
      split; [now exists a, b|]. repeat split; lia.
    - intros (y & m & (a & b & Es & Ey & Em) & Hy & Hm & -> & ->).
      unfold month_bounds. rewrite Es, Ey, Em. cbn [rbind].
      pose proof (days_in_month_range y m Hm) as Hd.
      unfold make_date, monthrange_ndays, fits_c_int, MINYEAR, MAXYEAR.
      repeat (repeat match goal with
                     | |- context [?x <=? ?y] =>
                         assert ((x <=? y) = true) as -> by lia
                     end;
              cbn [andb negb rbind]).
      reflexivity. }
  split; [exact Hiff|]. split.
  - intros ym first last H.
    apply Hiff in H as (y & m & _ & _ & Hm & -> & ->).
    pose proof (days_in_month_range y m Hm). simpl. repeat split; lia.
  - intros ym e H. apply month_bounds_raises_invalid_month in H.
    unfold InvalidMonthError in H. simpl in H.
    destruct H as [<- | [<- | []]]; [now left | now right].
Qed.

(** X2: the format is not enforced beyond what [int] reads: for every year
    from 1 to 9999 and month from 1 to 12, written in decimal digits of any
    number up to 640, with or without leading zeros, [month_bounds] returns
    the bounds of that month. So "2024-2" is read as February 2024. *)
Theorem month_bounds_reads_any_digits (a b : string) :
  all_chars is_digit a = true -> a <> "" -> (String.length a <= 640)%nat ->
  all_chars is_digit b = true -> b <> "" -> (String.length b <= 640)%nat ->
  1 <= digits_number 0 a <= 9999 ->
  1 <= digits_number 0 b <= 12 ->
  month_bounds (a +:+ "-" +:+ b)
  = Ok ({| year := digits_number 0 a; month := digits_number 0 b; day := 1 |},
        {| year := digits_number 0 a; month := digits_number 0 b;
           day := days_in_month (digits_number 0 a) (digits_number 0 b) |}).
Proof.
  intros Ha Hane Hal Hb Hbne Hbl Hy Hm.
  apply (month_bounds_parts a b); try assumption.
  - apply (all_chars_impl is_digit); [apply digit_not_dash | exact Ha].
  - apply (all_chars_impl is_digit); [apply digit_not_dash | exact Hb].
  - now apply py_int_digits.
  - now apply py_int_digits.
Qed.
(** *** The comment of an entry *)

Lemma split_ws_from_word (w cur rest : string) :
  all_chars not_space w = true ->
  split_ws_from cur (w +:+ rest) = split_ws_from (cur +:+ w) rest.
Proof.
  revert cur. induction w as [|c w IH]; intros cur Hw.
  - now rewrite append_empty_r.
  - simpl in Hw. apply andb_prop in Hw as [Hc Hw].
    unfold not_space in Hc. apply negb_true_iff in Hc.
    simpl. rewrite Hc, (IH _ Hw), append_assoc. reflexivity.
Qed.

Lemma split_ws_from_words (s cur : string) :
  all_chars not_space cur = true ->
  Forall is_word (split_ws_from cur s).
Proof.
  revert cur. induction s as [|c s IH]; intros cur Hcur; simpl.
  - destruct (is_empty cur) eqn:E; [constructor|].
    constructor; [|constructor]. split; [now apply is_empty_false | exact Hcur].
  - destruct (is_space c) eqn:Ec.
    + destruct (is_empty cur) eqn:E; [now apply IH|].
      constructor; [|now apply IH].
      split; [now apply is_empty_false | exact Hcur].
    + apply IH. rewrite all_chars_app, Hcur. simpl.
      unfold not_space. now rewrite Ec.
Qed.

Lemma split_ws_join (ws : list string) :
  Forall is_word ws -> split_ws (join " " ws) = ws.
Proof.
  unfold split_ws. induction 1 as [|w ws [Hne Hw] Hws IH]; [reflexivity|].
  destruct ws as [|w2 ws].
  - simpl. rewrite <- (append_empty_r w) at 1.
    rewrite (split_ws_from_word _ _ _ Hw). simpl.
    destruct w; [congruence | reflexivity].
  - change (join " " (w :: w2 :: ws)) with (w +:+ " " +:+ join " " (w2 :: ws)).
    rewrite (split_ws_from_word _ _ _ Hw). simpl.
    destruct w; [congruence|]. simpl. f_equal. exact IH.
Qed.

Lemma word_not_led (w t : string) :
  is_word w -> starts_with " " (w +:+ t) = false.
Proof.
  intros [Hne Hw]. destruct w as [|c w]; [congruence|]. simpl in *.
  apply andb_prop in Hw as [Hc _]. now destruct (Ascii.eqb_spec c " ") as [->|].
Qed.

Lemma word_not_ended (w : string) : is_word w -> ends_with " " w = false.
Proof.
  intros [Hne Hw]. induction w as [|c w IH]; [congruence|].
  simpl in Hw. apply andb_prop in Hw as [Hc Hw]. destruct w as [|d w].
  - simpl. now destruct (Ascii.eqb_spec c " ") as [->|].
  - apply IH; [discriminate | exact Hw].
Qed.

Lemma join_words_not_led (ws : list string) :
  Forall is_word ws -> starts_with " " (join " " ws) = false.
Proof.
  intros H. destruct H as [|w l Hw Hws]; [reflexivity|].
  destruct l as [|w2 l].
  - simpl. rewrite <- (append_empty_r w). now apply word_not_led.
  - now apply word_not_led.
Qed.

Lemma join_words_not_ended (ws : list string) :
  Forall is_word ws -> ends_with " " (join " " ws) = false.
Proof.
  induction 1 as [|w ws Hw Hws IH]; [reflexivity|]. destruct ws as [|w2 ws].
  - now apply word_not_ended.
  - change (join " " (w :: w2 :: ws)) with (w +:+ " " +:+ join " " (w2 :: ws)).
    inversion Hws as [|? ? [Hne2 _] _]; subst.
    rewrite ends_with_app.
    + rewrite ends_with_app; [exact IH|].
      destruct w2; [congruence|]. destruct ws; discriminate.
    + apply app_not_empty_r. destruct w2; [congruence|]. destruct ws; discriminate.
Qed.

Lemma word_blank_or_not_space (w : string) :
  all_chars not_space w = true -> all_chars blank_or_not_space w = true.
Proof.
  apply all_chars_impl. intros c H. unfold blank_or_not_space. now rewrite H.
Qed.

Lemma join_words_blanks_only (ws : list string) :
  Forall is_word ws -> all_chars blank_or_not_space (join " " ws) = true.
Proof.
  induction 1 as [|w ws [_ Hw] Hws IH]; [reflexivity|]. destruct ws as [|w2 ws].
  - now apply word_blank_or_not_space.
  - change (join " " (w :: w2 :: ws)) with (w +:+ " " +:+ join " " (w2 :: ws)).
    rewrite !all_chars_app, IH, (word_blank_or_not_space _ Hw). reflexivity.
Qed.

Lemma no_adjacent_cons (c a : ascii) (r : string) :
  Ascii.eqb a c = false -> no_adjacent c r = true ->
  no_adjacent c (String a r) = true.
Proof.
  intros Ha Hr. destruct r as [|b r]; [reflexivity|].
  change (negb (Ascii.eqb a c && Ascii.eqb b c) && no_adjacent c (String b r)
          = true).
  now rewrite Ha, Hr.
Qed.

Lemma no_adjacent_word (w t : string) :
  all_chars not_space w = true ->
  no_adjacent " " t = true ->
  no_adjacent " " (w +:+ t) = true.
Proof.
  intros Hw Ht. induction w as [|c w IH]; [exact Ht|].
  simpl in Hw. apply andb_prop in Hw as [Hc Hw].
  change (String c w +:+ t) with (String c (w +:+ t)).
  apply no_adjacent_cons; [|now apply IH].
  now destruct (Ascii.eqb_spec c " ") as [->|].
Qed.

Lemma join_words_no_adjacent (ws : list string) :
  Forall is_word ws -> no_adjacent " " (join " " ws) = true.
Proof.
  induction 1 as [|w ws [_ Hw] Hws IH]; [reflexivity|]. destruct ws as [|w2 ws].
  - rewrite <- (append_empty_r w). now apply no_adjacent_word.
  - change (join " " (w :: w2 :: ws)) with (w +:+ " " +:+ join " " (w2 :: ws)).
    apply no_adjacent_word; [exact Hw|].
    pose proof (join_words_not_led _ Hws) as Hled.
    change (" " +:+ join " " (w2 :: ws)) with (String " " (join " " (w2 :: ws))).
    destruct (join " " (w2 :: ws)) as [|a r] eqn:E; [reflexivity|].
    change (no_adjacent " " (String " " (String a r)))
      with (negb (Ascii.eqb " " " " && Ascii.eqb a " ")
            && no_adjacent " " (String a r)).
    simpl in Hled. rewrite Hled, IH. reflexivity.
Qed.

Lemma entry_comment_text (te : json) (c : string) :
  entry_comment te = Ok c ->
  exists text : string, c = join " " (split_ws text).
Proof.
  unfold entry_comment.
  destruct (py_get te "comment" JNull) as [cm|]; [|discriminate]. cbn [rbind].
  destruct (py_get (py_or cm (JObj [])) "raw" JNull) as [raw|]; [|discriminate].
  cbn [rbind].
  destruct (py_or raw (JStr "")) as [| | | |text| |]; try discriminate.
  intros [= <-]. now exists text.
Qed.

(** X10: the comment of a row is the raw comment with every run of whitespace
    (blanks, tabs, newlines) turned into one blank and none left at the ends:
    it neither begins nor ends with a blank, holds no whitespace but single
    blanks, and collapsing it again changes nothing. Its words are the words
    of the raw comment, in order. *)
Theorem comment_whitespace_collapsed :
  (forall (te : json) (c : string),
     entry_comment te = Ok c ->
     starts_with " " c = false /\ ends_with " " c = false
     /\ all_chars blank_or_not_space c = true
     /\ no_adjacent " " c = true
     /\ join " " (split_ws c) = c)
  /\ (forall (kvs craw : list (string * json)) (text : string),
        assoc "comment" kvs = Some (JObj craw) ->
        assoc "raw" craw = Some (JStr text) ->
        exists c : string,
          entry_comment (JObj kvs) = Ok c
          /\ c = join " " (split_ws text)
          /\ split_ws c = split_ws text).
Proof.
  split.
  - intros te c H. destruct (entry_comment_text _ _ H) as [text ->].
    assert (Hws : Forall is_word (split_ws text))
      by (apply split_ws_from_words; reflexivity).
    split; [now apply join_words_not_led|].
    split; [now apply join_words_not_ended|].
    split; [now apply join_words_blanks_only|].
    split; [now apply join_words_no_adjacent|].
    now rewrite split_ws_join.
  - intros kvs craw text Hc Hraw.
    exists (join " " (split_ws text)).
    assert (Hws : Forall is_word (split_ws text))
      by (apply split_ws_from_words; reflexivity).
    split; [|split; [reflexivity | now apply split_ws_join]].
    unfold entry_comment. cbn [py_get]. rewrite Hc.
    cbn [default from_option id rbind].
    destruct craw as [|kv craw]; [discriminate|].
    cbn [py_or py_truthy py_get]. rewrite Hraw.
    cbn [default from_option id rbind].
    destruct text; reflexivity.
Qed.
(** *** One entry: what aborts it, and what it asks of the server *)

Lemma entry_fields_hours (kvs : list (string * json)) :
  entry_fields (JObj kvs)
  = (hours <- iso_duration_to_hours_obj (hours_of_entry kvs) ;;
     comment <- entry_comment (JObj kvs) ;;
     links <- py_get (JObj kvs) "_links" (JObj []) ;;
     entity <- link_of links "entity" ;;
     activity <- link_of links "activity" ;;
     entity_href <- py_get entity "href" (JStr "") ;;
     title <- py_get activity "title" JNull ;;
     Ok (default JNull (assoc "spentOn" kvs), hours, comment, links,
         parse_entity_id_obj entity_href, py_or title (JStr ""))).
Proof. reflexivity. Qed.

(** X11: an entry that is not an object, whose [hours] is a true value other
    than a string, whose [comment] is a true value other than an object, or
    whose [_links] is not an object makes the loop body raise, before the
    location is looked at and so before any request: the duration decoder is
    lenient on strings only. *)
Theorem malformed_entry_aborts (srv : server) (s : session) (cf : string) :
  (forall te : json,
     is_object te = false ->
     process_entry srv s cf te = (Raise AttributeError, s))
  /\ (forall (kvs : list (string * json)) (v : json),
        assoc "hours" kvs = Some v ->
        py_truthy v = true -> is_string v = false ->
        process_entry srv s cf (JObj kvs) = (Raise TypeError, s))
  /\ (forall (kvs : list (string * json)) (v : json),
        is_ok (iso_duration_to_hours_obj (hours_of_entry kvs)) = true ->
        assoc "comment" kvs = Some v ->
        py_truthy v = true -> is_object v = false ->
        process_entry srv s cf (JObj kvs) = (Raise AttributeError, s))
  /\ (forall (kvs : list (string * json)) (v : json),
        is_ok (iso_duration_to_hours_obj (hours_of_entry kvs)) = true ->
        is_ok (entry_comment (JObj kvs)) = true ->
        assoc "_links" kvs = Some v ->
        is_object v = false ->
        process_entry srv s cf (JObj kvs) = (Raise AttributeError, s)).
Proof.
  split; [|split; [|split]].
  - intros te H. now destruct te.
  - intros kvs v Hv Ht Hs. unfold process_entry.
    rewrite entry_fields_hours. unfold hours_of_entry. rewrite Hv.
    cbn [default from_option id]. unfold iso_duration_to_hours_obj.
    rewrite Ht. now destruct v.
  - intros kvs v Hh Hv Ht Ho. unfold process_entry.
    rewrite entry_fields_hours.
    destruct (iso_duration_to_hours_obj (hours_of_entry kvs)); [|discriminate].
    cbn [rbind]. unfold entry_comment. cbn [py_get]. rewrite Hv.
    cbn [default from_option id rbind]. unfold py_or. rewrite Ht.
    now destruct v.
  - intros kvs v Hh Hc Hv Ho. unfold process_entry.
    rewrite entry_fields_hours.
    destruct (iso_duration_to_hours_obj (hours_of_entry kvs)); [|discriminate].
    destruct (entry_comment (JObj kvs)); [|discriminate].
    cbn [rbind py_get]. rewrite Hv. cbn [default from_option id rbind].
    unfold link_of. now destruct v.
Qed.

Lemma entry_location_no_lookup (srv : server) (s : session) (cf : string)
    (kvs : list (string * json)) (links : json) :
  strip is_space cf = "" \/ py_has_key kvs (strip is_space cf) = true ->
  entry_location srv s cf kvs links
  = (Ok (if is_empty (strip is_space cf) then default_location
         else py_or (default JNull (assoc (strip is_space cf) kvs))
                default_location), s).
Proof.
  intros H. unfold entry_location.
  destruct (is_empty (strip is_space cf)) eqn:E; [reflexivity|].
  destruct H as [H | H]; [now rewrite H in E|]. now rewrite H.
Qed.

(** X12: with no location key configured, or with a key that names a field of
    the entry, the loop body sends no request and leaves the session as it
    is, and the row does not depend on the server or on the session. *)
Theorem entry_without_link_asks_nothing (srv srv' : server) (s s0 : session)
    (cf : string) (te : json) :
  (strip is_space cf = ""
   \/ exists kvs : list (string * json),
        te = JObj kvs /\ py_has_key kvs (strip is_space cf) = true) ->
  snd (process_entry srv s cf te) = s
  /\ fst (process_entry srv' s0 cf te) = fst (process_entry srv s cf te).
Proof.
  intros H. unfold process_entry. destruct te as [| | | | | |kvs];
    try (split; reflexivity).
  destruct (entry_fields (JObj kvs))
    as [[[[[[spent hours] comment] links] a] act]|e]; [|split; reflexivity].
  assert (Hk : strip is_space cf = ""
               \/ py_has_key kvs (strip is_space cf) = true).
  { destruct H as [H | (kvs' & [= <-] & H)]; [now left | now right]. }
  rewrite !(entry_location_no_lookup _ _ _ _ _ Hk). split; reflexivity.
Qed.

Lemma fetch_json_requests (srv : server) (s : session) (url : string) :
  snd (fetch_json srv s url) = with_request s url.
Proof. unfold fetch_json. now destruct (srv url). Qed.

Lemma resolve_requests (srv : server) (s : session) (href : string) :
  let s' := snd (resolve_custom_option_value srv s href) in
  base_url s' = base_url s
  /\ (requests_sent s' = requests_sent s
      \/ exists url : string, requests_sent s' = requests_sent s ++ [url]).
Proof.
  unfold resolve_custom_option_value.
  destruct (is_empty href); [split; [reflexivity | now left]|].
  destruct (default ∅ (custom_opt_cache s) !! href);
    [split; [reflexivity | now left]|].
  cbn [base_url with_cache].
  destruct (urljoin (base_url s) href) as [url|e];
    [|split; [reflexivity | now left]].
  pose proof (fetch_json_requests srv
                (with_cache s (default ∅ (custom_opt_cache s))) url) as Hf.
  destruct (fetch_json srv (with_cache s (default ∅ (custom_opt_cache s))) url)
    as [r s2]. simpl in Hf. subst s2.
  destruct (data <- r ;; py_get data "value" (JStr ""));
    (split; [reflexivity | right; now exists url]).
Qed.

Lemma entry_location_requests (srv : server) (s : session) (cf : string)
    (kvs : list (string * json)) (links : json) :
  base_url (snd (entry_location srv s cf kvs links)) = base_url s
  /\ (requests_sent (snd (entry_location srv s cf kvs links)) = requests_sent s
      \/ exists url : string,
           requests_sent (snd (entry_location srv s cf kvs links))
           = requests_sent s ++ [url]).
Proof.
  unfold entry_location.
  destruct (is_empty (strip is_space cf)); [split; [reflexivity | now left]|].
  destruct (py_has_key kvs (strip is_space cf));
    [split; [reflexivity | now left]|].
  destruct (l <- link_of links (strip is_space cf) ;; py_get l "href" (JStr ""))
    as [cf_link|e]; [|split; [reflexivity | now left]].
  destruct (py_truthy cf_link); [|split; [reflexivity | now left]].
  destruct cf_link as [| | | |href| |];
    try (cbn [resolve_custom_option_value_obj]; split; [reflexivity | now left]).
  cbn [resolve_custom_option_value_obj].
  pose proof (resolve_requests srv s href) as Hr. cbv zeta in Hr.
  now destruct (resolve_custom_option_value srv s href) as [r s'].
Qed.

(** X13: the loop body sends at most one request for an entry, the one that
    resolves the option of its location, and never changes
    [session.base_url]. *)
Theorem entry_sends_at_most_one_request (srv : server) (s : session)
    (cf : string) (te : json) :
  base_url (snd (process_entry srv s cf te)) = base_url s
  /\ (requests_sent (snd (process_entry srv s cf te)) = requests_sent s
      \/ exists url : string,
           requests_sent (snd (process_entry srv s cf te))
           = requests_sent s ++ [url]).
Proof.
  unfold process_entry. destruct te as [| | | | | |kvs];
    try (split; [reflexivity | now left]).
  destruct (entry_fields (JObj kvs))
    as [[[[[[spent hours] comment] links] a] act]|e];
    [|split; [reflexivity | now left]].
  pose proof (entry_location_requests srv s cf kvs links) as H.
  now destruct (entry_location srv s cf kvs links) as [loc s'].
Qed.

Lemma process_entry_appends (srv : server) (s : session) (cf : string)
    (te : json) :
  exists more : list string,
    requests_sent (snd (process_entry srv s cf te)) = requests_sent s ++ more.
Proof.
  unfold process_entry. destruct te as [| | | | | |kvs];
    try (exists []; simpl; now rewrite app_nil_r).
  destruct (entry_fields (JObj kvs))
    as [[[[[[spent hours] comment] links] a] act]|e];
    [|exists []; simpl; now rewrite app_nil_r].
  destruct (entry_location_requests srv s cf kvs links) as [_ H].
  destruct (entry_location srv s cf kvs links) as [loc s']. simpl in *.
  destruct H as [-> | [url ->]]; [exists []; now rewrite app_nil_r|].
  now exists [url].
Qed.
(** *** Durations: the date part, and what can be raised *)

Lemma iso_duration_of_fields (s : string) (h mi se : option string) :
  conforms s h mi se ->
  iso_duration_to_hours s
  = (hv <- int_field h ;;
     mv <- int_field mi ;;
     sv <- int_field se ;;
     hours_of hv mv sv).
Proof.
  intros Hc. unfold iso_duration_to_hours.
  rewrite (conforms_not_empty _ _ _ _ Hc), re_match_parse_duration,
    (parse_duration_complete _ _ _ _ Hc).
  destruct (conforms_numbers _ _ _ _ Hc) as (Hh & Hmi & Hse).
  destruct (int_group_time_captures h mi se Hh Hmi Hse) as (-> & -> & ->).
  reflexivity.
Qed.

Lemma iso_duration_not_zero (s : string) :
  iso_duration_to_hours s <> Ok fzero ->
  exists h mi se : option string, conforms s h mi se.
Proof.
  unfold iso_duration_to_hours. destruct (is_empty s); [congruence|].
  rewrite re_match_parse_duration.
  destruct (parse_duration s) as [caps|] eqn:E; [|congruence].
  intros _. destruct (parse_duration_sound _ _ E) as (h & mi & se & Hc & _).
  now exists h, mi, se.
Qed.

(** X3: the years, months and days of a duration do not count: two durations
    with the same hour, minute and second fields decode alike, and a duration
    without a time field, such as one of days only, decodes to 0.0. *)
Theorem duration_date_part_ignored :
  (forall (s s' : string) (h mi se : option string),
     conforms s h mi se -> conforms s' h mi se ->
     iso_duration_to_hours s = iso_duration_to_hours s')
  /\ (forall s : string,
        conforms s None None None -> iso_duration_to_hours s = Ok fzero).
Proof.
  split.
  - intros s s' h mi se Hs Hs'.
    now rewrite (iso_duration_of_fields _ _ _ _ Hs),
      (iso_duration_of_fields _ _ _ _ Hs').
  - intros s Hs. rewrite (iso_duration_of_fields _ _ _ _ Hs).
    vm_compute. reflexivity.
Qed.

Lemma py_int_digits_any (s : string) :
  all_chars is_digit s = true ->
  s <> "" ->
  py_int s = if too_many_digits (String.length s) then Raise ValueError
             else Ok (digits_number 0 s).
Proof.
  intros Hall Hne. unfold py_int, strip.
  assert (Hns : all_chars (fun c => negb (is_int_space c)) s = true).
  { apply (all_chars_impl is_digit); [|exact Hall].
    intros c Hc. now destruct (digit_properties c Hc) as [-> _]. }
  rewrite (lstrip_none _ _ Hns), (rstrip_none _ _ Hns).
  destruct s as [|c s]; [congruence|].
  assert (Hc : is_digit c = true) by (simpl in Hall; now apply andb_prop in Hall).
  destruct (digit_properties c Hc) as (_ & Hm & Hp & _).
  assert (Hsign : match String c s with
                  | String "+" rest => (false, rest)
                  | String "-" rest => (true, rest)
                  | _ => (false, String c s)
                  end = (false, String c s)).
  { clear -Hm Hp. destruct c as [[] [] [] [] [] [] [] []];
      try reflexivity; vm_compute in Hm, Hp; discriminate. }
  rewrite Hsign, read_digits_all by (assumption || now left).
  reflexivity.
Qed.

Lemma int_field_raises (o : option string) (e : exn) :
  number_ok o ->
  int_field o = Raise e ->
  e = ValueError /\ (0 < max_str_digits)%nat /\ (640 < field_digits o)%nat.
Proof.
  destruct o as [ds|]; [|discriminate]. intros [Hne Hall].
  cbn [int_field field_digits]. rewrite (py_int_digits_any _ Hall Hne).
  unfold too_many_digits.
  destruct (640 <? String.length ds)%nat eqn:E1; [|discriminate].
  destruct (0 <? max_str_digits)%nat eqn:E2; [|discriminate].
  destruct (max_str_digits <? String.length ds)%nat; [|discriminate].
  intros [= <-]. apply Nat.ltb_lt in E1, E2. now repeat split.
Qed.

Lemma finite_or_overflow_raises {f : spec_float} {e : exn} :
  finite_or_overflow f = Raise e -> e = OverflowError.
Proof. destruct f; simpl; congruence. Qed.

Lemma int_true_div_raises {a : Z} {b : positive} {e : exn} :
  int_true_div a b = Raise e -> e = OverflowError.
Proof.
  unfold int_true_div. destruct a; [discriminate| |];
    destruct (SFdiv_core_binary _ _ _ _ _ _) as [[q e'] l];
    apply finite_or_overflow_raises.
Qed.

Lemma hours_of_raises (h mnts sec : Z) (e : exn) :
  hours_of h mnts sec = Raise e -> e = OverflowError.
Proof.
  unfold hours_of.
  destruct (int_true_div mnts 60) as [q_m|e1] eqn:E1; cbn [rbind];
    [|intros [= <-]; exact (int_true_div_raises E1)].
  destruct (float_of_int h) as [f_h|e2] eqn:E2; cbn [rbind];
    [|intros [= <-]; exact (finite_or_overflow_raises E2)].
  destruct (int_true_div sec 3600) as [q_s|e3] eqn:E3; cbn [rbind];
    [|intros [= <-]; exact (int_true_div_raises E3)].
  unfold py_round.
  destruct (fadd (fadd f_h q_m) q_s) as [| | |sg m ex]; try discriminate.
  destruct (if 0 <=? ex then _ else _); [discriminate| |];
    (match goal with
     | |- context [int_true_div ?a ?b] =>
         destruct (int_true_div a b) as [f|e4] eqn:E4
     end;
     [discriminate | intros [= <-]; exact (int_true_div_raises E4)]).
Qed.

(** X4: on a string the decoder raises nothing but [OverflowError], or
    [ValueError] where the interpreter limits the digits of [int], and only
    on a duration of the grammar one of whose hour, minute and second fields
    has more than 300 digits. *)
Theorem duration_raises_only_on_huge_fields (s : string) (e : exn) :
  iso_duration_to_hours s = Raise e ->
  (e = OverflowError \/ (e = ValueError /\ (0 < max_str_digits)%nat))
  /\ exists h mi se : option string,
       conforms s h mi se
       /\ ((300 < field_digits h)%nat \/ (300 < field_digits mi)%nat
           \/ (300 < field_digits se)%nat).
Proof.
  intros H.
  destruct (iso_duration_not_zero s) as (h & mi & se & Hc);
    [rewrite H; discriminate|].
  rewrite (iso_duration_of_fields _ _ _ _ Hc) in H.
  destruct (conforms_numbers _ _ _ _ Hc) as (Hh & Hmi & Hse).
  assert (Hbig : (300 < field_digits h)%nat \/ (300 < field_digits mi)%nat
                 \/ (300 < field_digits se)%nat).
  { destruct (le_gt_dec (field_digits h) 300) as [Lh|]; [|left; lia].
    destruct (le_gt_dec (field_digits mi) 300) as [Lmi|]; [|right; left; lia].
    destruct (le_gt_dec (field_digits se) 300) as [Lse|]; [|right; right; lia].
    exfalso. rewrite !int_field_small in H by assumption. cbn [rbind] in H.
    destruct (hours_of_ok (field_number h) (field_number mi) (field_number se))
      as [x Hx]; try (apply field_number_small; assumption).
    congruence. }
  split; [|now exists h, mi, se].
  destruct (int_field h) as [hv|e1] eqn:E1.
  - destruct (int_field mi) as [mv|e2] eqn:E2.
    + destruct (int_field se) as [sv|e3] eqn:E3.
      * cbn [rbind] in H. left. exact (hours_of_raises _ _ _ _ H).
      * injection H as <-. right.
        destruct (int_field_raises _ _ Hse E3) as (-> & Hl & _). now split.
    + injection H as <-. right.
      destruct (int_field_raises _ _ Hmi E2) as (-> & Hl & _). now split.
  - injection H as <-. right.
    destruct (int_field_raises _ _ Hh E1) as (-> & Hl & _). now split.
Qed.
(** *** The pattern and the grammar *)

Lemma group_time_captures (h mi se : option string) :
  group "h" (time_captures h mi se) = h
  /\ group "m" (time_captures h mi se) = mi
  /\ group "s" (time_captures h mi se) = se.
Proof. destruct h, mi, se; repeat split; reflexivity. Qed.

(** X21: the pattern [ISO_DURATION_RE] accepts exactly the durations of the
    grammar (a final newline allowed), and its groups [h], [m] and [s] are
    the hour, minute and second fields, [None] for a field that is absent;
    so a string is a duration in one way only. *)
Theorem pattern_accepts_exactly_the_grammar :
  (forall (s : string) (h mi se : option string),
     conforms s h mi se ->
     exists m : captures,
       re_match ISO_DURATION_RE s = Some m
       /\ group "h" m = h /\ group "m" m = mi /\ group "s" m = se)
  /\ (forall (s : string) (m : captures),
        re_match ISO_DURATION_RE s = Some m ->
        conforms s (group "h" m) (group "m" m) (group "s" m))
  /\ (forall (s : string) (h mi se h' mi' se' : option string),
        conforms s h mi se -> conforms s h' mi' se' ->
        h = h' /\ mi = mi' /\ se = se').
Proof.
  split; [|split].
  - intros s h mi se Hc. exists (time_captures h mi se).
    split; [|apply group_time_captures].
    rewrite re_match_parse_duration. now apply parse_duration_complete.
  - intros s m Hm. rewrite re_match_parse_duration in Hm.
    destruct (parse_duration_sound _ _ Hm) as (h & mi & se & Hc & ->).
    now destruct (group_time_captures h mi se) as (-> & -> & ->).
  - intros s h mi se h' mi' se' Hc Hc'.
    pose proof (parse_duration_complete _ _ _ _ Hc) as E.
    rewrite (parse_duration_complete _ _ _ _ Hc') in E. injection E as E.
    destruct (group_time_captures h mi se) as (Eh & Em & Es).
    destruct (group_time_captures h' mi' se') as (Eh' & Em' & Es').
    rewrite E in Eh', Em', Es'. repeat split; congruence.
Qed.

(** *** The location is never a false value *)

Lemma or_remote_true (v : json) : py_truthy (py_or v default_location) = true.
Proof. unfold py_or. now destruct (py_truthy v) eqn:E. Qed.

Lemma entry_location_true (srv : server) (s s' : session) (cf : string)
    (kvs : list (string * json)) (links loc : json) :
  entry_location srv s cf kvs links = (Ok loc, s') -> py_truthy loc = true.
Proof.
  unfold entry_location.
  destruct (is_empty (strip is_space cf)); [now intros [= <- _]|].
  destruct (py_has_key kvs (strip is_space cf)).
  { intros [= <- _]. apply or_remote_true. }
  destruct (l <- link_of links (strip is_space cf) ;; py_get l "href" (JStr ""))
    as [cf_link|e]; [|discriminate].
  destruct (py_truthy cf_link); [|now intros [= <- _]].
  destruct (resolve_custom_option_value_obj srv s cf_link) as [[v|e] s1];
    cbn [rbind]; [|discriminate].
  intros [= <- _]. apply or_remote_true.
Qed.

(** X22: the location of a row is never a false value: it is the string
    "remote" wherever the field or the option gives null, false, zero or
    something empty. *)
Theorem location_is_never_false (srv : server) (s s' : session) (cf : string)
    (te : json) (r : row) :
  process_entry srv s cf te = (Ok r, s') ->
  py_truthy (Location r) = true
  /\ (empty_or_null (Location r) = false).
Proof.
  intros H.
  destruct (process_entry_ok _ _ _ _ _ _ H)
    as (kvs & spent & hours & comment & links & a & act & _ & _ & Hl & _).
  pose proof (entry_location_true _ _ _ _ _ _ _ Hl) as Ht.
  split; [exact Ht|].
  destruct (Location r) as [| | | |t|l|o]; try reflexivity; try discriminate.
  - now destruct t.
  - now destruct l.
  - now destruct o.
Qed.
(** *** The run: pages, entries and rows *)

Lemma main_loop_S (fuel : nat) (srv : server) (cf : string) (g : generator)
    (s : session) (rows : list row) :
  main_loop (S fuel) srv cf g s rows
  = match gen_step srv g s with
    | (Tau, g', s') => main_loop fuel srv cf g' s' rows
    | (Yield te, g', s') =>
        match process_entry srv s' cf te with
        | (Ok r, s'') => main_loop fuel srv cf g' s'' (rows ++ [r])
        | (Raise e, s'') => (Aborted e, rows, s'')
        end
    | (Return, _, s') => (Completed, rows, s')
    | (Raised e, _, s') => (Aborted e, rows, s')
    end.
Proof. reflexivity. Qed.

(** Inside a page the pending entries become rows one by one, in order. *)
Lemma main_loop_pending (srv : server) (cf : string) (n : nat)
    (els : list json) (data : json) (s s' : session) (rows : list row) :
  processed srv cf s els rows s' ->
  forall rows0 : list row,
    main_loop (length els + n) srv cf (InPage els data) s rows0
    = main_loop n srv cf (InPage [] data) s' (rows0 ++ rows).
Proof.
  induction 1 as [s | s s1 s2 te r tes rows Hte Hrest IH]; intros rows0.
  - now rewrite app_nil_r.
  - cbn [length Nat.add]. rewrite main_loop_S. cbn [gen_step]. rewrite Hte, IH.
    now rewrite <- app_assoc.
Qed.

Lemma process_entry_base_url (srv : server) (s s' : session) (cf : string)
    (te : json) (r : result row) :
  process_entry srv s cf te = (r, s') -> base_url s' = base_url s.
Proof.
  unfold process_entry. destruct te as [| | | | | |kvs]; try now intros [= _ <-].
  destruct (entry_fields (JObj kvs))
    as [[[[[[spent hours] comment] links] a] act]|e]; [|now intros [= _ <-]].
  destruct (entry_location srv s cf kvs links) as [loc s1] eqn:El.
  intros [= _ <-]. revert El. unfold entry_location.
  destruct (is_empty (strip is_space cf)); [now intros [= _ <-]|].
  destruct (py_has_key kvs (strip is_space cf)); [now intros [= _ <-]|].
  destruct (l <- link_of links (strip is_space cf) ;; py_get l "href" (JStr ""))
    as [cf_link|e]; [|now intros [= _ <-]].
  destruct (py_truthy cf_link); [|now intros [= _ <-]].
  destruct (resolve_custom_option_value_obj srv s cf_link) as [rv s2] eqn:Er.
  intros [= _ <-]. revert Er.
  destruct cf_link as [| | | |href| |]; cbn [resolve_custom_option_value_obj];
    try now intros [= _ <-].
  unfold resolve_custom_option_value.
  destruct (is_empty href); [now intros [= _ <-]|].
  destruct (default ∅ (custom_opt_cache s) !! href); [now intros [= _ <-]|].
  cbn [base_url with_cache].
  destruct (urljoin (base_url s) href) as [url|e]; [|now intros [= _ <-]].
  unfold fetch_json. destruct (srv url) as [rsp|];
    (destruct (data <- _ ;; py_get data "value" (JStr ""));
     now intros [= _ <-]).
Qed.

Lemma processed_base_url (srv : server) (cf : string) (s s' : session)
    (tes : list json) (rows : list row) :
  processed srv cf s tes rows s' -> base_url s' = base_url s.
Proof.
  induction 1 as [s | s s1 s2 te r tes rows Hte Hrest IH]; [reflexivity|].
  rewrite IH. exact (process_entry_base_url _ _ _ _ _ _ Hte).
Qed.

Lemma processed_length (srv : server) (cf : string) (s s' : session)
    (tes : list json) (rows : list row) :
  processed srv cf s tes rows s' -> length rows = length tes.
Proof. induction 1; simpl; congruence. Qed.

Lemma main_loop_exports (srv : server) (cf : string) (url : string)
    (s s' : session) (pages : list (list json)) (rows : list row) :
  exports srv cf url s pages rows s' ->
  forall (fuel : nat) (rows0 : list row),
    (length (concat pages) + 2 * length pages < fuel)%nat ->
    main_loop fuel srv cf (get_collection url) s rows0
    = (Completed, rows0 ++ rows, s').
Proof.
  unfold get_collection.
  induction 1 as [url s s' els rows Hpage Hrows
                 | url href url' s s1 s2 els rest rows rows' Hpage Hrows Hjoin
                     Hrest IH];
    intros fuel rows0 Hfuel.
  - destruct (gen_step_serves_page srv s url els None Hpage)
      as (data & Hnext & Hstep).
    simpl in Hfuel. rewrite app_nil_r in Hfuel.
    destruct fuel as [|fuel]; [lia|]. rewrite main_loop_S, Hstep.
    replace fuel with (length els + (fuel - length els))%nat by lia.
    rewrite (main_loop_pending _ _ _ _ _ _ _ _ Hrows).
    destruct (fuel - length els)%nat as [|n] eqn:En; [lia|].
    rewrite main_loop_S. cbn [gen_step].
    rewrite (next_link_absent _ _ Hnext).
    destruct n as [|n]; [lia|]. reflexivity.
  - destruct (gen_step_serves_page srv s url els (Some href) Hpage)
      as (data & Hnext & Hstep).
    simpl in Hfuel. rewrite length_app in Hfuel.
    destruct fuel as [|fuel]; [lia|]. rewrite main_loop_S, Hstep.
    replace fuel with (length els + (fuel - length els))%nat by lia.
    rewrite (main_loop_pending _ _ _ _ _ _ _ _ Hrows).
    destruct (fuel - length els)%nat as [|n] eqn:En; [lia|].
    rewrite main_loop_S. cbn [gen_step].
    rewrite (next_link_followed _ _ _ Hnext).
    rewrite (processed_base_url _ _ _ _ _ _ Hrows). cbn [base_url with_request].
    rewrite Hjoin. cbn [rbind].
    rewrite IH by lia. now rewrite app_assoc.
Qed.

Lemma exports_length (srv : server) (cf : string) (url : string)
    (s s' : session) (pages : list (list json)) (rows : list row) :
  exports srv cf url s pages rows s' -> length rows = length (concat pages).
Proof.
  induction 1 as [url s s' els rows Hpage Hrows
                 | url href url' s s1 s2 els rest rows rows' Hpage Hrows Hjoin
                     Hrest IH]; simpl.
  - rewrite app_nil_r. exact (processed_length _ _ _ _ _ _ Hrows).
  - rewrite !length_app, IH. f_equal.
    exact (processed_length _ _ _ _ _ _ Hrows).
Qed.

(** X16: when every page of a collection is served and every entry is turned
    into a row, the loop of [main] completes with one row for each element,
    in the order of the elements, after the rows it had; each page is
    requested when the entries of the page before it are done, and the
    session, with the cache of options, goes from one entry to the next. *)
Theorem export_makes_one_row_per_element (srv : server) (cf : string)
    (url : string) (s s' : session) (pages : list (list json))
    (rows rows0 : list row) (fuel : nat) :
  exports srv cf url s pages rows s' ->
  (length (concat pages) + 2 * length pages < fuel)%nat ->
  main_loop fuel srv cf (get_collection url) s rows0
  = (Completed, rows0 ++ rows, s')
  /\ length rows = length (concat pages).
Proof.
  intros Hexp Hfuel. split.
  - now apply (main_loop_exports srv cf url s s' pages rows).
  - exact (exports_length _ _ _ _ _ _ _ Hexp).
Qed.

(** X17: the first entry that the loop body rejects ends the run with its
    exception: the rows made so far are kept, the entries after it are not
    looked at, and the session is the one the failing entry left, so that no
    further page is requested even when the page links to one. *)
Theorem failing_entry_ends_the_run (srv : server) (cf : string) (url : string)
    (s s1 s2 : session) (done rest : list json) (te : json)
    (next : option string) (rows rows0 : list row) (e : exn) (fuel : nat) :
  serves_page srv url (done ++ te :: rest) next ->
  processed srv cf (with_request s url) done rows s1 ->
  process_entry srv s1 cf te = (Raise e, s2) ->
  (length done + 1 < fuel)%nat ->
  main_loop fuel srv cf (get_collection url) s rows0
  = (Aborted e, rows0 ++ rows, s2).
Proof.
  intros Hpage Hrows Hte Hfuel. unfold get_collection.
  destruct (gen_step_serves_page srv s url _ next Hpage)
    as (data & Hnext & Hstep).
  destruct fuel as [|fuel]; [lia|]. rewrite main_loop_S, Hstep.
  assert (Hpre : forall (n : nat) (rows1 : list row),
             main_loop (length done + n) srv cf
               (InPage (done ++ te :: rest) data) (with_request s url) rows1
             = main_loop n srv cf (InPage (te :: rest) data) s1
                 (rows1 ++ rows)).
  { clear -Hrows. remember (with_request s url) as s0 eqn:E0. clear E0.
    induction Hrows as [sa | sa sb sc te' r tes rows Hte' Hrest IH];
      intros n rows1.
    - now rewrite app_nil_r.
    - cbn [length Nat.add app]. rewrite main_loop_S. cbn [gen_step].
      rewrite Hte', IH. now rewrite <- app_assoc. }
  replace fuel with (length done + (fuel - length done))%nat by lia.
  rewrite Hpre.
  destruct (fuel - length done)%nat as [|n] eqn:En; [lia|].
  rewrite main_loop_S. cbn [gen_step]. now rewrite Hte.
Qed.

(** X7: a page that links to itself keeps the generator going for ever:
    however many steps it is given, it has neither returned nor raised. *)
Theorem self_linked_page_never_ends (srv : server) (s : session)
    (url href : string) (els : list json) :
  serves_page srv url els (Some href) ->
  urljoin (base_url s) href = Ok url ->
  forall fuel : nat,
    snd (fst (collect fuel srv (get_collection url) s)) = Unfinished.
Proof.
  intros Hpage Hjoin.
  inversion Hpage as [r data els' next Hne Hsrv Hstatus Hbody Hels Hnext];
    subst els' next.
  pose proof (holds_elements_page _ _ Hels) as Hpe.
  pose proof (next_link_followed (base_url s) _ _ Hnext) as Hnu.
  rewrite Hjoin in Hnu. cbn [rbind] in Hnu.
  assert (H : forall (fuel : nat) (s1 : session),
             base_url s1 = base_url s ->
             snd (fst (collect fuel srv (AtLoop (Some url)) s1)) = Unfinished
             /\ forall l : list json,
                  snd (fst (collect fuel srv (InPage l data) s1)) = Unfinished).
  { induction fuel as [|fuel IH]; intros s1 Hb; [now split|]. split.
    - rewrite collect_S,
        (gen_step_page srv s1 url r data els Hne Hsrv Hstatus Hbody Hpe).
      now apply IH.
    - intros [|el l]; rewrite collect_S; cbn [gen_step].
      + rewrite Hb, Hnu. now apply IH.
      + destruct (IH s1 Hb) as [_ Hl]. specialize (Hl l).
        now destruct (collect fuel srv (InPage l data) s1) as [[ys fin] s2]. }
  intros fuel. now apply H.
Qed.

Lemma bad_links_raise (base : string) (kvs : list (string * json)) :
  (exists v : json, assoc "_links" kvs = Some v /\ is_object v = false)
  \/ (exists (links : list (string * json)) (nb : json),
        assoc "_links" kvs = Some (JObj links)
        /\ assoc "nextByOffset" links = Some nb
        /\ py_truthy nb = true /\ is_object nb = false) ->
  next_url base (JObj kvs) = Raise AttributeError.
Proof.
  unfold next_url. cbn [py_get].
  intros [(v & -> & Hv) | (links & nb & -> & Hnb & Ht & Ho)];
    cbn [default from_option id rbind].
  - now destruct v.
  - cbn [py_get]. rewrite Hnb. cbn [default from_option id rbind].
    unfold py_or. rewrite Ht. now destruct nb.
Qed.

(** X6: a page whose elements are in place but whose [_links] is not an
    object, or whose [nextByOffset] link is a true value that is not an
    object (a non-empty string or list, a number other than zero, [true]):
    the generator yields all the elements of the page, and raises
    [AttributeError] only then, after the one request for the page. *)
Theorem page_with_bad_links_yields_then_raises (srv : server) (s : session)
    (url : string) (r : response) (kvs : list (string * json))
    (els : list json) (fuel : nat) :
  url <> "" ->
  srv url = Some r ->
  raise_for_status r = Ok tt ->
  body r = Some (JObj kvs) ->
  holds_elements (JObj kvs) els ->
  ((exists v : json, assoc "_links" kvs = Some v /\ is_object v = false)
   \/ (exists (links : list (string * json)) (nb : json),
         assoc "_links" kvs = Some (JObj links)
         /\ assoc "nextByOffset" links = Some nb
         /\ py_truthy nb = true /\ is_object nb = false)) ->
  (length els + 1 < fuel)%nat ->
  collect fuel srv (get_collection url) s
  = (els, Aborted AttributeError, with_request s url).
Proof.
  intros Hne Hsrv Hstatus Hbody Hels Hbad Hfuel. unfold get_collection.
  destruct fuel as [|fuel]; [lia|].
  rewrite collect_S,
    (gen_step_page srv s url r _ els Hne Hsrv Hstatus Hbody
       (holds_elements_page _ _ Hels)).
  replace fuel with (length els + (fuel - length els))%nat by lia.
  rewrite collect_pending.
  destruct (fuel - length els)%nat as [|n] eqn:En; [lia|].
  rewrite collect_S. cbn [gen_step].
  rewrite (bad_links_raise _ _ Hbad). now rewrite app_nil_r.
Qed.

(** *** Options that cannot be fetched *)

Lemma resolve_fetch_fails (srv : server) (s : session) (href url : string)
    (e : exn) :
  href <> "" ->
  cache_of s !! href = None ->
  urljoin (base_url s) href = Ok url ->
  option_fetch_fails srv url e ->
  resolve_custom_option_value srv s href
  = (Raise e,
     {| base_url := base_url s;
        custom_opt_cache := Some (cache_of s);
        requests_sent := requests_sent s ++ [url] |}).
Proof.
  intros Hne Hmiss Hjoin Hfail. unfold resolve_custom_option_value.
  destruct href as [|a href]; [congruence|]. simpl is_empty. cbv iota.
  fold (cache_of s). rewrite Hmiss. simpl base_url. rewrite Hjoin.
  unfold fetch_json.
  destruct Hfail as [Hsrv | r Hsrv Hst | r Hsrv Hst Hbody
                    | r data Hsrv Hst Hbody Hobj]; rewrite Hsrv.
  - reflexivity.
  - unfold raise_for_status.
    assert ((400 <=? status_code r) && (status_code r <? 600) = true) as ->
      by lia.
    reflexivity.
  - rewrite Hst. unfold response_json. rewrite Hbody. reflexivity.
  - rewrite Hst. unfold response_json. rewrite Hbody. now destruct data.
Qed.

(** X9: a failed fetch of an option raises and stores nothing: the cache is
    as it was, one request was sent, and the next call with the same href
    asks the server again and stores what it gets. *)
Theorem failed_option_fetch_is_not_cached (srv : server) (s : session)
    (href url : string) (e : exn) :
  href <> "" ->
  cache_of s !! href = None ->
  urljoin (base_url s) href = Ok url ->
  option_fetch_fails srv url e ->
  resolve_custom_option_value srv s href
  = (Raise e,
     {| base_url := base_url s;
        custom_opt_cache := Some (cache_of s);
        requests_sent := requests_sent s ++ [url] |})
  /\ forall (srv' : server) (r : response) (data : list (string * json)),
       srv' url = Some r ->
       raise_for_status r = Ok tt ->
       body r = Some (JObj data) ->
       resolve_custom_option_value srv'
         (snd (resolve_custom_option_value srv s href)) href
       = (Ok (default (JStr "") (assoc "value" data)),
          {| base_url := base_url s;
             custom_opt_cache :=
               Some (<[href := default (JStr "") (assoc "value" data)]>
                       (cache_of s));
             requests_sent := requests_sent s ++ [url; url] |}).
Proof.
  intros Hne Hmiss Hjoin Hfail.
  pose proof (resolve_fetch_fails srv s href url e Hne Hmiss Hjoin Hfail)
    as Hfirst.
  split; [exact Hfirst|].
  intros srv' r data Hsrv Hst Hbody. rewrite Hfirst. cbn [snd].
  unfold resolve_custom_option_value.
  destruct href as [|a href]; [congruence|]. simpl is_empty. cbv iota.
  cbn [custom_opt_cache default from_option id]. rewrite Hmiss.
  cbn [base_url with_cache]. rewrite Hjoin.
  unfold fetch_json. rewrite Hsrv, Hst. unfold response_json. rewrite Hbody.
  cbn [rbind py_get with_cache with_request base_url requests_sent
       custom_opt_cache].
  unfold with_cache, with_request. cbn [base_url requests_sent].
  now rewrite <- app_assoc.
Qed.

(** X23: an option that cannot be fetched aborts the entry that links to it:
    the loop body raises the exception of the fetch, after the one request
    for the option and with the cache as it was. *)
Theorem failed_option_fetch_aborts_entry (srv : server) (s : session)
    (cf href url : string) (kvs links link : list (string * json))
    (spent act : json) (hours : spec_float) (comment a : string) (e : exn) :
  entry_fields (JObj kvs) = Ok (spent, hours, comment, JObj links, a, act) ->
  strip is_space cf <> "" ->
  assoc (strip is_space cf) kvs = None ->
  assoc (strip is_space cf) links = Some (JObj link) ->
  assoc "href" link = Some (JStr href) ->
  href <> "" ->
  cache_of s !! href = None ->
  urljoin (base_url s) href = Ok url ->
  option_fetch_fails srv url e ->
  process_entry srv s cf (JObj kvs)
  = (Raise e,
     {| base_url := base_url s;
        custom_opt_cache := Some (cache_of s);
        requests_sent := requests_sent s ++ [url] |}).
Proof.
  intros Hf Hkey Hte Hlink Hhref Hne Hmiss Hjoin Hfail.
  unfold process_entry. rewrite Hf. unfold entry_location.
  destruct (strip is_space cf) as [|c key] eqn:E; [congruence|].
  cbn [is_empty]. rewrite py_has_key_assoc, Hte.
  unfold link_of. cbn [py_get]. rewrite Hlink.
  cbn [default from_option id rbind]. rewrite py_get_or_empty, Hhref.
  cbn [default from_option id].
  pose proof (resolve_fetch_fails srv s href url e Hne Hmiss Hjoin Hfail)
    as Hres.
  destruct href as [|b href]; [congruence|].
  cbn [py_truthy is_empty negb resolve_custom_option_value_obj].
  now rewrite Hres.
Qed.
(** *** Where the iteration stops *)

Lemma falsy_link_stops (base : string) (kvs links : list (string * json)) :
  assoc "_links" kvs = Some (JObj links) ->
  (exists nb : json,
     assoc "nextByOffset" links = Some nb /\ py_truthy nb = false)
  \/ (exists (nb : list (string * json)) (v : json),
        assoc "nextByOffset" links = Some (JObj nb)
        /\ assoc "href" nb = Some v /\ py_truthy v = false) ->
  next_url base (JObj kvs) = Ok None.
Proof.
  intros Hl H. unfold next_url. cbn [py_get]. rewrite Hl.
  cbn [default from_option id rbind py_get].
  destruct H as [(nb & -> & Hnb) | (nb & v & -> & Hv & Ht)];
    cbn [default from_option id rbind].
  - unfold py_or. rewrite Hnb. reflexivity.
  - rewrite py_get_or_empty, Hv. cbn [default from_option id rbind].
    now rewrite Ht.
Qed.

(** X5: the loop [while url] ends on every false value: a page whose
    [nextByOffset] link, or the [href] of that link, is false in Python's
    sense (null, false, zero, or an empty string, list or object) is the last
    page, like a page without the link; and for an empty start URL the
    generator returns at once, without a request. *)
Theorem false_next_link_ends_iteration :
  (forall (srv : server) (s : session) (url : string) (r : response)
          (kvs links : list (string * json)) (els : list json) (fuel : nat),
     url <> "" ->
     srv url = Some r ->
     raise_for_status r = Ok tt ->
     body r = Some (JObj kvs) ->
     holds_elements (JObj kvs) els ->
     assoc "_links" kvs = Some (JObj links) ->
     ((exists nb : json,
         assoc "nextByOffset" links = Some nb /\ py_truthy nb = false)
      \/ (exists (nb : list (string * json)) (v : json),
            assoc "nextByOffset" links = Some (JObj nb)
            /\ assoc "href" nb = Some v /\ py_truthy v = false)) ->
     (length els + 2 < fuel)%nat ->
     collect fuel srv (get_collection url) s
     = (els, Completed, with_request s url))
  /\ (forall (srv : server) (s : session) (fuel : nat),
        collect (S fuel) srv (get_collection "") s = ([], Completed, s)).
Proof.
  split; [|reflexivity].
  intros srv s url r kvs links els fuel Hne Hsrv Hstatus Hbody Hels Hl Hfalse
    Hfuel.
  unfold get_collection. destruct fuel as [|fuel]; [lia|].
  rewrite collect_S,
    (gen_step_page srv s url r _ els Hne Hsrv Hstatus Hbody
       (holds_elements_page _ _ Hels)).
  replace fuel with (length els + (fuel - length els))%nat by lia.
  rewrite collect_pending.
  destruct (fuel - length els)%nat as [|n] eqn:En; [lia|].
  rewrite collect_S. cbn [gen_step].
  rewrite (falsy_link_stops _ _ _ Hl Hfalse).
  destruct n as [|n]; [lia|]. simpl. now rewrite app_nil_r.
Qed.
(** *** Entity references: the segment that is returned *)

Lemma split_on_app_sep (c : ascii) (a b : string) :
  split_on c (a +:+ String c b) = split_on c a ++ split_on c b.
Proof.
  induction a as [|x a IH]; simpl.
  - now rewrite Ascii.eqb_refl.
  - rewrite IH. destruct (Ascii.eqb x c); [reflexivity|].
    pose proof (split_on_not_nil c a) as Hne.
    destruct (split_on c a) as [|h t]; [congruence | reflexivity].
Qed.

Lemma last_item_app (l1 l2 : list string) :
  l2 <> [] -> last_item (l1 ++ l2) = last_item l2.
Proof.
  intros Hne. unfold last_item. induction l1 as [|a l1 IH]; [reflexivity|].
  simpl. destruct (l1 ++ l2) eqn:E; [|exact IH].
  destruct l1, l2; simpl in E; congruence.
Qed.

Lemma ends_with_cut (c : ascii) (s : string) :
  ends_with c s = true -> exists s0 : string, s = s0 +:+ String c "".
Proof.
  induction s as [|a s IH]; [discriminate|]. destruct s as [|b s].
  - simpl. intros H. apply Ascii.eqb_eq in H. subst a. now exists "".
  - intros H. destruct (IH H) as [s0 E]. exists (String a s0).
    simpl. now rewrite <- E.
Qed.

Lemma lstrip_keeps_end (c d : ascii) (s : string) :
  lstrip (is_char c) s = "" \/ ends_with d (lstrip (is_char c) s) = ends_with d s.
Proof.
  induction s as [|a s IH]; [now left|]. simpl.
  destruct (is_char c a) eqn:E; [|now right].
  destruct IH as [IH | IH]; [now left|].
  destruct s as [|b s]; [now left|]. right. exact IH.
Qed.

Lemma no_char_not_led (c : ascii) (s : string) :
  all_chars (not_char c) s = true -> starts_with c s = false.
Proof.
  destruct s as [|a s]; [reflexivity|]. simpl.
  intros [Ha _]%andb_prop. unfold not_char in Ha. now apply negb_true_iff in Ha.
Qed.

Lemma no_char_not_ended (c : ascii) (s : string) :
  all_chars (not_char c) s = true -> ends_with c s = false.
Proof.
  induction s as [|a s IH]; [reflexivity|]. simpl.
  intros [Ha Hs]%andb_prop. destruct s; [|now apply IH].
  unfold not_char in Ha. now apply negb_true_iff in Ha.
Qed.

Lemma no_char_not_all (c : ascii) (s t : string) :
  t <> "" -> all_chars (not_char c) t = true ->
  all_chars (Ascii.eqb c) (s +:+ t) = false.
Proof.
  intros Hne Ht. rewrite all_chars_app. destruct t as [|a t]; [congruence|].
  simpl in *. apply andb_prop in Ht as [Ha _]. unfold not_char in Ha.
  apply negb_true_iff in Ha. rewrite Ascii.eqb_sym, Ha. apply andb_false_r.
Qed.

(** Stripping the slashes of a path that ends with a segment and slashes
    leaves a string that ends with that segment, alone or after a slash. *)
Lemma strip_to_segment (lead id trail : string) :
  lead = "" \/ ends_with "/" lead = true ->
  id <> "" ->
  all_chars (not_char "/") id = true ->
  all_chars (Ascii.eqb "/") trail = true ->
  exists l : string,
    strip (is_char "/") (lead +:+ id +:+ trail) = l +:+ id
    /\ (l = "" \/ ends_with "/" l = true).
Proof.
  intros Hlead Hne Hid Htrail. unfold strip.
  assert (Hl : exists l : string,
             lstrip (is_char "/") (lead +:+ id +:+ trail) = l +:+ id +:+ trail
             /\ (l = "" \/ ends_with "/" l = true)).
  { rewrite <- append_assoc.
    destruct (lstrip_app "/" (lead +:+ id) trail) as [-> | [Hall _]].
    - destruct (lstrip_app "/" lead id) as [-> | [Hall E]].
      + exists (lstrip (is_char "/") lead). rewrite append_assoc.
        split; [reflexivity|].
        destruct (lstrip_keeps_end "/" "/" lead) as [-> | ->]; [now left|].
        destruct Hlead as [-> | Hlead]; [now left | now right].
      + exists "". rewrite (lstrip_app_all _ _ _ Hall),
          (lstrip_fixed _ _ (no_char_not_led _ _ Hid)).
        split; [reflexivity | now left].
    - now rewrite (no_char_not_all "/" lead id Hne Hid) in Hall. }
  destruct Hl as (l & -> & Hl). exists l. split; [|exact Hl].
  rewrite <- append_assoc. apply rstrip_app_fixed.
  - now apply app_not_empty_r.
  - rewrite ends_with_app by exact Hne. now apply no_char_not_ended.
  - exact Htrail.
Qed.

(** X8: for a path that ends with a non-empty segment, followed by any number
    of slashes, [parse_entity_id] returns that segment, whatever goes before
    it; for a path of slashes only it returns the empty string. *)
Theorem entity_id_is_last_segment :
  (forall href lead id trail : string,
     urlparse_path href = Ok (lead +:+ id +:+ trail) ->
     lead = "" \/ ends_with "/" lead = true ->
     id <> "" ->
     all_chars (not_char "/") id = true ->
     all_chars (Ascii.eqb "/") trail = true ->
     parse_entity_id href = id)
  /\ (forall href path : string,
        urlparse_path href = Ok path ->
        all_chars (Ascii.eqb "/") path = true ->
        parse_entity_id href = "").
Proof.
  split.
  - intros href lead id trail Hurl Hlead Hne Hid Htrail.
    unfold parse_entity_id. rewrite Hurl. cbn [rbind].
    destruct (strip_to_segment lead id trail Hlead Hne Hid Htrail)
      as (l & -> & [-> | Hl]).
    + simpl. now rewrite (split_on_none _ _ Hid).
    + destruct (ends_with_cut _ _ Hl) as [l0 ->].
      rewrite append_assoc.
      change (String "/" "" +:+ id) with (String "/" id).
      rewrite split_on_app_sep, last_item_app by apply split_on_not_nil.
      now rewrite (split_on_none _ _ Hid).
  - intros href path Hurl Hall. unfold parse_entity_id. rewrite Hurl.
    cbn [rbind]. unfold strip.
    rewrite <- (append_empty_r path), (lstrip_app_all _ _ _ Hall).
    reflexivity.
Qed.

(** *** The description: what the strip can remove *)

Lemma lstrip_cut (c : ascii) (s : string) :
  exists pre : string,
    s = pre +:+ lstrip (is_char c) s /\ all_chars (Ascii.eqb c) pre = true.
Proof.
  induction s as [|a s (pre & E & Hpre)]; [now exists ""|]. simpl.
  unfold is_char at 1. destruct (Ascii.eqb c a) eqn:Ea.
  - exists (String a pre). simpl. rewrite Ea, Hpre, <- E. now split.
  - now exists "".
Qed.

Lemma rstrip_cut (c : ascii) (s : string) :
  exists post : string,
    s = rstrip (is_char c) s +:+ post /\ all_chars (Ascii.eqb c) post = true.
Proof.
  induction s as [|a s (post & E & Hpost)]; [now exists ""|]. simpl.
  destruct (rstrip (is_char c) s) as [|b r] eqn:R.
  - simpl in E. subst post. unfold is_char. simpl.
    destruct (Ascii.eqb c a) eqn:Ea.
    + exists (String a s). simpl. now rewrite Ea, Hpost.
    + exists s. now split.
  - exists post. simpl. rewrite E at 1. now split.
Qed.

(** X15: the description is the joined string without underscores at its two
    ends and with nothing else changed: what is cut off in front and behind
    consists of underscores. It is empty exactly when the three components
    hold nothing but underscores. *)
Theorem description_differs_by_outer_underscores (a b c : string) :
  (exists pre post : string,
     a +:+ "_" +:+ b +:+ "_" +:+ c = pre +:+ compose_description a b c +:+ post
     /\ all_chars (Ascii.eqb "_") pre = true
     /\ all_chars (Ascii.eqb "_") post = true)
  /\ (compose_description a b c = ""
      <-> all_chars (Ascii.eqb "_") a = true
          /\ all_chars (Ascii.eqb "_") b = true
          /\ all_chars (Ascii.eqb "_") c = true).
Proof.
  unfold compose_description, strip.
  set (j := a +:+ "_" +:+ b +:+ "_" +:+ c).
  destruct (lstrip_cut "_" j) as (pre & Ej & Hpre).
  destruct (rstrip_cut "_" (lstrip (is_char "_") j)) as (post & El & Hpost).
  assert (Hall : all_chars (Ascii.eqb "_") j
                 = all_chars (Ascii.eqb "_") a && all_chars (Ascii.eqb "_") b
                   && all_chars (Ascii.eqb "_") c).
  { subst j. rewrite !all_chars_app. simpl. apply andb_assoc. }
  split.
  - exists pre, post. split; [|now split].
    rewrite <- El. exact Ej.
  - split.
    + intros E. rewrite E in El. simpl in El.
      assert (Hj : all_chars (Ascii.eqb "_") j = true).
      { rewrite Ej, El, all_chars_app, Hpre, Hpost. reflexivity. }
      rewrite Hall in Hj. apply andb_prop in Hj as [Hj Hc].
      apply andb_prop in Hj as [Ha Hb]. now repeat split.
    + intros (Ha & Hb & Hc).
      assert (Hj : all_chars (Ascii.eqb "_") j = true)
        by now rewrite Hall, Ha, Hb, Hc.
      rewrite <- (append_empty_r j), (lstrip_app_all _ _ _ Hj). reflexivity.
Qed.

(** *** [main]: what comes before the first request *)

Lemma main_loop_requests (fuel : nat) (srv : server) (cf : string)
    (g : generator) (s : session) (rows : list row) :
  exists more : list string,
    requests_sent (snd (main_loop fuel srv cf g s rows))
    = requests_sent s ++ more.
Proof.
  revert g s rows. induction fuel as [|fuel IH]; intros g s rows.
  - exists []. simpl. now rewrite app_nil_r.
  - rewrite main_loop_S.
    assert (Hg : exists more : list string,
               requests_sent (snd (gen_step srv g s)) = requests_sent s ++ more).
    { destruct g as [[url|]|[|el l] data|]; simpl;
        try (exists []; now rewrite app_nil_r).
      - destruct (is_empty url); [exists []; simpl; now rewrite app_nil_r|].
        pose proof (fetch_json_requests srv s url) as Hf.
        destruct (fetch_json srv s url) as [r s1]. simpl in Hf. subst s1.
        exists [url].
        now destruct (data <- r ;; els <- page_elements data ;; Ok (els, data))
          as [[els data]|e].
      - destruct (next_url (base_url s) data); exists []; simpl;
          now rewrite app_nil_r. }
    destruct (gen_step srv g s) as [[ev g1] s1]. simpl in Hg.
    destruct Hg as [m1 Hg].
    destruct ev as [|te| |e].
    + destruct (IH g1 s1 rows) as [m2 H2]. exists (m1 ++ m2).
      now rewrite H2, Hg, app_assoc.
    + pose proof (process_entry_appends srv s1 cf te) as He.
      destruct (process_entry srv s1 cf te) as [[r|e] s2]; simpl in He.
      * destruct (IH g1 s2 (rows ++ [r])) as [m3 H3].
        destruct He as [m2 He]. exists (m1 ++ m2 ++ m3).
        now rewrite H3, He, Hg, !app_assoc.
      * destruct He as [m2 He]. exists (m1 ++ m2). simpl.
        now rewrite He, Hg, app_assoc.
    + exists m1. exact Hg.
    + exists m1. exact Hg.
Qed.
Lemma main_loop_first_request (fuel : nat) (srv : server) (cf : string)
    (q : string) (s : session) (rows0 : list row) :
  (fst (main_loop fuel srv cf (get_collection q) s rows0)
   = (match fuel with O => Unfinished | S _ => Completed end, rows0)
   /\ requests_sent (snd (main_loop fuel srv cf (get_collection q) s rows0))
      = requests_sent s)
  \/ exists more : list string,
       requests_sent (snd (main_loop fuel srv cf (get_collection q) s rows0))
       = requests_sent s ++ q :: more.
Proof.
  unfold get_collection. destruct fuel as [|fuel]; [now left|].
  rewrite main_loop_S. cbn [gen_step].
  destruct (is_empty q); [now left|]. right.
  pose proof (fetch_json_requests srv s q) as Hf.
  destruct (fetch_json srv s q) as [r s1]. simpl in Hf. subst s1.
  destruct (data <- r ;; els <- page_elements data ;; Ok (els, data))
    as [[els data]|e].
  - destruct (main_loop_requests fuel srv cf (InPage els data)
                (with_request s q) rows0) as [more H].
    exists more. rewrite H. simpl. now rewrite <- app_assoc.
  - now exists [].
Qed.

(** X18: [main] sends no request and makes no row unless the base URL and the
    API key are given, the month is one that [month_bounds] accepts, and the
    query URL can be prepared; the first request is then the one for that
    query URL, built on the base URL without its trailing slashes. *)
Theorem main_validates_before_any_request (fuel : nat) (srv : server)
    (args : arguments) (fin : ending) (rows : list row) (reqs : list string) :
  main fuel srv args = (fin, rows, reqs) ->
  rows <> [] \/ reqs <> [] ->
  exists (b k : string) (first last : date) (q : string),
    arg_base_url args = Some b /\ b <> ""
    /\ arg_api_key args = Some k /\ k <> ""
    /\ month_bounds (arg_month args) = Ok (first, last)
    /\ prepare_url (rstrip (is_char "/") b +:+ "/api/v3/time_entries")
         first last (arg_user args) (arg_page_size args) = Ok q
    /\ exists more : list string, reqs = q :: more.
Proof.
  unfold main. intros H Hsome.
  destruct (arg_base_url args) as [b|] eqn:Eb;
    [|injection H as <- <- <-; now destruct Hsome].
  destruct (arg_api_key args) as [k|] eqn:Ek;
    [|rewrite orb_true_r in H; injection H as <- <- <-; now destruct Hsome].
  cbn [missing] in H.
  destruct (is_empty b) eqn:Hb; [injection H as <- <- <-; now destruct Hsome|].
  destruct (is_empty k) eqn:Hk; [injection H as <- <- <-; now destruct Hsome|].
  cbn [orb] in H.
  destruct (month_bounds (arg_month args)) as [[first last]|e];
    [|injection H as <- <- <-; now destruct Hsome].
  cbn [default from_option id base_url new_session] in H.
  destruct (prepare_url _ first last (arg_user args) (arg_page_size args))
    as [q|e] eqn:Eq; [|injection H as <- <- <-; now destruct Hsome].
  exists b, k, first, last, q.
  repeat (split; [first [reflexivity | now apply is_empty_false | exact Eq]|]).
  pose proof (main_loop_first_request fuel srv (arg_location_cf args) q
                (new_session (rstrip (is_char "/") b)) []) as Hfirst.
  destruct (main_loop fuel srv (arg_location_cf args) (get_collection q)
              (new_session (rstrip (is_char "/") b)) []) as [[fin' rows'] s'].
  injection H as <- <- <-. simpl in Hfirst.
  destruct Hfirst as [[[= _ ->] Hr] | [more Hr]].
  - rewrite Hr in Hsome. now destruct Hsome.
  - now exists more.
Qed.

(** X19: slashes at the end of the base URL make no difference to the run. *)
Theorem base_url_trailing_slashes_ignored (fuel : nat) (srv : server)
    (b t : string) (k : option string) (m u cf : string) (n : Z) :
  b <> "" ->
  all_chars (Ascii.eqb "/") t = true ->
  main fuel srv
    {| arg_base_url := Some (b +:+ t); arg_api_key := k; arg_month := m;
       arg_user := u; arg_location_cf := cf; arg_page_size := n |}
  = main fuel srv
      {| arg_base_url := Some b; arg_api_key := k; arg_month := m;
         arg_user := u; arg_location_cf := cf; arg_page_size := n |}.
Proof.
  intros Hb Ht. unfold main.
  cbn [arg_base_url arg_api_key arg_month arg_user arg_location_cf
       arg_page_size missing default from_option id].
  rewrite (rstrip_app_all _ _ _ Ht).
  destruct b as [|c b]; [congruence | reflexivity].
Qed.
(** *** The sheet: which cells are formatted *)

Lemma cells_assign (ws : worksheet) (r c r' c' : Z) (f : cell -> cell) :
  cells (assign ws r c f) !! (r', c')
  = if (r' =? r) && (c' =? c) then Some (f (ws_cell ws r c))
    else cells ws !! (r', c').
Proof.
  unfold assign, set_cell. cbn [cells].
  destruct ((r' =? r) && (c' =? c)) eqn:E.
  - apply andb_prop in E as [Er Ec]. apply Z.eqb_eq in Er, Ec. subst.
    apply lookup_insert_eq.
  - apply lookup_insert_ne. intros [= -> ->].
    now rewrite !Z.eqb_refl in E.
Qed.

Lemma ws_cell_assign (ws : worksheet) (r c : Z) (f : cell -> cell) :
  ws_cell (assign ws r c f) r c = f (ws_cell ws r c).
Proof. unfold ws_cell at 1. now rewrite cells_assign, !Z.eqb_refl. Qed.

Lemma cells_format_header_cell (ws : worksheet) (k : Z) (title : string)
    (r c : Z) :
  cells (format_header_cell ws (k, title)) !! (r, c)
  = if (r =? 1) && (c =? k) then Some header_cell else cells ws !! (r, c).
Proof.
  unfold format_header_cell. cbn [fst]. cbv zeta.
  rewrite cells_assign, !ws_cell_assign.
  destruct ((r =? 1) && (c =? k)) eqn:E; [reflexivity|].
  now rewrite !cells_assign, E.
Qed.

Lemma cells_format_data_cell (ws : worksheet) (k j : Z) (a : Alignment)
    (r c : Z) :
  cells (format_data_cell ws k j a) !! (r, c)
  = if (r =? k) && (c =? j) then
      Some (with_border border_style (with_alignment a (ws_cell ws k j)))
    else cells ws !! (r, c).
Proof.
  unfold format_data_cell. cbv zeta.
  rewrite cells_assign, ws_cell_assign.
  destruct ((r =? k) && (c =? j)) eqn:E; [reflexivity|].
  now rewrite cells_assign, E.
Qed.

Lemma cells_format_data_row (ws : worksheet) (k r c : Z) :
  cells (format_data_row ws k) !! (r, c)
  = if (r =? k) && in_columns c then Some (data_cell (ws_cell ws r c) c)
    else cells ws !! (r, c).
Proof.
  unfold format_data_row, in_columns. cbv zeta.
  repeat (unfold ws_cell; rewrite !cells_format_data_cell).
  destruct (Z.eqb_spec r k) as [->|Hr]; [|reflexivity].
  rewrite ?Z.eqb_refl. cbn [andb].
  destruct (Z.eqb_spec c 4) as [->|H4]; [reflexivity|].
  destruct (Z.eqb_spec c 3) as [->|H3]; [reflexivity|].
  destruct (Z.eqb_spec c 2) as [->|H2]; [reflexivity|].
  destruct (Z.eqb_spec c 1) as [->|H1]; [reflexivity|].
  assert ((1 <=? c) && (c <=? 4) = false) as -> by lia. reflexivity.
Qed.

Lemma data_cell_again (x : cell) (c : Z) :
  data_cell (data_cell x c) c = data_cell x c.
Proof. reflexivity. Qed.

Lemma cells_format_data_rows (rs : list Z) (ws : worksheet) (r c : Z) :
  cells (fold_left format_data_row rs ws) !! (r, c)
  = if existsb (Z.eqb r) rs && in_columns c then
      Some (data_cell (ws_cell ws r c) c)
    else cells ws !! (r, c).
Proof.
  revert ws. induction rs as [|k rs IH]; intros ws; [reflexivity|].
  cbn [fold_left existsb]. rewrite IH. unfold ws_cell at 1.
  rewrite !cells_format_data_row.
  destruct (in_columns c); [|now rewrite !andb_false_r].
  rewrite !andb_true_r.
  destruct (r =? k); cbn [orb default from_option id].
  - rewrite data_cell_again. now destruct (existsb (Z.eqb r) rs).
  - reflexivity.
Qed.

Lemma existsb_range (r start stop : Z) :
  existsb (Z.eqb r) (range start stop) = (start <=? r) && (r <? stop).
Proof.
  apply eq_true_iff_eq. rewrite existsb_exists. unfold range. split.
  - intros (x & Hx & E). apply Z.eqb_eq in E. subst x.
    apply in_map_iff in Hx as (i & <- & Hi). apply in_seq in Hi. lia.
  - intros H. exists r. split; [|apply Z.eqb_refl].
    apply in_map_iff. exists (Z.to_nat (r - start)).
    split; [lia|]. apply in_seq. lia.
Qed.

Lemma cells_format_header (ws : worksheet) (r c : Z) :
  cells (fold_left format_header_cell (enumerate columns 1) ws) !! (r, c)
  = if (r =? 1) && in_columns c then Some header_cell else cells ws !! (r, c).
Proof.
  let l := eval vm_compute in (enumerate columns 1) in
  change (enumerate columns 1) with l.
  cbn [fold_left]. rewrite !cells_format_header_cell. unfold in_columns.
  destruct (r =? 1); [|reflexivity]. cbn [andb].
  destruct (Z.eqb_spec c 4) as [->|H4]; [reflexivity|].
  destruct (Z.eqb_spec c 3) as [->|H3]; [reflexivity|].
  destruct (Z.eqb_spec c 2) as [->|H2]; [reflexivity|].
  destruct (Z.eqb_spec c 1) as [->|H1]; [reflexivity|].
  now assert ((1 <=? c) && (c <=? 4) = false) as -> by lia.
Qed.

(** X20: on a sheet with the header and [n] rows the formatting of [main]
    touches the cells of the table and no other: the four header cells get
    the header font, fill, alignment and border; the cells of the rows 2 to
    [n + 1] in the four columns get the border and their alignment, centred
    in the first three columns, left, top and wrapped in the fourth, and keep
    their font and fill; every other cell is as it was. *)
Theorem sheet_formatting_covers_the_table (n : nat) (ws : worksheet) (r c : Z) :
  cells (format_sheet (Z.of_nat n) ws) !! (r, c)
  = if in_columns c then
      if r =? 1 then Some header_cell
      else if (2 <=? r) && (r <=? Z.of_nat n + 1) then
        Some (data_cell (ws_cell ws r c) c)
      else cells ws !! (r, c)
    else cells ws !! (r, c).
Proof.
  unfold format_sheet. cbv zeta. cbn [cells set_height set_width].
  rewrite cells_format_data_rows, existsb_range. unfold ws_cell at 1.
  rewrite !cells_format_header.
  destruct (in_columns c); [|now rewrite !andb_false_r].
  rewrite !andb_true_r.
  destruct (r =? 1) eqn:E1.
  - apply Z.eqb_eq in E1. subst r. reflexivity.
  - assert ((2 <=? r) && (r <? Z.of_nat n + 2)
            = (2 <=? r) && (r <=? Z.of_nat n + 1)) as -> by lia.
    reflexivity.
Qed.
(** *** The location of an entry whose option is in the cache *)

(** X14: an entry whose location is a link to an option that the cache holds
    takes its location from the cache: no request is sent and the session
    stays as it is, whatever the server would answer. *)
Theorem location_from_cache_asks_nothing (srv : server) (s : session)
    (cf href : string) (kvs links link : list (string * json)) (v : json) :
  strip is_space cf <> "" ->
  assoc (strip is_space cf) kvs = None ->
  assoc (strip is_space cf) links = Some (JObj link) ->
  assoc "href" link = Some (JStr href) ->
  href <> "" ->
  cache_of s !! href = Some v ->
  entry_location srv s cf kvs (JObj links) = (Ok (or_remote v), s).
Proof.
  intros Hkey Hte Hlink Hhref Hne Hhit. unfold entry_location.
  destruct (strip is_space cf) as [|a key] eqn:E; [congruence|].
  cbn [is_empty]. rewrite py_has_key_assoc, Hte.
  unfold link_of. cbn [py_get]. rewrite Hlink.
  cbn [default from_option id rbind]. rewrite py_get_or_empty, Hhref.
  cbn [default from_option id].
  pose proof (resolve_hit srv s href v Hne Hhit) as Hres.
  destruct href as [|b href]; [congruence|].
  cbn [py_truthy is_empty negb resolve_custom_option_value_obj].
  now rewrite Hres.
Qed.

End Program.

(** ** The program on the example data *)

Lemma mock_page_served (srv : server) (url : string) (els : list json)
    (next : option string) :
  url <> "" ->
  srv url = Some (mock_page els next) ->
  match next with Some href => href <> "" | None => True end ->
  serves_page srv url els next.
Proof.
  intros Hne Hsrv Hnext.
  eapply serves_page_intro; [exact Hne | exact Hsrv | reflexivity | reflexivity | |].
  - now eapply holds_elements_intro.
  - destruct next as [href|].
    + now eapply next_link_present.
    + eapply next_link_missing; [reflexivity | now left].
Qed.

Lemma mock_collection_served :
  serves concat_urljoin mock_server example_base example_url
    [[JInt 1; JInt 2]; [JInt 3; JInt 4]; [JInt 5]].
Proof.
  eapply serves_next;
    [apply mock_page_served; [discriminate | reflexivity | discriminate]
    | reflexivity |].
  eapply serves_next;
    [apply mock_page_served; [discriminate | reflexivity | discriminate]
    | reflexivity |].
  apply serves_last, mock_page_served; [discriminate | reflexivity | exact I].
Qed.

Lemma failing_collection_served :
  fails_after concat_urljoin failing_server example_base example_url
    [[JInt 1; JInt 2]; [JInt 3; JInt 4]] HTTPError.
Proof.
  eapply fails_later;
    [apply mock_page_served; [discriminate | reflexivity | discriminate]
    | reflexivity |].
  eapply fails_later;
    [apply mock_page_served; [discriminate | reflexivity | discriminate]
    | reflexivity |].
  apply fails_first; [discriminate|].
  eapply fails_status; [reflexivity | simpl; lia].
Qed.

Lemma get_collection_yields_pages_in_order_witness :
  exists urls : list string,
    length urls = 3%nat
    /\ collect concat_urljoin 12 mock_server (get_collection example_url)
         example_session
       = ([JInt 1; JInt 2; JInt 3; JInt 4; JInt 5], Completed,
          after_requests example_session urls).
Proof.
  apply (proj1 (get_collection_yields_pages_in_order concat_urljoin)
           mock_server example_session example_url
           [[JInt 1; JInt 2]; [JInt 3; JInt 4]; [JInt 5]] 12%nat).
  - exact mock_collection_served.
  - simpl. lia.
Defined.

Lemma option_resolution_cached_witness :
  resolve_custom_option_value concat_urljoin option_server example_session
    "/api/v3/custom_options/5"
  = (Ok (JStr "office"),
     {| base_url := example_base;
        custom_opt_cache := Some (<["/api/v3/custom_options/5" := JStr "office"]> ∅);
        requests_sent := ["https://op.example/api/v3/custom_options/5"] |}).
Proof.
  apply (proj1 (proj1 (option_resolution_cached 4300 concat_urljoin
                         plain_urlparse_path opaque_py_str)
                  option_server example_session "/api/v3/custom_options/5"
                  "https://op.example/api/v3/custom_options/5"
                  {| status_code := 200;
                     body := Some (JObj [("value", JStr "office")]) |}
                  [("value", JStr "office")]
                  ltac:(discriminate) eq_refl eq_refl eq_refl eq_refl eq_refl)).
Defined.

Lemma description_composed_witness :
  process_entry 4300 concat_urljoin plain_urlparse_path opaque_py_str
    mock_server example_session "" scenario_entry
  = (Ok scenario_row, example_session).
Proof.
  apply (proj2 (proj2 (proj2 (proj2
           (description_composed 4300 concat_urljoin plain_urlparse_path
              opaque_py_str))))).
  reflexivity.
Defined.

(** The description of an entry whose comment ends with an underscore loses
    that underscore, which the wording of the specification keeps. *)
Lemma description_loses_comment_underscore :
  entry_fields 4300 plain_urlparse_path underscore_entry
  = Ok (JStr "2024-03-05", decimal 80 1, "done_",
        JObj [ ("entity", JObj [("href", JStr "/api/v3/work_packages/7")]);
               ("activity", JObj [("title", JStr "Development")]) ],
        "7", JStr "Development")
  /\ (exists r : row,
        process_entry 4300 concat_urljoin plain_urlparse_path opaque_py_str
          mock_server example_session "" underscore_entry
        = (Ok r, example_session)
        /\ Description r = "7_Development_done")
  /\ description_by_spec "7" "Development" "done_" = "7_Development_done_"
  /\ "7_Development_done" <> description_by_spec "7" "Development" "done_".
Proof.
  split; [vm_compute; reflexivity|]. split; [|split; [reflexivity | discriminate]].
  eexists. split; [vm_compute; reflexivity | reflexivity].
Qed.

Lemma location_three_tier_fallback_witness :
  entry_location concat_urljoin mock_server example_session "customField7"
    zero_field_entry (JObj [])
  = (Ok (or_remote (JInt 0)), example_session).
Proof.
  apply (proj1 (proj2 (location_three_tier_fallback 4300 concat_urljoin
                         plain_urlparse_path opaque_py_str))).
  - vm_compute. discriminate.
  - reflexivity.
Defined.

(** An integer custom field that holds 0 is present, and neither empty nor
    null, and still the location of its entry is "remote" and not 0. *)
Lemma zero_field_location_is_remote :
  assoc "customField7" zero_field_entry = Some (JInt 0)
  /\ empty_or_null (JInt 0) = false
  /\ direct_location_by_spec (JInt 0) = JInt 0
  /\ (exists r : row,
        process_entry 4300 concat_urljoin plain_urlparse_path opaque_py_str
          mock_server example_session "customField7" (JObj zero_field_entry)
        = (Ok r, example_session)
        /\ Location r = JStr "remote"
        /\ Location r <> direct_location_by_spec (JInt 0)).
Proof.
  repeat split. eexists. split; [vm_compute; reflexivity|].
  split; [reflexivity | discriminate].
Qed.

Lemma example_duration_conforms :
  conforms "PT5H30M" (Some "5") (Some "30") None.
Proof.
  exists None, None, None, (Some (Some "5", Some "30", None)), false.
  repeat split; discriminate.
Qed.

Lemma duration_decoded_leniently_witness :
  exists x : spec_float,
    hours_of (field_number (Some "5")) (field_number (Some "30"))
      (field_number None) = Ok x
    /\ iso_duration_to_hours 4300 "PT5H30M" = Ok x.
Proof.
  apply (proj1 (proj2 (proj2 (proj2 (proj2 (duration_decoded_leniently 4300)))))
           "PT5H30M" (Some "5") (Some "30") None example_duration_conforms);
    simpl; lia.
Defined.

(** A duration of 10^309 hours is one of the grammar, and the decoder raises
    on it, with the default limit on the digits of [int] and without one.
    Five hours followed by a newline are no duration of the grammar, and the
    decoder returns 5.0 for them. *)
Lemma duration_overflow_and_final_newline :
  conforms_by_spec huge_duration
    (Some ("1" +:+ replicate_char 309 "0")) None None
  /\ iso_duration_to_hours 4300 huge_duration = Raise OverflowError
  /\ iso_duration_to_hours 0 huge_duration = Raise OverflowError
  /\ (forall h mi se : option string,
        ~ conforms_by_spec newline_duration h mi se)
  /\ iso_duration_to_hours 4300 newline_duration = Ok (decimal 50 1).
Proof.
  split.
  { exists None, None, None,
      (Some (Some ("1" +:+ replicate_char 309 "0"), None, None)).
    repeat split; discriminate. }
  split; [vm_compute; reflexivity|].
  split; [vm_compute; reflexivity|].
  split; [exact newline_duration_not_by_spec|].
  vm_compute. reflexivity.
Qed.

(** A page without [_embedded], and one whose [elements] is a string, are
    malformed as the specification has it, and the generator raises on
    neither: it returns after the one request, with nothing yielded from the
    first and the two characters from the second. *)
Lemma malformed_page_raises_nothing :
  malformed_by_spec no_embedded_page
  /\ collect concat_urljoin 5 no_embedded_server (get_collection example_url)
       example_session
     = ([], Completed, with_request example_session example_url)
  /\ malformed_by_spec string_elements_page
  /\ collect concat_urljoin 5 string_elements_server
       (get_collection example_url) example_session
     = ([JStr "a"; JStr "b"], Completed,
        with_request example_session example_url).
Proof. repeat split; vm_compute; reflexivity. Qed.

Lemma get_collection_fails_after_earlier_pages_witness :
  FetchError HTTPError
  /\ exists urls : list string,
       length urls = 3%nat
       /\ collect concat_urljoin 12 failing_server (get_collection example_url)
            example_session
          = ([JInt 1; JInt 2; JInt 3; JInt 4], Aborted HTTPError,
             after_requests example_session urls).
Proof.
  apply (proj1 (get_collection_fails_after_earlier_pages concat_urljoin)
           failing_server example_session example_url
           [[JInt 1; JInt 2]; [JInt 3; JInt 4]] HTTPError 12%nat).
  - exact failing_collection_served.
  - simpl. lia.
Defined.

Lemma month_bounds_first_and_last_day_witness :
  month_bounds 4300 (yyyy_mm 2024 2)
  = Ok ({| year := 2024; month := 2; day := 1 |},
        {| year := 2024; month := 2; day := days_in_month 2024 2 |})
  /\ month_length 2024 2 (days_in_month 2024 2).
Proof.
  apply (proj1 (month_bounds_first_and_last_day 4300) 2024 2); lia.
Defined.

Lemma month_13_does_not_parse (y m : Z) :
  parses_as_year_month 4300 "2024-13" y m -> ~ 1 <= m <= 12.
Proof.
  intros (a & b & Hs & Hy & Hm). vm_compute in Hs.
  injection Hs as <- <-. vm_compute in Hm. injection Hm as <-. lia.
Qed.

Lemma month_13_fits (y m : Z) :
  parses_as_year_month 4300 "2024-13" y m ->
  fits_c_int y = true /\ fits_c_int m = true.
Proof.
  intros (a & b & Hs & Hy & Hm). vm_compute in Hs.
  injection Hs as <- <-. vm_compute in Hy, Hm.
  injection Hy as <-. injection Hm as <-. split; reflexivity.
Qed.

Lemma month_bounds_rejects_invalid_month_witness :
  month_bounds 4300 "2024-13" = Raise ValueError.
Proof.
  apply (proj1 (proj2 (month_bounds_rejects_invalid_month 4300 concat_urljoin
                         plain_urlparse_path opaque_py_str plain_prepare_url))).
  - exact month_13_does_not_parse.
  - exact month_13_fits.
Defined.

Lemma parse_entity_id_trailing_segment_witness :
  parse_entity_id plain_urlparse_path "/api/v3/work_packages/42" = "42"
  /\ parse_entity_id plain_urlparse_path "" = "".
Proof.
  apply (proj2 (proj2 (proj2 (proj2
           (parse_entity_id_trailing_segment plain_urlparse_path))))).
  intros p Hp. unfold plain_urlparse_path. rewrite Hp. reflexivity.
Defined.

Lemma description_has_no_outer_separator_witness :
  starts_with "_" (Description scenario_row) = false
  /\ ends_with "_" (Description scenario_row) = false.
Proof.
  apply (proj2 (proj2 (description_has_no_outer_separator 4300 concat_urljoin
                         plain_urlparse_path opaque_py_str))
           mock_server example_session example_session "" scenario_entry
           scenario_row).
  vm_compute. reflexivity.
Defined.

Lemma month_bounds_reads_any_digits_witness :
  month_bounds 4300 "2024-2"
  = Ok ({| year := 2024; month := 2; day := 1 |},
        {| year := 2024; month := 2; day := 29 |}).
Proof.
  apply (month_bounds_reads_any_digits 4300 "2024" "2");
    first [reflexivity | discriminate | simpl; lia
          | vm_compute; split; discriminate ].
Defined.
Lemma comment_whitespace_collapsed_witness :
  starts_with " " "Fixed bug" = false /\ ends_with " " "Fixed bug" = false
  /\ all_chars blank_or_not_space "Fixed bug" = true
  /\ no_adjacent " " "Fixed bug" = true
  /\ join " " (split_ws "Fixed bug") = "Fixed bug".
Proof.
  apply (proj1 comment_whitespace_collapsed scenario_entry "Fixed bug").
  reflexivity.
Defined.
Lemma malformed_entry_aborts_witness :
  process_entry 4300 concat_urljoin plain_urlparse_path opaque_py_str
    mock_server example_session "" (JObj [("hours", JInt 8)])
  = (Raise TypeError, example_session).
Proof.
  apply (proj1 (proj2 (malformed_entry_aborts 4300 concat_urljoin
                         plain_urlparse_path opaque_py_str mock_server
                         example_session ""))
           [("hours", JInt 8)] (JInt 8)); reflexivity.
Defined.

Lemma entry_without_link_asks_nothing_witness :
  snd (process_entry 4300 concat_urljoin plain_urlparse_path opaque_py_str
         mock_server example_session "" scenario_entry)
  = example_session
  /\ fst (process_entry 4300 concat_urljoin plain_urlparse_path opaque_py_str
            failing_server (new_session "") "" scenario_entry)
     = fst (process_entry 4300 concat_urljoin plain_urlparse_path opaque_py_str
              mock_server example_session "" scenario_entry).
Proof.
  apply (entry_without_link_asks_nothing 4300 concat_urljoin
           plain_urlparse_path opaque_py_str).
  left. reflexivity.
Defined.
Lemma days_then_time_conforms :
  conforms "P1DT5H30M" (Some "5") (Some "30") None.
Proof.
  exists None, None, (Some "1"), (Some (Some "5", Some "30", None)), false.
  repeat split; discriminate.
Qed.

Lemma time_only_conforms :
  conforms "PT5H30M" (Some "5") (Some "30") None.
Proof.
  exists None, None, None, (Some (Some "5", Some "30", None)), false.
  repeat split; discriminate.
Qed.

Lemma duration_date_part_ignored_witness :
  iso_duration_to_hours 4300 "P1DT5H30M" = iso_duration_to_hours 4300 "PT5H30M".
Proof.
  apply (proj1 (duration_date_part_ignored 4300)
           "P1DT5H30M" "PT5H30M" (Some "5") (Some "30") None).
  - exact days_then_time_conforms.
  - exact time_only_conforms.
Defined.

Lemma duration_raises_only_on_huge_fields_witness :
  (OverflowError = OverflowError
   \/ (OverflowError = ValueError /\ (0 < 4300)%nat))
  /\ exists h mi se : option string,
       conforms huge_duration h mi se
       /\ ((300 < field_digits h)%nat \/ (300 < field_digits mi)%nat
           \/ (300 < field_digits se)%nat).
Proof.
  apply (duration_raises_only_on_huge_fields 4300 huge_duration OverflowError).
  vm_compute. reflexivity.
Defined.
Lemma office_page_served :
  serves_page office_server example_url
    [office_entry "2024-03-05"; office_entry "2024-03-06"] None.
Proof. apply mock_page_served; [discriminate | reflexivity | exact I]. Qed.

Lemma export_makes_one_row_per_element_witness :
  main_loop 4300 concat_urljoin plain_urlparse_path opaque_py_str 8
    office_server "customField7" (get_collection example_url)
    example_session []
  = (Completed,
     [] ++ [office_row "2024-03-05"; office_row "2024-03-06"],
     {| base_url := example_base;
        custom_opt_cache :=
          Some (<["/api/v3/custom_options/5" := JStr "office"]> ∅);
        requests_sent :=
          [example_url; "https://op.example/api/v3/custom_options/5"] |})
  /\ length [office_row "2024-03-05"; office_row "2024-03-06"]
     = length (concat [[office_entry "2024-03-05"; office_entry "2024-03-06"]]).
Proof.
  apply (export_makes_one_row_per_element 4300 concat_urljoin
           plain_urlparse_path opaque_py_str office_server "customField7"
           example_url example_session).
  - apply exports_last; [exact office_page_served|].
    apply processed_cons
      with (s1 := {| base_url := example_base;
                     custom_opt_cache :=
                       Some (<["/api/v3/custom_options/5" := JStr "office"]> ∅);
                     requests_sent :=
                       [example_url;
                        "https://op.example/api/v3/custom_options/5"] |});
      [vm_compute; reflexivity|].
    apply processed_cons
      with (s1 := {| base_url := example_base;
                     custom_opt_cache :=
                       Some (<["/api/v3/custom_options/5" := JStr "office"]> ∅);
                     requests_sent :=
                       [example_url;
                        "https://op.example/api/v3/custom_options/5"] |});
      [vm_compute; reflexivity|].
    apply processed_nil.
  - simpl. lia.
Defined.

Lemma first_mock_page_served :
  serves_page mock_server example_url ([] ++ JInt 1 :: [JInt 2])
    (Some "/api/v3/time_entries?offset=2").
Proof. apply mock_page_served; [discriminate | reflexivity | discriminate]. Qed.

Lemma failing_entry_ends_the_run_witness :
  main_loop 4300 concat_urljoin plain_urlparse_path opaque_py_str 5
    mock_server "" (get_collection example_url) example_session []
  = (Aborted AttributeError, [] ++ [],
     with_request example_session example_url).
Proof.
  apply (failing_entry_ends_the_run 4300 concat_urljoin plain_urlparse_path
           opaque_py_str mock_server "" example_url example_session
           (with_request example_session example_url)
           (with_request example_session example_url)
           [] [JInt 2] (JInt 1) (Some "/api/v3/time_entries?offset=2")).
  - exact first_mock_page_served.
  - apply processed_nil.
  - reflexivity.
  - simpl. lia.
Defined.

Lemma looping_page_served :
  serves_page looping_server example_url [JInt 1]
    (Some "/api/v3/time_entries").
Proof. apply mock_page_served; [discriminate | reflexivity | discriminate]. Qed.

Lemma self_linked_page_never_ends_witness :
  snd (fst (collect concat_urljoin 1000 looping_server
              (get_collection example_url) example_session))
  = Unfinished.
Proof.
  apply (self_linked_page_never_ends concat_urljoin looping_server
           example_session example_url "/api/v3/time_entries" [JInt 1]).
  - exact looping_page_served.
  - reflexivity.
Defined.

Lemma page_with_bad_links_yields_then_raises_witness :
  collect concat_urljoin 4 bad_links_server (get_collection example_url)
    example_session
  = ([JInt 1; JInt 2], Aborted AttributeError,
     with_request example_session example_url).
Proof.
  apply (page_with_bad_links_yields_then_raises concat_urljoin bad_links_server
           example_session example_url
           {| status_code := 200; body := Some (JObj bad_links_page) |}
           bad_links_page).
  - discriminate.
  - reflexivity.
  - reflexivity.
  - reflexivity.
  - now eapply holds_elements_intro.
  - left. exists (JStr "none"). split; reflexivity.
  - simpl. lia.
Defined.

Lemma option_out_of_reach :
  option_fetch_fails mock_server "https://op.example/api/v3/custom_options/5"
    RequestException.
Proof. apply option_no_response. reflexivity. Qed.

Lemma failed_option_fetch_is_not_cached_witness :
  resolve_custom_option_value concat_urljoin mock_server example_session
    "/api/v3/custom_options/5"
  = (Raise RequestException,
     {| base_url := base_url example_session;
        custom_opt_cache := Some (cache_of example_session);
        requests_sent :=
          requests_sent example_session
          ++ ["https://op.example/api/v3/custom_options/5"] |}).
Proof.
  apply (proj1 (failed_option_fetch_is_not_cached concat_urljoin mock_server
                  example_session "/api/v3/custom_options/5"
                  "https://op.example/api/v3/custom_options/5"
                  RequestException
                  ltac:(discriminate) eq_refl eq_refl option_out_of_reach)).
Defined.
Lemma false_next_link_ends_iteration_witness :
  collect concat_urljoin 5 empty_href_server (get_collection example_url)
    example_session
  = ([JInt 1; JInt 2], Completed, with_request example_session example_url).
Proof.
  apply (proj1 (false_next_link_ends_iteration concat_urljoin)
           empty_href_server example_session example_url
           {| status_code := 200; body := Some (JObj empty_href_page) |}
           empty_href_page
           [("nextByOffset", JObj [("href", JStr "")])]).
  - discriminate.
  - reflexivity.
  - reflexivity.
  - reflexivity.
  - now eapply holds_elements_intro.
  - reflexivity.
  - right. exists [("href", JStr "")], (JStr ""). repeat split; reflexivity.
  - simpl. lia.
Defined.
Lemma entity_id_is_last_segment_witness :
  parse_entity_id plain_urlparse_path "/api/v3/work_packages/42//" = "42".
Proof.
  apply (proj1 (entity_id_is_last_segment plain_urlparse_path)
           "/api/v3/work_packages/42//" "/api/v3/work_packages/" "42" "//");
    first [reflexivity | discriminate | now right].
Defined.

(** The arguments of a run on the example server. *)
Lemma main_validates_before_any_request_witness :
  exists (b k : string) (first last : date) (q : string),
    Some "https://op.example/" = Some b /\ b <> ""
    /\ Some "secret" = Some k /\ k <> ""
    /\ month_bounds 4300 "2024-03" = Ok (first, last)
    /\ plain_prepare_url
         (rstrip (is_char "/") b +:+ "/api/v3/time_entries")
         first last "me" 200 = Ok q
    /\ exists more : list string,
         [example_url; "https://op.example/api/v3/custom_options/5"]
         = q :: more.
Proof.
  apply (main_validates_before_any_request 4300 concat_urljoin
           plain_urlparse_path opaque_py_str plain_prepare_url 8 office_server
           {| arg_base_url := Some "https://op.example/";
              arg_api_key := Some "secret";
              arg_month := "2024-03";
              arg_user := "me";
              arg_location_cf := "customField7";
              arg_page_size := 200 |}
           Completed
           [office_row "2024-03-05"; office_row "2024-03-06"]
           [example_url; "https://op.example/api/v3/custom_options/5"]).
  - vm_compute. reflexivity.
  - left. discriminate.
Defined.

Lemma base_url_trailing_slashes_ignored_witness :
  main 4300 concat_urljoin plain_urlparse_path opaque_py_str plain_prepare_url
    8 office_server
    {| arg_base_url := Some ("https://op.example" +:+ "//");
       arg_api_key := Some "secret"; arg_month := "2024-03";
       arg_user := "me"; arg_location_cf := "customField7";
       arg_page_size := 200 |}
  = main 4300 concat_urljoin plain_urlparse_path opaque_py_str
      plain_prepare_url 8 office_server
      {| arg_base_url := Some "https://op.example";
         arg_api_key := Some "secret"; arg_month := "2024-03";
         arg_user := "me"; arg_location_cf := "customField7";
         arg_page_size := 200 |}.
Proof.
  apply (base_url_trailing_slashes_ignored 4300 concat_urljoin
           plain_urlparse_path opaque_py_str plain_prepare_url 8 office_server
           "https://op.example" "//");
    [discriminate | reflexivity].
Defined.
Lemma location_from_cache_asks_nothing_witness :
  entry_location concat_urljoin failing_server
    (with_cache example_session
       (<["/api/v3/custom_options/5" := JStr "office"]> ∅))
    "customField7"
    [("spentOn", JStr "2024-03-05"); ("hours", JStr "PT8H")]
    (JObj [("customField7",
            JObj [("href", JStr "/api/v3/custom_options/5")])])
  = (Ok (or_remote (JStr "office")),
     with_cache example_session
       (<["/api/v3/custom_options/5" := JStr "office"]> ∅)).
Proof.
  apply (location_from_cache_asks_nothing concat_urljoin failing_server _
           "customField7" "/api/v3/custom_options/5" _ _
           [("href", JStr "/api/v3/custom_options/5")]);
    first [discriminate | reflexivity].
Defined.

Lemma month_bounds_accepts_exactly_witness :
  year {| year := 2024; month := 2; day := 1 |}
  = year {| year := 2024; month := 2; day := 29 |}
  /\ month {| year := 2024; month := 2; day := 1 |}
     = month {| year := 2024; month := 2; day := 29 |}
  /\ day {| year := 2024; month := 2; day := 1 |} = 1
  /\ 28 <= day {| year := 2024; month := 2; day := 29 |} <= 31.
Proof.
  apply (proj1 (proj2 (month_bounds_accepts_exactly 4300)) "2024-02").
  reflexivity.
Defined.
Lemma pattern_accepts_exactly_the_grammar_witness :
  exists m : captures,
    re_match ISO_DURATION_RE "PT5H30M" = Some m
    /\ group "h" m = Some "5" /\ group "m" m = Some "30" /\ group "s" m = None.
Proof.
  apply (proj1 pattern_accepts_exactly_the_grammar
           "PT5H30M" (Some "5") (Some "30") None).
  exact time_only_conforms.
Defined.

Lemma location_is_never_false_witness :
  py_truthy (Location scenario_row) = true
  /\ empty_or_null (Location scenario_row) = false.
Proof.
  apply (location_is_never_false 4300 concat_urljoin plain_urlparse_path
           opaque_py_str mock_server example_session example_session ""
           scenario_entry scenario_row).
  vm_compute. reflexivity.
Defined.

Lemma failed_option_fetch_aborts_entry_witness :
  process_entry 4300 concat_urljoin plain_urlparse_path opaque_py_str
    mock_server example_session "customField7"
    (JObj [ ("spentOn", JStr "2024-03-05");
            ("hours", JStr "PT8H");
            ("_links",
             JObj [ ("customField7",
                     JObj [("href", JStr "/api/v3/custom_options/5")]) ]) ])
  = (Raise RequestException,
     {| base_url := base_url example_session;
        custom_opt_cache := Some (cache_of example_session);
        requests_sent :=
          requests_sent example_session
          ++ ["https://op.example/api/v3/custom_options/5"] |}).
Proof.
  apply (failed_option_fetch_aborts_entry 4300 concat_urljoin
           plain_urlparse_path opaque_py_str mock_server example_session
           "customField7" "/api/v3/custom_options/5"
           "https://op.example/api/v3/custom_options/5"
           [ ("spentOn", JStr "2024-03-05");
             ("hours", JStr "PT8H");
             ("_links",
              JObj [ ("customField7",
                      JObj [("href", JStr "/api/v3/custom_options/5")]) ]) ]
           [ ("customField7",
              JObj [("href", JStr "/api/v3/custom_options/5")]) ]
           [("href", JStr "/api/v3/custom_options/5")]
           (JStr "2024-03-05") (JStr "") (decimal 80 1) "" "" RequestException);
    first [exact option_out_of_reach | discriminate | reflexivity].
Defined.
